(** * CogniFlow: tool registry and Telegram event bridge

    A shallow embedding of [core/session.py] (class [MultiMCP]) and of
    [mcp_server_telegram_sse.py] (webhook ingestion, broadcast loop and
    server-sent-event subscribers), with the properties of the design
    document stated and settled over it.

    - [Py]: the Python values the code manipulates (parsed JSON, truthiness,
      [or], [dict.get], [str]) and the exceptions it can raise.
    - [Registry]: [MultiMCP.initialize], the two registration helpers and
      [MultiMCP.call_tool].
    - [Webhook]: [extract_text_message] and [telegram_webhook].
    - [Broadcast]: [broadcast_loop] and [sse_events] as a transition system
      over the shared application state. *)

From stdpp Require Import gmap strings list fin_maps pretty.
From Stdlib Require Import ZArith Ascii Floats.SpecFloat.

Set Warnings "-register-all".
Set Default Proof Using "Type".

(** ** Python values *)

Module Py.

(** What [json.loads] (and the YAML loader) can produce. Integers are
    unbounded; a literal with a fraction or an exponent is a binary64 float. *)
Inductive json : Type :=
  | JNull
  | JBool (b : bool)
  | JInt (n : Z)
  | JFloat (f : spec_float)
  | JStr (s : string)
  | JList (l : list json)
  | JDict (d : gmap string json).

(** [bool(v)]: [None], [False], zero, and empty strings and containers are
    false; everything else is true. *)
Definition truthy (v : json) : bool :=
  match v with
  | JNull => false
  | JBool b => b
  | JInt n => negb (n =? 0)%Z
  | JFloat (S754_zero _) => false
  | JFloat _ => true
  | JStr s => negb (String.eqb s "")
  | JList l => negb (bool_decide (length l = 0))
  | JDict d => negb (bool_decide (size d = 0))
  end.

(** [a or b] on values (the right operand is a value here, so laziness does
    not show). *)
Definition py_or (a b : json) : json := if truthy a then a else b.

(** Truthiness of an optional string field: absent and [""] are false. *)
Definition nonempty (o : option string) : bool :=
  match o with
  | Some s => negb (String.eqb s "")
  | None => false
  end.

(** The exceptions that appear in the two modules. *)
Inductive py_exn : Type :=
  | AttributeError
  | KeyError (key : string)
  | ValueError (msg : string)
  | RuntimeError (msg : string)
  | JSONDecodeError
  | HTTPException (status_code : Z) (detail : string)
  | OtherException (name : string).

(** A computation that returns or raises. *)
Inductive result (A : Type) : Type :=
  | Ok (a : A)
  | Raise (e : py_exn).
Arguments Ok {A} a.
Arguments Raise {A} e.

Definition bind {A B} (r : result A) (k : A → result B) : result B :=
  match r with
  | Ok a => k a
  | Raise e => Raise e
  end.

Notation "x ←! r ; k" := (bind r (λ x, k))
  (at level 20, r at level 100, k at level 200, right associativity,
   format "x  ←!  r ;  '/' k").

(** [v.get(key)]: defined on dicts only, [None] for a missing key. *)
Definition get (v : json) (key : string) : result json :=
  match v with
  | JDict d => Ok (default JNull (d !! key))
  | _ => Raise AttributeError
  end.

(** [v.get(key, dflt)]. *)
Definition get_default (v : json) (key : string) (dflt : json) : result json :=
  match v with
  | JDict d => Ok (default dflt (d !! key))
  | _ => Raise AttributeError
  end.

(** [s.upper()] on the ASCII letters. *)
Definition upper_ascii (c : ascii) : ascii :=
  let n := nat_of_ascii c in
  if (97 <=? n)%nat && (n <=? 122)%nat then ascii_of_nat (n - 32) else c.

Fixpoint upper (s : string) : string :=
  match s with
  | EmptyString => EmptyString
  | String c rest => String (upper_ascii c) (upper rest)
  end.

(** [s.rstrip(ch)] for a one-character argument: every trailing [ch] goes. *)
Fixpoint rstrip (ch : ascii) (s : string) : string :=
  match s with
  | EmptyString => EmptyString
  | String c rest =>
      match rstrip ch rest with
      | EmptyString => if Ascii.eqb c ch then EmptyString else String c EmptyString
      | rest' => String c rest'
      end
  end.

End Py.

(** ** core/session.py: the tool registry *)

Module Registry.
Import Py.

(** One item of an HTTP backend's [tools] list. Every key is optional in the
    configuration file; [None] is a missing key. *)
Record tool_def : Type := {
  td_name : option string;
  td_endpoint : option string;
  td_method : option string;
  td_description : option string;
  td_parameters : option json;
}.

(** One element of [server_configs]. [cfg_transport] is the key that the
    registry adds when it copies the configuration into an entry. *)
Record backend_config : Type := {
  cfg_script : option string;
  cfg_cwd : option string;
  cfg_host : option string;
  cfg_name : option string;
  cfg_description : option string;
  cfg_tools : option (list tool_def);
  cfg_transport : option string;
}.

(** [{**config, "transport": t}] *)
Definition with_transport (config : backend_config) (t : string) : backend_config :=
  {| cfg_script := cfg_script config;
     cfg_cwd := cfg_cwd config;
     cfg_host := cfg_host config;
     cfg_name := cfg_name config;
     cfg_description := cfg_description config;
     cfg_tools := cfg_tools config;
     cfg_transport := Some t |}.

(** A tool as an MCP server lists it. *)
Record mcp_tool : Type := {
  tool_name : string;
  tool_description : option string;
  tool_inputSchema : json;
}.

(** The ["tool"] slot of an entry: the listed MCP tool, or the
    [SimpleNamespace(name, description, parameters)] built for an HTTP tool. *)
Inductive tool_obj : Type :=
  | McpTool (tool : mcp_tool)
  | Namespace (name description : string) (parameters : json).

(** A value of [tool_map]: the dictionary stored under a tool name. The keys
    ["endpoint"] and ["method"] exist for HTTP tools only. *)
Record entry : Type := {
  e_config : backend_config;
  e_tool : tool_obj;
  e_transport : string;
  e_endpoint : option string;
  e_method : option string;
}.

(** What one discovery round-trip to a stdio server comes to.
    - [SpawnFailed]: an exception outside the session block (building the
      parameters, starting the subprocess): the outer handler prints it.
    - [SessionFailed]: an exception inside the session block before the tool
      list arrives (handshake, [list_tools]): the inner handler prints it.
    - [Listed tools]: the list arrived and the loop over it ran; an error on
      the way out of the two context managers is printed by a handler too. *)
Inductive discovery : Type :=
  | SpawnFailed
  | SessionFailed
  | Listed (tools : list mcp_tool).

Definition stdio_entry (config : backend_config) (tool : mcp_tool) : entry :=
  {| e_config := with_transport config "stdio";
     e_tool := McpTool tool;
     e_transport := "stdio";
     e_endpoint := None;
     e_method := None |}.

(** [_register_stdio_server], given what the round-trip produced. No
    exception leaves it: both handlers catch [Exception]. *)
Definition _register_stdio_server
    (d : discovery) (config : backend_config) (tool_map : gmap string entry)
    : gmap string entry :=
  match d with
  | Listed tools =>
      foldl (λ m tool, <[tool_name tool := stdio_entry config tool]> m) tool_map tools
  | SpawnFailed | SessionFailed => tool_map
  end.

Definition http_entry
    (config : backend_config) (tool_def : tool_def) (tool_name endpoint : string)
    : entry :=
  {| e_config := with_transport config "http";
     e_tool :=
       Namespace tool_name
         (if nonempty (td_description tool_def)
          then default "" (td_description tool_def)
          else default "" (cfg_description config))
         (match td_parameters tool_def with
          | Some p => py_or p (JDict ∅)
          | None => JDict ∅
          end);
     e_transport := "http";
     e_endpoint := Some endpoint;
     e_method := Some (upper (if nonempty (td_method tool_def)
                              then default "POST" (td_method tool_def)
                              else "POST")) |}.

(** The body of the loop of [_register_http_server]: an item without a name
    or without an endpoint is skipped. *)
Definition register_http_tool
    (config : backend_config) (tool_map : gmap string entry) (tool_def : tool_def)
    : gmap string entry :=
  match td_name tool_def, td_endpoint tool_def with
  | Some tool_name, Some endpoint =>
      if negb (String.eqb tool_name "") && negb (String.eqb endpoint "")
      then <[tool_name := http_entry config tool_def tool_name endpoint]> tool_map
      else tool_map
  | _, _ => tool_map
  end.

Definition _register_http_server
    (config : backend_config) (tool_map : gmap string entry) : gmap string entry :=
  let tools := default [] (cfg_tools config) in
  match tools with
  | [] => tool_map
  | _ => foldl (register_http_tool config) tool_map tools
  end.

Definition has_key {A} (o : option A) : bool :=
  match o with Some _ => true | None => false end.

(** The body of the loop of [initialize] for one configuration, [d] being
    the outcome of its discovery round-trip should it be a stdio server. *)
Definition register_backend
    (d : discovery) (config : backend_config) (tool_map : gmap string entry)
    : gmap string entry :=
  if has_key (cfg_script config) then _register_stdio_server d config tool_map
  else if has_key (cfg_host config) then _register_http_server config tool_map
  else tool_map.

(** The loop of [initialize] from position [i] of [server_configs] on;
    [discover k] is the outcome of the round-trip for the [k]-th
    configuration. *)
Fixpoint initialize_from
    (discover : nat → discovery) (i : nat) (configs : list backend_config)
    (tool_map : gmap string entry) : gmap string entry :=
  match configs with
  | [] => tool_map
  | config :: rest =>
      initialize_from discover (S i) rest (register_backend (discover i) config tool_map)
  end.

Record MultiMCP : Type := {
  server_configs : list backend_config;
  tool_map : gmap string entry;
}.

(** [MultiMCP(server_configs)] *)
Definition new (server_configs : list backend_config) : MultiMCP :=
  {| server_configs := server_configs; tool_map := ∅ |}.

Definition initialize (discover : nat → discovery) (self : MultiMCP) : MultiMCP :=
  {| server_configs := server_configs self;
     tool_map := initialize_from discover 0 (server_configs self) (tool_map self) |}.

(** [list_all_tools] without the order: the names in the map. *)
Definition registered_names (self : MultiMCP) : gset string := dom (tool_map self).

(** The entries of the map filed under [name]. *)
Definition entries_under (name : string) (tool_map : gmap string entry)
    : list (string * entry) :=
  filter (λ kv, kv.1 = name) (map_to_list tool_map).

(** *** Calling a tool *)

(** The objects [call_tool] can return: attribute bags (a [SimpleNamespace],
    or a result object of the MCP client library), lists and strings. *)
Inductive pyobj : Type :=
  | PNone
  | PBool (b : bool)
  | PStr (s : string)
  | PList (l : list pyobj)
  | PObject (cls : string) (attrs : list (string * pyobj)).

Fixpoint assoc (key : string) (attrs : list (string * pyobj)) : option pyobj :=
  match attrs with
  | [] => None
  | (k, v) :: rest => if String.eqb k key then Some v else assoc key rest
  end.

(** [getattr(o, key)], [None] standing for [AttributeError]. *)
Definition getattr (o : pyobj) (key : string) : option pyobj :=
  match o with
  | PObject _ attrs => assoc key attrs
  | _ => None
  end.

(** [o.content.text] when [o] has the envelope shape
    [{ content: { text: string } }]. *)
Definition envelope_text (o : pyobj) : option string :=
  match getattr o "content" with
  | Some content =>
      match getattr content "text" with
      | Some (PStr text) => Some text
      | _ => None
      end
  | None => None
  end.

Record StdioServerParameters : Type := {
  command : string;
  args : list string;
  cwd : string;
}.

Inductive http_method : Type := GET | POST.

(** One request of the HTTP client: [client.get(url, params=...)] fills
    [rq_params], [client.post(url, json=...)] fills [rq_json]. *)
Record http_request : Type := {
  rq_method : http_method;
  rq_url : string;
  rq_params : option json;
  rq_json : option json;
}.

(** What the call of the HTTP client comes to: a response; a transport
    error (an [httpx.HTTPError]); or any other exception of the client,
    which the handler of [call_tool] does not catch, [httpx.InvalidURL]
    for a URL that does not parse among them (a host that ends with a port
    followed by an endpoint without a slash), raised before anything is
    sent. *)
Inductive http_outcome : Type :=
  | Response (status_code : Z) (text : string)
  | TransportError
  | OtherError (name : string).

(** [response.raise_for_status()] passes for the 2xx codes only. *)
Definition is_success (status_code : Z) : bool :=
  (200 <=? status_code)%Z && (status_code <? 300)%Z.

(** The world outside the registry, as far as [call_tool] sees it. *)
Record environment : Type := {
  sys_executable : string;
  os_getcwd : string;
  (** one scoped stdio session: spawn, handshake, one [call_tool], teardown *)
  stdio_session : StdioServerParameters → string → json → result pyobj;
  http_send : http_request → http_outcome;
}.

(** What [call_tool] does to the outside: the subprocess it starts for one
    session, or the call of the HTTP client it makes ([client.get] or
    [client.post] with these arguments; [http_send] says what comes of
    it). *)
Inductive io_event : Type :=
  | SpawnStdio (params : StdioServerParameters) (tool_name : string) (arguments : json)
  | HttpRequest (rq : http_request).

Definition SimpleNamespace (attrs : list (string * pyobj)) : pyobj :=
  PObject "SimpleNamespace" attrs.

(** The message of the [RuntimeError] that wraps an [httpx.HTTPError]; the
    text of the cause, which the code appends, is left out. *)
Definition request_failed (tool_name : string) : string :=
  "HTTP tool '" +:+ tool_name +:+ "' request failed".

(** [MultiMCP.call_tool]: the input/output performed, and the value returned
    or the exception raised. *)
Definition call_tool
    (env : environment) (self : MultiMCP) (tool_name : string) (arguments : json)
    : list io_event * result pyobj :=
  match tool_map self !! tool_name with
  | None => ([], Raise (ValueError ("Tool '" +:+ tool_name +:+ "' not found on any server.")))
  | Some entry =>
      let config := e_config entry in
      let transport := e_transport entry in
      if String.eqb transport "stdio" then
        match cfg_script config with
        | None => ([], Raise (KeyError "script"))
        | Some script =>
            let params :=
              {| command := sys_executable env;
                 args := [script];
                 cwd := default (os_getcwd env) (cfg_cwd config) |} in
            ([SpawnStdio params tool_name arguments],
             stdio_session env params tool_name arguments)
        end
      else if String.eqb transport "http" then
        let method := upper (default "POST" (e_method entry)) in
        match cfg_host config, e_endpoint entry with
        | Some host, Some endpoint =>
            if negb (String.eqb host "") && negb (String.eqb endpoint "") then
              let url := rstrip "/"%char host +:+ endpoint in
              let rq :=
                if String.eqb method "GET"
                then {| rq_method := GET; rq_url := url;
                        rq_params := Some arguments; rq_json := None |}
                else {| rq_method := POST; rq_url := url;
                        rq_params := None; rq_json := Some arguments |} in
              ([HttpRequest rq],
               match http_send env rq with
               | Response status_code text =>
                   if is_success status_code
                   then Ok (SimpleNamespace
                              [("content", SimpleNamespace [("text", PStr text)])])
                   else Raise (RuntimeError (request_failed tool_name))
               | TransportError => Raise (RuntimeError (request_failed tool_name))
               | OtherError name => Raise (OtherException name)
               end)
            else
              ([], Raise (ValueError ("HTTP tool '" +:+ tool_name
                                      +:+ "' lacks host or endpoint configuration.")))
        | _, _ =>
            ([], Raise (ValueError ("HTTP tool '" +:+ tool_name
                                    +:+ "' lacks host or endpoint configuration.")))
        end
      else
        ([], Raise (ValueError ("Unsupported transport '" +:+ transport
                                +:+ "' for tool '" +:+ tool_name +:+ "'.")))
  end.

(** The results of the MCP client library, as [session.call_tool] returns
    them: a [CallToolResult] whose [content] is a list of content blocks. *)
Definition TextContent (text : string) : pyobj :=
  PObject "TextContent" [("type", PStr "text"); ("text", PStr text)].

Definition CallToolResult (content : list pyobj) : pyobj :=
  PObject "CallToolResult" [("content", PList content); ("isError", PBool false)].

(** *** Notions the statements use *)

(** A map transformer that only files entries: what it leaves under a name
    is what it files there on the empty map, or else what was there. *)
Definition overlays (f : gmap string entry → gmap string entry) : Prop :=
  ∀ m n, f m !! n = match f ∅ !! n with Some e => Some e | None => m !! n end.

(** The envelope sentence read to the letter: whatever the transport, a call
    that returns gives back a value of the shape [{ content: { text } }]. *)
Definition uniform_envelope : Prop :=
  ∀ env self tool_name arguments r,
    (call_tool env self tool_name arguments).2 = Ok r → is_Some (envelope_text r).

(** Backend [config], whose discovery came to [d], has a tool called [n] to
    register: a listed tool of a stdio server, or an item of an HTTP
    backend with that name and an endpoint. *)
Definition offers (d : discovery) (config : backend_config) (n : string) : Prop :=
  (has_key (cfg_script config) = true
   ∧ ∃ tools tool, d = Listed tools ∧ tool ∈ tools ∧ tool_name tool = n)
  ∨ (cfg_script config = None ∧ has_key (cfg_host config) = true
     ∧ ∃ tool_def endpoint,
         tool_def ∈ default [] (cfg_tools config)
         ∧ td_name tool_def = Some n ∧ n ≠ ""
         ∧ td_endpoint tool_def = Some endpoint ∧ endpoint ≠ "").

(** The method an HTTP tool is configured with, as registration stores it:
    upper case, [POST] when none is given. *)
Definition configured_method (tool_def : tool_def) : string :=
  upper (if nonempty (td_method tool_def) then default "POST" (td_method tool_def)
         else "POST").

(** *** Sample data *)

Definition stdio_backend : backend_config :=
  {| cfg_script := Some "mcp_server_1.py"; cfg_cwd := None; cfg_host := None;
     cfg_name := None; cfg_description := None; cfg_tools := None;
     cfg_transport := None |}.

Definition add_tool : mcp_tool :=
  {| tool_name := "add"; tool_description := Some "Add two numbers";
     tool_inputSchema := JDict ∅ |}.

Definition add_def : tool_def :=
  {| td_name := Some "add"; td_endpoint := Some "/add"; td_method := Some "get";
     td_description := None; td_parameters := None |}.

Definition http_backend : backend_config :=
  {| cfg_script := None; cfg_cwd := None; cfg_host := Some "http://127.0.0.1:8000/";
     cfg_name := Some "calculator"; cfg_description := Some "Arithmetic";
     cfg_tools := Some [add_def]; cfg_transport := None |}.

(** A world where every stdio session answers with a text block and every
    HTTP request with 200. *)
Definition sample_env : environment :=
  {| sys_executable := "python"; os_getcwd := "/srv";
     stdio_session := λ _ _ _, Ok (CallToolResult [TextContent "4"]);
     http_send := λ _, Response 200 "4" |}.

(** Discovery lists [add] everywhere; discovery fails everywhere. *)
Definition lists_add : nat → discovery := λ _, Listed [add_tool].
Definition unreachable : nat → discovery := λ _, SpawnFailed.

End Registry.

(** ** mcp_server_telegram_sse.py: webhook ingestion *)

Module Webhook.
Import Py.

(** The dictionary [{"sender": ..., "text": ..., "raw": ...}] that
    [extract_text_message] builds and the queues carry. *)
Record event : Type := {
  sender : json;
  text : json;
  raw : json;
}.

(** [JSONResponse(content)]; the status code is 200 unless given. *)
Record response : Type := {
  status_code : Z;
  content : json;
}.

Definition JSONResponse (content : json) : response :=
  {| status_code := 200; content := content |}.

(** The part of [app.state] the webhook touches, and the agent subprocesses
    it has started. *)
Record ingest_state : Type := {
  event_queue : list event;
  latest_message : option event;
  agents_started : nat;
}.

(** The status the client sees: an [HTTPException] carries its own, any
    other exception that leaves the handler is an internal server error. *)
Definition status_of (r : result response) : Z :=
  match r with
  | Ok resp => status_code resp
  | Raise (HTTPException code _) => code
  | Raise _ => 500
  end.

Section Handlers.

(** [repr] of a float, a list or a dict, which [str] falls back on. *)
Variable repr : json → string.

(** [str(v)] *)
Definition str (v : json) : string :=
  match v with
  | JNull => "None"
  | JBool true => "True"
  | JBool false => "False"
  | JInt n => pretty n
  | JStr s => s
  | JFloat _ | JList _ | JDict _ => repr v
  end.

(** [extract_text_message]: [Ok None] is the [return None], [Raise] an
    attribute lookup on a value that is no dict. *)
Definition extract_text_message (update : json) : result (option event) :=
  m ←! get update "message";
  message ←! (if truthy m then Ok m
              else e ←! get update "edited_message"; Ok (py_or e (JDict ∅)));
  text ←! get message "text";
  if negb (truthy text) then Ok None
  else
    f ←! get message "from";
    let sender_info := py_or f (JDict ∅) in
    u ←! get sender_info "username";
    sender ←! (if truthy u then Ok u
               else
                 n ←! get sender_info "first_name";
                 if truthy n then Ok n
                 else
                   i ←! get_default sender_info "id" (JStr "unknown");
                   Ok (JStr (str i)));
    Ok (Some {| sender := sender; text := text; raw := update |}).

(** [telegram_webhook]. [request_json] is what [await request.json()] comes
    to, [popen_ok] whether starting the agent subprocess worked (a failure
    there is logged and nothing more). *)
Definition telegram_webhook
    (request_json : result json) (popen_ok : bool) (st : ingest_state)
    : ingest_state * result response :=
  match request_json with
  | Raise JSONDecodeError => (st, Raise (HTTPException 400 "Invalid JSON payload."))
  | Raise e => (st, Raise e)
  | Ok update =>
      match extract_text_message update with
      | Raise e => (st, Raise e)
      | Ok None =>
          (st, Ok (JSONResponse
                     (JDict {[ "ok" := JBool true; "ignored" := JBool true ]})))
      | Ok (Some extracted) =>
          ({| event_queue := event_queue st ++ [extracted];
              latest_message := Some extracted;
              agents_started :=
                if popen_ok then S (agents_started st) else agents_started st |},
           Ok (JSONResponse (JDict {[ "ok" := JBool true ]})))
      end
  end.

(** The [message] that line 68 of the module selects from an update:
    [update.get("message") or update.get("edited_message") or {}]. *)
Definition selected_message (update : gmap string json) : json :=
  py_or (default JNull (update !! "message"))
    (py_or (default JNull (update !! "edited_message")) (JDict ∅)).

(** [message.get("from") or {}] *)
Definition sender_info_of (message : gmap string json) : json :=
  py_or (default JNull (message !! "from")) (JDict ∅).

(** A field that is there, in the sense of [or]: the key exists and its
    value is true. *)
Definition present (d : gmap string json) (key : string) : option json :=
  match d !! key with
  | Some v => if truthy v then Some v else None
  | None => None
  end.

(** The choice that lines 74 to 78 make, given the username and the first
    name if they are there and what stands under the key [id] if the key
    exists: [username or first_name or str(id)], and ["unknown"] without
    the key. *)
Definition sender_by_precedence (username first_name id : option json) : json :=
  match username, first_name, id with
  | Some u, _, _ => u
  | None, Some n, _ => n
  | None, None, Some i => JStr (str i)
  | None, None, None => JStr "unknown"
  end.

(** The sender identity in the words of the design document, for a sender
    object [f]: the username if present, else the first name, else the
    numeric id rendered as a string, else ["unknown"]. Only a number counts
    as a numeric id. *)
Definition sender_as_documented (f : gmap string json) : json :=
  match present f "username", present f "first_name", f !! "id" with
  | Some u, _, _ => u
  | None, Some n, _ => n
  | None, None, Some (JInt i) => JStr (str (JInt i))
  | None, None, Some (JFloat x) => JStr (str (JFloat x))
  | None, None, _ => JStr "unknown"
  end.

(** The sender sentence read to the letter: every event that comes out
    carries the documented sender. *)
Definition sender_is_documented : Prop :=
  ∀ update extracted d message f,
    extract_text_message update = Ok (Some extracted) →
    update = JDict d →
    selected_message d = JDict message →
    sender_info_of message = JDict f →
    sender extracted = sender_as_documented f.

(** The ingestion sentence read to the letter: a body that parses and from
    which no event comes out is answered with 200 and queues nothing. *)
Definition no_text_is_accepted : Prop :=
  ∀ update popen_ok st,
    (∀ extracted, extract_text_message update ≠ Ok (Some extracted)) →
    status_of (telegram_webhook (Ok update) popen_ok st).2 = 200%Z
    ∧ (telegram_webhook (Ok update) popen_ok st).1 = st.

End Handlers.

(** *** Sample data *)

Definition sample_repr : json → string := λ _, "...".

Definition empty_state : ingest_state :=
  {| event_queue := []; latest_message := None; agents_started := 0 |}.

(** [{"update_id": 7, "message": "hello"}] *)
Definition update_message_string : json :=
  JDict {[ "update_id" := JInt 7; "message" := JStr "hello" ]}.

(** [{"message": {"text": "hi", "from": {"id": 42}}}] *)
Definition update_id_only : json :=
  JDict {[ "message" :=
             JDict {[ "text" := JStr "hi"; "from" := JDict {[ "id" := JInt 42 ]} ]} ]}.

(** [{"message": {"text": "hi", "from": {"id": null}}}] *)
Definition update_null_id : json :=
  JDict {[ "message" :=
             JDict {[ "text" := JStr "hi"; "from" := JDict {[ "id" := JNull ]} ]} ]}.

(** [{"update_id": 8, "message": {"from": {"id": 42}}}] and its message *)
Definition message_no_text : gmap string json :=
  {[ "from" := JDict {[ "id" := JInt 42 ]} ]}.

Definition update_no_text : gmap string json :=
  {[ "update_id" := JInt 8; "message" := JDict message_no_text ]}.

End Webhook.

(** ** mcp_server_telegram_sse.py: the broadcast loop and its subscribers

    The server runs on one cooperative event loop: a task runs until it
    awaits something that is not ready. The transition system below has one
    step per stretch of code between two such points; a label says which
    task moves. Subscriber queues are named by numbers (their identity as
    Python objects). The state is the one between startup and shutdown, and
    a subscriber's generator is taken as started by the streaming response.
    The order in which tasks waiting for [clients_lock] are served is left
    open: any of them may take a free lock, which covers the schedules of
    the event loop and more. *)

Module Broadcast.
Import Py.
Export Webhook.

(** [asyncio.Queue(maxsize=10)] *)
Definition maxsize : nat := 10.

(** Where [broadcast_loop] stands. *)
Inductive broadcaster : Type :=
  | AwaitGet
      (** in [event_queue.get()], the lock not held *)
  | AwaitLock (message : event)
      (** has a message, waits for [clients_lock] *)
  | FanOut (message : event) (todo : list nat)
      (** holds the lock; [todo] is what is left of [list(app.state.clients)],
          and the next [put] goes to its head *).

(** Where [event_generator] stands. *)
Inductive generator : Type :=
  | Running
      (** in the [try] block: in [client_queue.get()] or at the [yield] *)
  | Finalizing
      (** in the [finally] block, before [clients_lock] is acquired *)
  | Closed.

Record subscriber : Type := {
  queue : list event;    (** [client_queue], oldest first *)
  gen : generator;
  stream : list event;   (** the events whose frames were yielded so far *)
}.

Record state : Type := {
  event_queue : list event;          (** [app.state.event_queue] *)
  clients : gset nat;                (** [app.state.clients] *)
  subscribers : gmap nat subscriber; (** every queue ever created *)
  broadcast_task : broadcaster;
}.

Definition initial : state :=
  {| event_queue := []; clients := ∅; subscribers := ∅; broadcast_task := AwaitGet |}.

(** How control can leave the [try] block of [event_generator]. *)
Inductive exit_kind : Type :=
  | Disconnected  (** the response closes the generator at the [yield] *)
  | Cancelled     (** [CancelledError], caught and raised again *)
  | Failed.       (** any other exception *)

Inductive label : Type :=
  | Ingest (message : event)
      (** [telegram_webhook]: [event_queue.put(extracted)] *)
  | Dequeue
      (** [broadcast_loop]: [event_queue.get()] returns *)
  | Acquire (order : list nat)
      (** [broadcast_loop]: the lock is taken and [list(app.state.clients)]
          evaluated, [order] being the order the set is read in *)
  | Put (c : nat)
      (** [broadcast_loop]: [client_queue.put(message)] returns *)
  | Release
      (** [broadcast_loop]: the loop over the copy ends, the lock is freed *)
  | Subscribe (c : nat)
      (** [sse_events]: a new queue is added to the set under the lock *)
  | Consume (c : nat)
      (** [event_generator]: [client_queue.get()] returns and the frame is yielded *)
  | Exit (c : nat) (why : exit_kind)
      (** [event_generator]: control leaves the [try] block *)
  | Finalize (c : nat).
      (** [event_generator]: the [finally] block takes the lock and discards *)

(** [clients_lock.locked()]: only the broadcaster keeps the lock across an
    [await]; the other two critical sections run in one stretch. *)
Definition locked (s : state) : bool :=
  match broadcast_task s with
  | FanOut _ _ => true
  | AwaitGet | AwaitLock _ => false
  end.

(** [client_queue.full()] *)
Definition full (q : list event) : bool := bool_decide (maxsize ≤ length q).

Definition set_subscriber (c : nat) (sub : subscriber) (s : state) : state :=
  {| event_queue := event_queue s;
     clients := clients s;
     subscribers := <[c := sub]> (subscribers s);
     broadcast_task := broadcast_task s |}.

Definition set_broadcast_task (b : broadcaster) (s : state) : state :=
  {| event_queue := event_queue s;
     clients := clients s;
     subscribers := subscribers s;
     broadcast_task := b |}.

(** One step; [None] when the task named by the label cannot move. *)
Definition step (s : state) (l : label) : option state :=
  match l with
  | Ingest message =>
      Some {| event_queue := event_queue s ++ [message];
              clients := clients s;
              subscribers := subscribers s;
              broadcast_task := broadcast_task s |}
  | Dequeue =>
      match broadcast_task s, event_queue s with
      | AwaitGet, message :: rest =>
          Some {| event_queue := rest;
                  clients := clients s;
                  subscribers := subscribers s;
                  broadcast_task := AwaitLock message |}
      | _, _ => None
      end
  | Acquire order =>
      match broadcast_task s with
      | AwaitLock message =>
          if bool_decide (NoDup order ∧ list_to_set order = clients s)
          then Some (set_broadcast_task (FanOut message order) s)
          else None
      | _ => None
      end
  | Put c =>
      match broadcast_task s with
      | FanOut message (c' :: todo) =>
          if bool_decide (c = c') then
            sub ← subscribers s !! c;
            if full (queue sub) then None
            else Some (set_broadcast_task (FanOut message todo)
                         (set_subscriber c
                            {| queue := queue sub ++ [message];
                               gen := gen sub;
                               stream := stream sub |} s))
          else None
      | _ => None
      end
  | Release =>
      match broadcast_task s with
      | FanOut _ [] => Some (set_broadcast_task AwaitGet s)
      | _ => None
      end
  | Subscribe c =>
      if locked s then None
      else
        match subscribers s !! c with
        | Some _ => None
        | None =>
            Some {| event_queue := event_queue s;
                    clients := {[c]} ∪ clients s;
                    subscribers :=
                      <[c := {| queue := []; gen := Running; stream := [] |}]>
                        (subscribers s);
                    broadcast_task := broadcast_task s |}
        end
  | Consume c =>
      sub ← subscribers s !! c;
      match gen sub, queue sub with
      | Running, message :: rest =>
          Some (set_subscriber c
                  {| queue := rest; gen := Running; stream := stream sub ++ [message] |} s)
      | _, _ => None
      end
  | Exit c _ =>
      sub ← subscribers s !! c;
      match gen sub with
      | Running =>
          Some (set_subscriber c
                  {| queue := queue sub; gen := Finalizing; stream := stream sub |} s)
      | _ => None
      end
  | Finalize c =>
      if locked s then None
      else
        sub ← subscribers s !! c;
        match gen sub with
        | Finalizing =>
            Some {| event_queue := event_queue s;
                    clients := clients s ∖ {[c]};
                    subscribers :=
                      <[c := {| queue := queue sub; gen := Closed; stream := stream sub |}]>
                        (subscribers s);
                    broadcast_task := broadcast_task s |}
        | _ => None
        end
  end.

(** A schedule, run from [s]. *)
Fixpoint run (s : state) (trace : list label) : option state :=
  match trace with
  | [] => Some s
  | l :: rest =>
      match step s l with
      | Some s' => run s' rest
      | None => None
      end
  end.

Definition reachable (s : state) : Prop := ∃ trace, run initial trace = Some s.

(** The events put on the central queue along a schedule, in order. *)
Fixpoint ingested (trace : list label) : list event :=
  match trace with
  | [] => []
  | Ingest message :: rest => message :: ingested rest
  | _ :: rest => ingested rest
  end.

Definition is_put (l : label) : bool :=
  match l with Put _ => true | _ => false end.

Definition stream_of (c : nat) (s : state) : list event :=
  match subscribers s !! c with Some sub => stream sub | None => [] end.

Definition queue_of (c : nat) (s : state) : list event :=
  match subscribers s !! c with Some sub => queue sub | None => [] end.

Definition gen_of (c : nat) (s : state) : option generator :=
  gen <$> subscribers s !! c.

(** The queues the fan-out pass under way has still to put into. *)
Definition pass_targets (s : state) : list nat :=
  match broadcast_task s with
  | FanOut _ todo => todo
  | AwaitGet | AwaitLock _ => []
  end.

(** The message the broadcaster holds and has not yet put into [c]'s queue. *)
Definition in_flight (c : nat) (s : state) : list event :=
  match broadcast_task s with
  | AwaitGet => []
  | AwaitLock message => [message]
  | FanOut message todo => if bool_decide (c ∈ todo) then [message] else []
  end.

(** Everything a registered subscriber has been or is going to be sent, as
    things stand: its stream so far, its queue, the message in flight and
    the central queue. *)
Definition assigned (c : nat) (s : state) : list event :=
  stream_of c s ++ queue_of c s ++ in_flight c s ++ event_queue s.

(** A subscriber that is registered and still reads. *)
Definition connected (c : nat) (s : state) : Prop :=
  c ∈ clients s ∧ gen_of c s = Some Running.

(** Nothing is on its way to [c]. *)
Definition drained (c : nat) (s : state) : Prop :=
  queue_of c s = [] ∧ in_flight c s = [] ∧ event_queue s = [].

(** The broadcaster is inside [client_queue.put] on the full queue [c]. *)
Definition blocked_on (c : nat) (s : state) : Prop :=
  ∃ message todo,
    broadcast_task s = FanOut message (c :: todo) ∧ maxsize ≤ length (queue_of c s).

(** The message the broadcaster has taken off the central queue and not
    yet finished with. *)
Definition held (s : state) : list event :=
  match broadcast_task s with
  | AwaitGet => []
  | AwaitLock message | FanOut message _ => [message]
  end.

(** The backpressure sentence read to the letter: whenever a registered
    queue holds [maxsize] events, no step puts a further event, one that
    this queue does not hold already, into any queue. *)
Definition no_further_event_while_some_queue_full : Prop :=
  ∀ s, reachable s →
    ∀ c, c ∈ clients s → length (queue_of c s) = maxsize →
    ∀ c' s' message,
      step s (Put c') = Some s' → held s = [message] → message ∈ queue_of c s.

(** The events a label puts on the central queue. *)
Definition new_events (l : label) : list event :=
  match l with Ingest message => [message] | _ => [] end.

(** Bookkeeping that every step keeps: a registered queue exists, the pass
    under way names no queue twice and registered queues only, and a
    generator still in its [try] block has its queue registered. *)
Definition consistent (s : state) : Prop :=
  (∀ c, c ∈ clients s → is_Some (subscribers s !! c))
  ∧ NoDup (pass_targets s)
  ∧ (∀ c, gen_of c s = Some Running → c ∈ clients s)
  ∧ (∀ c, c ∈ pass_targets s → c ∈ clients s).

(** What holds after every schedule run from [initial]: the events not yet
    fanned out are the latest ingested ones, what is assigned to a
    registered subscriber is a final stretch of the ingested events, and
    every stream is a stretch of them. *)
Definition delivery_invariant (trace : list label) (s : state) : Prop :=
  consistent s
  ∧ held s ++ event_queue s `suffix_of` ingested trace
  ∧ (∀ c, c ∈ clients s → assigned c s `suffix_of` ingested trace)
  ∧ (∀ c, ∃ before after, ingested trace = before ++ stream_of c s ++ after).

(** Every registered subscriber reads and has an empty queue. *)
Definition ready (s : state) : Prop :=
  ∀ c, c ∈ clients s →
    ∃ sub, subscribers s !! c = Some sub ∧ gen sub = Running ∧ queue sub = [].

(** Nothing is left to deliver. *)
Definition quiescent (s : state) : Prop :=
  event_queue s = [] ∧ broadcast_task s = AwaitGet
  ∧ ∀ c, c ∈ clients s → queue_of c s = [].

(** *** Sample schedules *)

Definition sample_event (n : Z) : event :=
  {| sender := JStr "alice"; text := JInt n; raw := JNull |}.

(** Event [n] is ingested and fanned out to queues 1 and 0, in the order
    the set is read in; subscriber 1 reads it. *)
Definition round (n : Z) : list label :=
  [Ingest (sample_event n); Dequeue; Acquire [1; 0]; Put 1; Put 0; Release; Consume 1].

(** Two subscribers; subscriber 0 reads the first event and then stalls at
    its [yield] while ten more events arrive; an eleventh (event 11) is
    taken off the central queue and the fan-out pass begins. *)
Definition stalled_trace : list label :=
  [Subscribe 0; Subscribe 1] ++ round 0 ++ [Consume 0]
  ++ concat (map round [1; 2; 3; 4; 5; 6; 7; 8; 9; 10]%Z)
  ++ [Ingest (sample_event 11); Dequeue; Acquire [1; 0]].

Definition stalled : state := default initial (run initial stalled_trace).

(** The same, one step on: subscriber 1 has been given event 11 and the
    broadcaster is inside [put] on the full queue 0. *)
Definition blocked : state := default initial (run initial (stalled_trace ++ [Put 1])).

(** The same again, and then the client of subscriber 0 goes away: the
    response closes the generator, which enters its [finally] block. *)
Definition departed : state :=
  default initial (run initial (stalled_trace ++ [Put 1; Exit 0 Disconnected])).

Definition two_subscribers : list label := [Subscribe 0; Subscribe 1].

Definition one_round : list label :=
  [Ingest (sample_event 1); Dequeue; Acquire [1; 0]; Put 1; Put 0; Release;
   Consume 0; Consume 1].

Definition subscribed : state := default initial (run initial two_subscribers).

End Broadcast.

(** ** core/session.py: the one-shot wrapper and the listings *)

Module Session.
Import Py Registry.

(** [class MCP]: one stdio server, a fresh subprocess for every call. *)
Record MCP : Type := {
  server_script : string;
  working_dir : string;
  server_command : string;
}.

(** [MCP(server_script, working_dir, server_command)]; [None] is an argument
    left out. An empty string falls back like [None], the two defaults being
    written with [or]. *)
Definition MCP_new
    (env : environment) (server_script working_dir server_command : option string)
    : MCP :=
  {| server_script := default "mcp_server_2.py" server_script;
     working_dir := if nonempty working_dir then default "" working_dir
                    else os_getcwd env;
     server_command := if nonempty server_command then default "" server_command
                       else sys_executable env |}.

Definition MCP_params (self : MCP) : StdioServerParameters :=
  {| command := server_command self;
     args := [server_script self];
     cwd := working_dir self |}.

(** [MCP.call_tool]: whatever the session returns or raises goes to the
    caller. *)
Definition MCP_call_tool
    (env : environment) (self : MCP) (tool_name : string) (arguments : json)
    : list io_event * result pyobj :=
  ([SpawnStdio (MCP_params self) tool_name arguments],
   stdio_session env (MCP_params self) tool_name arguments).

(** [tool.name], of a listed MCP tool or of the namespace of an HTTP tool. *)
Definition tool_obj_name (tool : tool_obj) : string :=
  match tool with
  | McpTool tool => tool_name tool
  | Namespace name _ _ => name
  end.

(** [MultiMCP.list_all_tools] and [MultiMCP.get_all_tools]: the keys, and the
    ["tool"] slots of the values, of [tool_map]. Both go through the
    dictionary in the same order; which order is not modelled. *)
Definition list_all_tools (self : MultiMCP) : list string :=
  (map_to_list (tool_map self)).*1.

Definition get_all_tools (self : MultiMCP) : list tool_obj :=
  e_tool <$> (map_to_list (tool_map self)).*2.

(** What registration puts into the entry of a stdio tool and of an HTTP
    tool, and into an entry filed under [n]. *)
Definition entry_of_stdio (e : entry) : Prop :=
  e_transport e = "stdio" ∧ is_Some (cfg_script (e_config e))
  ∧ e_endpoint e = None ∧ e_method e = None.

Definition entry_of_http (e : entry) : Prop :=
  e_transport e = "http" ∧ cfg_script (e_config e) = None
  ∧ is_Some (cfg_host (e_config e))
  ∧ (∃ endpoint, e_endpoint e = Some endpoint ∧ endpoint ≠ "")
  ∧ (∃ method, e_method e = Some method ∧ upper method = method).

Definition registered_entry (n : string) (e : entry) : Prop :=
  tool_obj_name (e_tool e) = n
  ∧ cfg_transport (e_config e) = Some (e_transport e)
  ∧ (entry_of_stdio e ∨ entry_of_http e).

(** Every entry of the registry is one that registration makes. *)
Definition registry_ok (self : MultiMCP) : Prop :=
  ∀ n e, tool_map self !! n = Some e → registered_entry n e.

(** [initialize] called once for each element of [runs], in order. *)
Definition initialize_all (runs : list (nat → discovery)) (self : MultiMCP) : MultiMCP :=
  foldl (λ self discover, initialize discover self) self runs.

(** *** Sample data *)

(** An HTTP backend whose [host] key is there and empty. *)
Definition hostless_backend : backend_config :=
  {| cfg_script := None; cfg_cwd := None; cfg_host := Some "";
     cfg_name := Some "calculator"; cfg_description := None;
     cfg_tools := Some [add_def]; cfg_transport := None |}.

(** The sample HTTP backend with its host written without the slash at
    the end. *)
Definition slashless_backend : backend_config :=
  {| cfg_script := None; cfg_cwd := None; cfg_host := Some "http://127.0.0.1:8000";
     cfg_name := Some "calculator"; cfg_description := Some "Arithmetic";
     cfg_tools := Some [add_def]; cfg_transport := None |}.

(** The same with an endpoint that does not begin with a slash, so that
    host and endpoint join to [http://127.0.0.1:8000add], and a world
    whose HTTP client refuses every URL as [httpx] refuses this one. *)
Definition joined_backend : backend_config :=
  {| cfg_script := None; cfg_cwd := None; cfg_host := Some "http://127.0.0.1:8000";
     cfg_name := Some "calculator"; cfg_description := Some "Arithmetic";
     cfg_tools :=
       Some [{| td_name := Some "add"; td_endpoint := Some "add";
                td_method := Some "get"; td_description := None;
                td_parameters := None |}];
     cfg_transport := None |}.

Definition refusing_env : environment :=
  {| sys_executable := "python"; os_getcwd := "/srv";
     stdio_session := λ _ _ _, Ok (CallToolResult [TextContent "4"]);
     http_send := λ _, OtherError "httpx.InvalidURL" |}.

End Session.

(** ** mcp_server_telegram_sse.py: what an extraction is made of *)

Module Extraction.
Import Py Webhook.

(** The part of an extraction that the subscribers are sent and the log
    shows: the sender and the text, without the raw update. *)
Definition sender_and_text (r : result (option event)) : result (option (json * json)) :=
  extracted ←! r;
  Ok ((λ e, (sender e, text e)) <$> extracted).

(** *** Sample data *)

(** [{"text": "hi", "from": {"username": "alice"}}] and
    [{"text": "hi again", "from": {"username": "alice"}}] *)
Definition sample_message : json :=
  JDict {[ "text" := JStr "hi"; "from" := JDict {[ "username" := JStr "alice" ]} ]}.

Definition sample_edit : json :=
  JDict {[ "text" := JStr "hi again";
           "from" := JDict {[ "username" := JStr "alice" ]} ]}.

End Extraction.

(** ** mcp_server_telegram_sse.py: more sample schedules *)

Module Schedules.
Import Py Broadcast.

(** An event goes by with nobody listening; then subscriber 0 joins and a
    second event is fanned out to it and read. *)
Definition unheard : list label :=
  [Ingest (sample_event 1); Dequeue; Acquire []; Release].

Definition heard : list label :=
  [Ingest (sample_event 2); Dequeue; Acquire [0]; Put 0; Release; Consume 0].

(** Subscriber 0 has left its stream and waits for the discard. *)
Definition leaving : state :=
  default initial (run initial [Subscribe 0; Exit 0 Disconnected]).

End Schedules.

(** ** mcp_server_telegram_sse.py: a subscriber's stream that is cancelled twice

    The streaming response runs [event_generator] inside a cancel scope.
    When the scope is cancelled it stays cancelled: every later wait of the
    generator is interrupted as well. The [finally] block waits once, for
    [clients_lock]; when it has to wait there and the scope is cancelled,
    [CancelledError] is raised again, inside [finally], and the generator
    ends without having discarded its queue. The moves below are the steps
    of the server and this one more. Which generators are in a cancelled
    scope is not tracked: any generator in its [finally] block may be
    abandoned, which covers the schedules of the server and more. *)

Module Cancellation.
Import Py Broadcast.

Inductive move : Type :=
  | Step (l : label)
      (** a step of the server *)
  | Abandon (c : nat).
      (** [event_generator]: the wait for the lock in [finally] is cancelled *)

Definition step_or_abandon (s : state) (m : move) : option state :=
  match m with
  | Step l => step s l
  | Abandon c =>
      sub ← subscribers s !! c;
      match gen sub with
      | Finalizing =>
          Some (set_subscriber c
                  {| queue := queue sub; gen := Closed; stream := stream sub |} s)
      | _ => None
      end
  end.

Fixpoint run_moves (s : state) (moves : list move) : option state :=
  match moves with
  | [] => Some s
  | m :: rest =>
      match step_or_abandon s m with
      | Some s' => run_moves s' rest
      | None => None
      end
  end.

End Cancellation.

(** ** agent.py: waiting for the next query *)

Module Agent.
Import Py Webhook.

(** [s.startswith(prefix)] *)
Definition startswith (s prefix : string) : bool := String.prefix prefix s.

(** [s.replace(old, new)] for a non-empty [old]: every occurrence of [old],
    found from the left and not overlapping an earlier one, becomes [new].
    [skip] counts the characters of an occurrence still to pass over. *)
Fixpoint replace_from (old new : string) (skip : nat) (s : string) : string :=
  match s with
  | EmptyString => EmptyString
  | String c rest =>
      match skip with
      | S skip' => replace_from old new skip' rest
      | O =>
          if String.prefix old s
          then new +:+ replace_from old new (String.length old - 1) rest
          else String c (replace_from old new 0 rest)
      end
  end.

Definition replace (s old new : string) : string := replace_from old new 0 s.

(** The characters that [str.strip()] removes, as the bytes of their UTF-8
    encoding: the ASCII controls 9 to 13 and 28 to 31, the space, U+0085,
    U+00A0, U+1680, U+2000 to U+200A, U+2028, U+2029, U+202F, U+205F and
    U+3000. *)
Definition whitespace : list (list ascii) :=
  map (map ascii_of_nat)
    [[9]; [10]; [11]; [12]; [13]; [28]; [29]; [30]; [31]; [32];
     [194; 133]; [194; 160]; [225; 154; 128];
     [226; 128; 128]; [226; 128; 129]; [226; 128; 130]; [226; 128; 131];
     [226; 128; 132]; [226; 128; 133]; [226; 128; 134]; [226; 128; 135];
     [226; 128; 136]; [226; 128; 137]; [226; 128; 138];
     [226; 128; 168]; [226; 128; 169]; [226; 128; 175]; [226; 129; 159];
     [227; 128; 128]]%nat.

(** What is left of [s] after the bytes [w] at its head, if they are there. *)
Fixpoint after (w s : list ascii) : option (list ascii) :=
  match w, s with
  | [], _ => Some s
  | a :: w', b :: s' => if Ascii.eqb a b then after w' s' else None
  | _ :: _, [] => None
  end.

(** What is left of [s] after one of [seqs] at its head. *)
Fixpoint after_one (seqs : list (list ascii)) (s : list ascii) : option (list ascii) :=
  match seqs with
  | [] => None
  | w :: seqs' =>
      match after w s with
      | Some s' => Some s'
      | None => after_one seqs' s
      end
  end.

Fixpoint lstrip_with (seqs : list (list ascii)) (fuel : nat) (s : list ascii)
    : list ascii :=
  match fuel with
  | O => s
  | S fuel' =>
      match after_one seqs s with
      | Some s' => lstrip_with seqs fuel' s'
      | None => s
      end
  end.

Definition lstrip_space (s : list ascii) : list ascii :=
  lstrip_with whitespace (length s) s.

Definition rstrip_space (s : list ascii) : list ascii :=
  rev (lstrip_with (map (@rev ascii) whitespace) (length s) (rev s)).

(** [s.strip()] *)
Definition strip (s : string) : string :=
  String.string_of_list_ascii
    (rstrip_space (lstrip_space (String.list_ascii_of_string s))).

(** [v.strip()] on a value: only a string has the method. *)
Definition strip_value (v : json) : result string :=
  match v with
  | JStr s => Ok (strip s)
  | _ => Raise AttributeError
  end.

(** [get_telegram_query], given the lines that the stream yields before it
    ends and what [json.loads] makes of a string ([None] for
    [JSONDecodeError]). [Ok None] is the end of the function reached without
    a [return]. *)
Fixpoint get_telegram_query
    (loads : string → option json) (lines : list string) : result (option string) :=
  match lines with
  | [] => Ok None
  | line :: rest =>
      if String.eqb line "" then get_telegram_query loads rest
      else if startswith line "data:" then
        match loads (strip (replace line "data:" "")) with
        | None => get_telegram_query loads rest
        | Some data =>
            q ←! get_default data "query" (JStr "");
            query ←! strip_value q;
            if negb (String.eqb query "") then Ok (Some query)
            else get_telegram_query loads rest
        end
      else get_telegram_query loads rest
  end.

(** The frame that [event_generator] yields for a message, [dumps] being
    [json.dumps]. *)
Definition sse_frame (dumps : json → string) (message : event) : string :=
  "data: " +:+ dumps (JDict {[ "query" := text message ]})
  +:+ String (ascii_of_nat 10) (String (ascii_of_nat 10) "").

(** The two lines that the frame makes on the other side, the payload of
    [json.dumps] having no line break in it: the data line and the empty
    line that ends the frame. *)
Definition frame_lines (dumps : json → string) (message : event) : list string :=
  ["data: " +:+ dumps (JDict {[ "query" := text message ]}); ""].

(** *** Notions the statements use *)

(** A line that [get_telegram_query] passes over: an empty line, a line
    that is no data line, a data line that does not decode, or one whose
    query is missing or blank. *)
Definition passed_over (loads : string → option json) (line : string) : Prop :=
  line = ""
  ∨ startswith line "data:" = false
  ∨ loads (strip (replace line "data:" "")) = None
  ∨ ∃ data q, loads (strip (replace line "data:" "")) = Some data
      ∧ get_default data "query" (JStr "") = Ok (JStr q) ∧ strip q = "".

(** A data line that carries the query [query]. *)
Definition carries (loads : string → option json) (line query : string) : Prop :=
  line ≠ "" ∧ startswith line "data:" = true
  ∧ ∃ data q, loads (strip (replace line "data:" "")) = Some data
      ∧ get_default data "query" (JStr "") = Ok (JStr q)
      ∧ strip q = query ∧ query ≠ "".

(** A data line that decodes to something [get_telegram_query] cannot
    handle: a value that is no object, or a query that is no string. *)
Definition breaks (loads : string → option json) (line : string) : Prop :=
  line ≠ "" ∧ startswith line "data:" = true
  ∧ ∃ data, loads (strip (replace line "data:" "")) = Some data
      ∧ (get_default data "query" (JStr "") = Raise AttributeError
         ∨ ∃ q, get_default data "query" (JStr "") = Ok q
             ∧ strip_value q = Raise AttributeError).

(** *** Sample data *)

Definition quoted (s : string) : string :=
  String (ascii_of_nat 34) s +:+ String (ascii_of_nat 34) "".

(** The text of the object with the one key [query] and the value text [v]. *)
Definition sample_object (v : string) : string :=
  "{" +:+ quoted "query" +:+ ": " +:+ v +:+ "}".

(** A decoder and an encoder that know three payloads. *)
Definition sample_loads (s : string) : option json :=
  if String.eqb s (sample_object (quoted "  what is 2+2?  "))
  then Some (JDict {[ "query" := JStr "  what is 2+2?  " ]})
  else if String.eqb s (sample_object (quoted " x"))
  then Some (JDict {[ "query" := JStr " x" ]})
  else if String.eqb s (sample_object "7")
  then Some (JDict {[ "query" := JInt 7 ]})
  else None.

Definition sample_dumps (v : json) : string :=
  match v with
  | JDict d =>
      match d !! "query" with
      | Some (JStr s) => sample_object (quoted s)
      | Some (JInt n) => sample_object (pretty n)
      | _ => "null"
      end
  | _ => "null"
  end.

Definition question : event :=
  {| sender := JStr "alice"; text := JStr "  what is 2+2?  "; raw := JNull |}.

Definition number : event :=
  {| sender := JStr "alice"; text := JInt 7; raw := JNull |}.

Definition prefixed : event :=
  {| sender := JStr "alice"; text := JStr "data: x"; raw := JNull |}.

End Agent.

(** ** mcp_server_gsheet.py and mcp_server_gmail.py: the Google bridges *)

Module Google.
Import Py Webhook.

(** [obj[key]] on a decoded JSON value. *)
Definition subscript (v : json) (key : string) : result json :=
  match v with
  | JDict d =>
      match d !! key with
      | Some x => Ok x
      | None => Raise (KeyError key)
      end
  | _ => Raise (OtherException "TypeError")
  end.

(** *** [urllib.parse.quote] *)

Definition in_string (c : ascii) (s : string) : bool :=
  bool_decide (c ∈ String.list_ascii_of_string s).

(** The characters that are never quoted: letters, digits and [_.-~]. *)
Definition always_safe (c : ascii) : bool :=
  let n := nat_of_ascii c in
  ((65 <=? n) && (n <=? 90)) || ((97 <=? n) && (n <=? 122))
  || ((48 <=? n) && (n <=? 57)) || in_string c "_.-~".

Definition hex_digit (n : nat) : ascii :=
  default "0"%char (String.list_ascii_of_string "0123456789ABCDEF" !! n).

(** [%XX] *)
Definition percent (c : ascii) : string :=
  let n := nat_of_ascii c in
  String "%" (String (hex_digit (n / 16)) (String (hex_digit (n mod 16)) "")).

(** [quote] on the bytes of the UTF-8 encoding of a string. *)
Fixpoint quote_bytes (safe s : string) : string :=
  match s with
  | EmptyString => EmptyString
  | String c rest =>
      (if always_safe c || in_string c safe then String c "" else percent c)
      +:+ quote_bytes safe rest
  end.

(** [quote(v, safe=safe)]: a value that is no string is refused. *)
Definition quote (v : json) (safe : string) : result string :=
  match v with
  | JStr s => Ok (quote_bytes safe s)
  | _ => Raise (OtherException "TypeError")
  end.

(** The characters that [quote] with the [safe] of the Sheets module can
    put out: the ones it leaves alone, and the percent sign of an escape. *)
Definition range_safe : string := "!$'()*+,-./@_~".

Definition url_char (c : ascii) : bool :=
  always_safe c || in_string c range_safe || Ascii.eqb c "%".

(** *** The HTTP client *)

(** [client.post] and [client.put] *)
Inductive verb : Type := post | put.

Inductive payload : Type :=
  | Form (data : list (string * json))
  | Json (body : json).

Record api_request : Type := {
  ar_verb : verb;
  ar_url : string;
  ar_params : list (string * string);
  ar_headers : list (string * string);
  ar_payload : payload;
}.

(** A response: its status, its body, and the value that the body decodes
    to if it is JSON. *)
Record api_reply : Type := {
  rp_status_code : Z;
  rp_text : string;
  rp_json : option json;
}.

(** [response.json()] *)
Definition json_of (response : api_reply) : result json :=
  match rp_json response with
  | Some v => Ok v
  | None => Raise JSONDecodeError
  end.

(** What a request comes to: a response, an [httpx.RequestError], or any
    other exception of the client. *)
Inductive api_outcome : Type :=
  | Reply (r : api_reply)
  | RequestError
  | ClientError.

(** The world outside the two servers: the credentials in the environment,
    the other end of the HTTP client, and the serialisation of an email
    ([EmailMessage] filled in, turned to bytes and base64-encoded; [None]
    when the email library refuses a value). *)
Record world : Type := {
  GOOGLE_CLIENT_ID : option string;
  GOOGLE_CLIENT_SECRET : option string;
  GOOGLE_REFRESH_TOKEN : option string;
  send : api_request → api_outcome;
  raw_message : json → json → json → option string;
}.

(** A computation that sends requests: the requests sent, in order, and the
    value returned or the exception raised. *)
Definition io (A : Type) : Type := list api_request * result A.

Definition io_bind {A B} (m : io A) (k : A → io B) : io B :=
  match m.2 with
  | Ok a => (m.1 ++ (k a).1, (k a).2)
  | Raise e => (m.1, Raise e)
  end.

Notation "x ←io m ; k" := (io_bind m (λ x, k))
  (at level 20, m at level 100, k at level 200, right associativity,
   format "x  ←io  m ;  '/' k").

Definition lift {A} (r : result A) : io A := ([], r).

Definition SHEETS_BASE_URL : string := "https://sheets.googleapis.com/v4/spreadsheets".
Definition GMAIL_SEND_URL : string :=
  "https://gmail.googleapis.com/gmail/v1/users/me/messages/send".

Definition env_value (o : option string) : json :=
  match o with Some s => JStr s | None => JNull end.

Section Servers.

Variable repr : json → string.
Variable w : world.

Definition request (rq : api_request) : io api_outcome := ([rq], Ok (send w rq)).

Definition token_request : api_request :=
  {| ar_verb := post;
     ar_url := "https://oauth2.googleapis.com/token";
     ar_params := [];
     ar_headers := [];
     ar_payload :=
       Form [("client_id", env_value (GOOGLE_CLIENT_ID w));
             ("client_secret", env_value (GOOGLE_CLIENT_SECRET w));
             ("refresh_token", env_value (GOOGLE_REFRESH_TOKEN w));
             ("grant_type", JStr "refresh_token")] |}.

(** [get_access_token], the same in the two modules. An exception of the
    client is not caught. *)
Definition get_access_token : io json :=
  out ←io request token_request;
  match out with
  | Reply resp =>
      if negb (rp_status_code resp =? 200)%Z
      then lift (Raise (HTTPException 401 ("Google OAuth error: " +:+ rp_text resp)))
      else lift (body ←! json_of resp; subscript body "access_token")
  | RequestError => lift (Raise (OtherException "httpx.RequestError"))
  | ClientError => lift (Raise (OtherException "Exception"))
  end.

(** [build_headers] of the Sheets module. *)
Definition build_headers : io (list (string * string)) :=
  access_token ←io get_access_token;
  lift (Ok [("Content-Type", "application/json");
            ("Authorization", "Bearer " +:+ str repr access_token)]).

Definition create_request (headers : list (string * string)) (title : json)
    : api_request :=
  {| ar_verb := post;
     ar_url := SHEETS_BASE_URL;
     ar_params := [];
     ar_headers := headers;
     ar_payload := Json (JDict {[ "properties" := JDict {[ "title" := title ]} ]}) |}.

(** [create_google_sheet]: whatever goes wrong with the request, a status
    outside 2xx included, becomes a 500. *)
Definition create_google_sheet (title : json) : io json :=
  headers ←io build_headers;
  out ←io request (create_request headers title);
  match out with
  | Reply response =>
      if Registry.is_success (rp_status_code response)
      then lift (result ←! json_of response;
                 spreadsheetId ←! subscript result "spreadsheetId";
                 spreadsheetUrl ←! subscript result "spreadsheetUrl";
                 Ok (JDict {[ "spreadsheetId" := spreadsheetId;
                              "spreadsheetUrl" := spreadsheetUrl ]}))
      else lift (Raise (HTTPException 500 "Failed to create Google Sheet"))
  | RequestError | ClientError =>
      lift (Raise (HTTPException 500 "Failed to create Google Sheet"))
  end.

(** [@app.post("/create_sheet")]; [request_json] is what
    [await request.json()] comes to. *)
Definition create_sheet_endpoint (request_json : result json) : io response :=
  data ←io lift request_json;
  title ←io lift (get data "title");
  if negb (truthy title)
  then lift (Raise (HTTPException 400 "Missing 'title'"))
  else
    result ←io create_google_sheet title;
    lift (sheetId ←! subscript result "spreadsheetId";
          link ←! subscript result "spreadsheetUrl";
          Ok (JSONResponse (JDict {[ "ok" := JBool true; "sheetId" := sheetId;
                                     "link" := link ]}))).

Definition write_request
    (headers : list (string * string)) (sheet_id : json) (encoded_range : string)
    (values : json) : api_request :=
  {| ar_verb := put;
     ar_url := SHEETS_BASE_URL +:+ "/" +:+ str repr sheet_id +:+ "/values/"
               +:+ encoded_range;
     ar_params := [("valueInputOption", "RAW")];
     ar_headers := headers;
     ar_payload := Json (JDict {[ "majorDimension" := JStr "ROWS";
                                  "values" := values ]}) |}.

(** [write_to_google_sheet]. The [HTTPException] raised inside the [try]
    block for a status other than 200 is an [Exception] and no
    [httpx.RequestError], so the last handler catches it; the text of the
    cause, which the handlers append to their detail, is left out. *)
Definition write_to_google_sheet (sheet_id range_ values : json) : io json :=
  headers ←io build_headers;
  encoded_range ←io lift (quote range_ range_safe);
  out ←io request (write_request headers sheet_id encoded_range values);
  match out with
  | Reply response =>
      if negb (rp_status_code response =? 200)%Z
      then lift (Raise (HTTPException 500 "Internal error"))
      else
        match rp_json response with
        | Some result => lift (Ok result)
        | None => lift (Raise (HTTPException 500 "Internal error"))
        end
  | RequestError => lift (Raise (HTTPException 500 "Network error"))
  | ClientError => lift (Raise (HTTPException 500 "Internal error"))
  end.

(** [all([a, b, c])] *)
Definition all3 (a b c : json) : bool := truthy a && truthy b && truthy c.

(** [@app.post("/write_data")] *)
Definition write_data_endpoint (request_json : result json) : io response :=
  data ←io lift request_json;
  sheet_id ←io lift (get data "sheetId");
  range_ ←io lift (get data "range");
  values ←io lift (get data "values");
  if negb (all3 sheet_id range_ values)
  then lift (Raise (HTTPException 400 "Missing one or more required fields"))
  else
    result ←io write_to_google_sheet sheet_id range_ values;
    lift (updatedRange ←! get_default result "updatedRange" (JStr "");
          Ok (JSONResponse (JDict {[ "ok" := JBool true;
                                     "updatedRange" := updatedRange ]}))).

Definition gmail_request (access_token : json) (raw : string) : api_request :=
  {| ar_verb := post;
     ar_url := GMAIL_SEND_URL;
     ar_params := [];
     ar_headers := [("Authorization", "Bearer " +:+ str repr access_token);
                    ("Content-Type", "application/json")];
     ar_payload := Json (JDict {[ "raw" := JStr raw ]}) |}.

(** [send_email_via_gmail]: the two [httpx] errors become a 500, any other
    exception of the client is not caught, and the body is decoded outside
    the [try] block. *)
Definition send_email_via_gmail (to subject body : json) : io json :=
  access_token ←io get_access_token;
  raw ←io lift (match raw_message w to subject body with
                | Some raw => Ok raw
                | None => Raise (OtherException "Exception")
                end);
  out ←io request (gmail_request access_token raw);
  match out with
  | Reply response =>
      if Registry.is_success (rp_status_code response)
      then lift (json_of response)
      else lift (Raise (HTTPException 500 ("Gmail API error: " +:+ rp_text response)))
  | RequestError =>
      lift (Raise (HTTPException 500 "Network error contacting Gmail API"))
  | ClientError => lift (Raise (OtherException "Exception"))
  end.

(** [@app.post("/send_email")] *)
Definition send_email_endpoint (request_json : result json) : io response :=
  data ←io lift request_json;
  to ←io lift (get data "to");
  subject ←io lift (get data "subject");
  body ←io lift (get data "body");
  if negb (all3 to subject body)
  then lift (Raise (HTTPException 400
                      "Fields 'to', 'subject', and 'body' are required."))
  else
    result ←io send_email_via_gmail to subject body;
    lift (message_id ←! get_default result "id" (JStr "unknown");
          Ok (JSONResponse (JDict {[ "ok" := JBool true; "id" := message_id ]}))).

(** *** Notions the statements use *)

(** A request that bears the token of a token exchange that worked. *)
Definition bears_fresh_token (rq : api_request) : Prop :=
  ∃ resp access_token,
    send w token_request = Reply resp
    ∧ rp_status_code resp = 200%Z
    ∧ (body ←! json_of resp; subscript body "access_token") = Ok access_token
    ∧ ("Authorization", "Bearer " +:+ str repr access_token) ∈ ar_headers rq.

(** The other end answered [rq] with a status that [ok] lets through and a
    body that is JSON. *)
Definition answered (ok : Z → bool) (rq : api_request) : Prop :=
  ∃ resp, send w rq = Reply resp ∧ ok (rp_status_code resp) = true
    ∧ is_Some (rp_json resp).

(** What a call of one of the three service functions comes to: the token
    exchange alone and no result, or the token exchange and one request to
    the API [url] that bears the token, a result meaning that the API
    accepted it. *)
Definition one_api_call {A}
    (ok : Z → bool) (verb : verb) (url_ok : string → Prop) (m : io A) : Prop :=
  (m.1 = [token_request] ∧ ∀ a, m.2 ≠ Ok a)
  ∨ ∃ rq,
      m.1 = [token_request; rq]
      ∧ ar_verb rq = verb ∧ url_ok (ar_url rq)
      ∧ bears_fresh_token rq
      ∧ ∀ a, m.2 = Ok a → answered ok rq.

(** The same for an endpoint, which may also refuse the body before
    anything is sent. *)
Definition guarded_api_call
    (ok : Z → bool) (verb : verb) (url_ok : string → Prop) (m : io response) : Prop :=
  (m.1 = [] ∧ ∀ a, m.2 ≠ Ok a)
  ∨ (one_api_call ok verb url_ok m ∧ ∀ a, m.2 = Ok a → status_code a = 200%Z).

(** A body that is an object in which one of the fields [keys] is missing
    or false. *)
Definition lacks (keys : list string) (data : json) : Prop :=
  ∃ d key, data = JDict d ∧ key ∈ keys ∧ truthy (default JNull (d !! key)) = false.

End Servers.

(** A result that is no [HTTPException]. *)
Definition plain {A} (r : result A) : Prop :=
  ∀ code detail, r ≠ Raise (HTTPException code detail).

(** The status codes that the exceptions of [m] carry are among [cs]. *)
Definition raises_within {A} (cs : list Z) (m : io A) : Prop :=
  ∀ code detail, m.2 = Raise (HTTPException code detail) → code ∈ cs.

(** The codes of the exceptions that the endpoints raise themselves. *)
Definition endpoint_codes : list Z := [400; 401; 500]%Z.

(** *** Sample data *)

(** A world in which the token exchange and every [post] are answered with
    200 and a body that has what the callers look for, and every [put] with
    the status [put_status] and a body that is no JSON. *)
Definition sample_world (put_status : Z) : world :=
  {| GOOGLE_CLIENT_ID := Some "client";
     GOOGLE_CLIENT_SECRET := Some "secret";
     GOOGLE_REFRESH_TOKEN := None;
     send := λ rq,
       match ar_verb rq with
       | post =>
           Reply {| rp_status_code := 200; rp_text := "{...}";
                    rp_json := Some (JDict {[ "access_token" := JStr "t0k";
                                              "spreadsheetId" := JStr "s1";
                                              "spreadsheetUrl" := JStr "https://s1" ]}) |}
       | put =>
           Reply {| rp_status_code := put_status; rp_text := "denied";
                    rp_json := None |}
       end;
     raw_message := λ _ _ _, Some "cmF3" |}.

Definition sample_headers : list (string * string) :=
  [("Content-Type", "application/json"); ("Authorization", "Bearer t0k")].

Definition sample_values : json := JList [JList [JStr "a"; JStr "b"]].

(** [{"sheetId": "s1", "range": "Sheet1!A1:B2", "values": [["a", "b"]]}] *)
Definition sample_write : json :=
  JDict {[ "sheetId" := JStr "s1"; "range" := JStr "Sheet1!A1:B2";
           "values" := sample_values ]}.

End Google.

(** * Facts

    ** The registry *)

Section RegistryFacts.
Import Py Registry.

Lemma overlays_id : overlays (λ m, m).
Proof. intros m n. by rewrite lookup_empty. Qed.

Lemma overlays_insert k e : overlays (λ m, <[k := e]> m).
Proof.
  intros m n. destruct (decide (k = n)) as [->|Hne].
  - by rewrite !lookup_insert_eq.
  - rewrite !lookup_insert_ne by done. by rewrite lookup_empty.
Qed.

Lemma overlays_compose f g : overlays f → overlays g → overlays (λ m, g (f m)).
Proof.
  intros Hf Hg m n. rewrite (Hg (f m)), (Hg (f ∅)), (Hf m).
  by destruct (g ∅ !! n), (f ∅ !! n).
Qed.

Lemma overlays_foldl {A} (f : gmap string entry → A → gmap string entry) l :
  (∀ x, overlays (λ m, f m x)) → overlays (λ m, foldl f m l).
Proof.
  intros Hf. induction l as [|x l IH]; simpl.
  - apply overlays_id.
  - apply (overlays_compose (λ m, f m x) (λ m, foldl f m l)); auto.
Qed.

Lemma overlays_register_http_tool config tool_def :
  overlays (λ m, register_http_tool config m tool_def).
Proof.
  unfold register_http_tool.
  destruct (td_name tool_def) as [name|], (td_endpoint tool_def) as [endpoint|];
    try apply overlays_id.
  destruct (negb (name =? "")%string && negb (endpoint =? "")%string).
  - apply overlays_insert.
  - apply overlays_id.
Qed.

Lemma overlays_register_backend d config : overlays (register_backend d config).
Proof.
  unfold register_backend.
  destruct (has_key (cfg_script config)).
  - destruct d; simpl; try apply overlays_id.
    apply (overlays_foldl (λ m tool, <[tool_name tool := stdio_entry config tool]> m)).
    intros tool. apply overlays_insert.
  - destruct (has_key (cfg_host config)); [|apply overlays_id].
    unfold _register_http_server.
    destruct (default [] (cfg_tools config)) as [|td tds] eqn:E; [apply overlays_id|].
    apply (overlays_foldl (register_http_tool config)).
    apply overlays_register_http_tool.
Qed.

Lemma overlays_initialize_from discover configs :
  ∀ i, overlays (initialize_from discover i configs).
Proof.
  induction configs as [|config rest IH]; intros i; simpl.
  - apply overlays_id.
  - apply (overlays_compose (register_backend (discover i) config)
             (initialize_from discover (S i) rest)).
    + apply overlays_register_backend.
    + apply IH.
Qed.

(** Names nobody files under are left as they were. *)
Lemma initialize_from_untouched discover n configs :
  ∀ i m,
    (∀ k c, configs !! k = Some c →
            register_backend (discover (i + k)) c ∅ !! n = None) →
    initialize_from discover i configs m !! n = m !! n.
Proof.
  induction configs as [|config rest IH]; intros i m Hnone; simpl; [done|].
  rewrite IH.
  - rewrite (overlays_register_backend _ _ m n).
    specialize (Hnone 0 config eq_refl). rewrite Nat.add_0_r in Hnone.
    by rewrite Hnone.
  - intros k c Hk. replace (S i + k) with (i + S k) by lia. by apply Hnone.
Qed.

Lemma initialize_from_last discover n eB configs :
  ∀ i m j B,
    configs !! j = Some B →
    register_backend (discover (i + j)) B ∅ !! n = Some eB →
    (∀ k c, j < k → configs !! k = Some c →
            register_backend (discover (i + k)) c ∅ !! n = None) →
    initialize_from discover i configs m !! n = Some eB.
Proof.
  induction configs as [|config rest IH]; intros i m j B Hj HB Hlater; [done|].
  destruct j as [|j]; simpl in *.
  - injection Hj as ->. rewrite Nat.add_0_r in HB.
    rewrite initialize_from_untouched.
    + rewrite (overlays_register_backend _ _ m n). by rewrite HB.
    + intros k c Hk. replace (S i + k) with (i + S k) by lia.
      apply Hlater; [lia|done].
  - apply (IH (S i) _ j B); [done| |].
    + by replace (S i + j) with (i + S j) by lia.
    + intros k c Hlt Hk. replace (S i + k) with (i + S k) by lia.
      apply Hlater; [lia|done].
Qed.

Lemma entries_under_lookup n e (m : gmap string entry) :
  m !! n = Some e → entries_under n m = [(n, e)].
Proof.
  intros Hn. unfold entries_under.
  apply Permutation_singleton_r.
  rewrite <- (insert_delete_id m n e Hn) at 1.
  rewrite map_to_list_insert by apply lookup_delete_eq.
  rewrite filter_cons_True by done.
  apply Permutation_skip.
  destruct (filter _ (map_to_list (delete n m))) as [|[k v] rest] eqn:E; [done|].
  assert ((k, v) ∈ filter (λ kv : string * entry, kv.1 = n) (map_to_list (delete n m)))
    as Hin by (rewrite E; left).
  apply list_elem_of_filter in Hin as [Hk Hin]. simpl in Hk. subst k.
  apply elem_of_map_to_list in Hin. by rewrite lookup_delete_eq in Hin.
Qed.

Lemma entries_under_None n (m : gmap string entry) :
  m !! n = None → entries_under n m = [].
Proof.
  intros Hn. unfold entries_under.
  destruct (filter _ (map_to_list m)) as [|[k v] rest] eqn:E; [done|].
  assert ((k, v) ∈ filter (λ kv : string * entry, kv.1 = n) (map_to_list m))
    as Hin by (rewrite E; left).
  apply list_elem_of_filter in Hin as [Hk Hin]. simpl in Hk. subst k.
  apply elem_of_map_to_list in Hin. congruence.
Qed.

(** An entry carries the configuration of the backend that filed it. *)
Lemma foldl_entries_from {A} (P : entry → Prop)
    (f : gmap string entry → A → gmap string entry) l :
  (∀ m x n e, f m x !! n = Some e → m !! n = Some e ∨ P e) →
  ∀ m n e, foldl f m l !! n = Some e → m !! n = Some e ∨ P e.
Proof.
  intros Hf. induction l as [|x l IH]; intros m n e; simpl; [by left|].
  intros H. apply IH in H as [H|H]; [|by right]. by apply Hf in H.
Qed.

Lemma register_backend_config d config m n e :
  register_backend d config m !! n = Some e →
  m !! n = Some e ∨ e_config e = with_transport config (e_transport e).
Proof.
  unfold register_backend.
  destruct (has_key (cfg_script config)).
  - destruct d; simpl; try by left.
    apply (foldl_entries_from
             (λ e, e_config e = with_transport config (e_transport e))).
    intros m' tool n' e'.
    destruct (decide (tool_name tool = n')) as [->|Hne].
    + rewrite lookup_insert_eq. intros [= <-]. by right.
    + rewrite lookup_insert_ne by done. by left.
  - destruct (has_key (cfg_host config)); [|by left].
    unfold _register_http_server.
    destruct (default [] (cfg_tools config)) as [|td tds] eqn:E; [by left|].
    apply (foldl_entries_from
             (λ e, e_config e = with_transport config (e_transport e))).
    intros m' tool_def n' e'.
    unfold register_http_tool.
    destruct (td_name tool_def) as [name|], (td_endpoint tool_def) as [endpoint|];
      try by left.
    destruct (negb (name =? "")%string && negb (endpoint =? "")%string); [|by left].
    destruct (decide (name = n')) as [->|Hne].
    + rewrite lookup_insert_eq. intros [= <-]. by right.
    + rewrite lookup_insert_ne by done. by left.
Qed.


(** Filing never removes a name. *)
Lemma overlays_is_Some f m n : overlays f → is_Some (m !! n) → is_Some (f m !! n).
Proof. intros Hf [e He]. rewrite (Hf m n), He. destruct (f ∅ !! n); eauto. Qed.

Lemma overlays_files f m n : overlays f → is_Some (f ∅ !! n) → is_Some (f m !! n).
Proof. intros Hf [e He]. rewrite (Hf m n), He. eauto. Qed.

Lemma foldl_files {A} (f : gmap string entry → A → gmap string entry) n l x :
  (∀ y, overlays (λ m, f m y)) →
  x ∈ l → (∀ m, is_Some (f m x !! n)) → ∀ m, is_Some (foldl f m l !! n).
Proof.
  intros Hf Hx Hn. induction l as [|y l IH]; intros m; [by apply elem_of_nil in Hx|].
  simpl. apply elem_of_cons in Hx as [->|Hx]; [|by apply IH].
  apply (overlays_is_Some (λ m, foldl f m l)); [by apply overlays_foldl|]. apply Hn.
Qed.

Lemma eqb_false_ne (s t : string) : s ≠ t → (s =? t)%string = false.
Proof. intros Hne. by apply String.eqb_neq. Qed.

Lemma offers_files d config n :
  offers d config n → is_Some (register_backend d config ∅ !! n).
Proof.
  unfold offers, register_backend.
  intros [(Hs & tools & tool & -> & Hin & <-)
         |(Hs & Hh & tool_def & endpoint & Hin & Hname & Hn & Hend & He)].
  - rewrite Hs. simpl.
    apply (foldl_files (λ m t, <[tool_name t := stdio_entry config t]> m) _ tools tool);
      [intros y; apply overlays_insert|done|].
    intros m. rewrite lookup_insert_eq. eauto.
  - rewrite Hs, Hh. simpl. unfold _register_http_server.
    destruct (default [] (cfg_tools config)) as [|td tds] eqn:E;
      [by apply elem_of_nil in Hin|].
    apply (foldl_files (register_http_tool config) _ (td :: tds) tool_def);
      [apply overlays_register_http_tool|done|].
    intros m. unfold register_http_tool. rewrite Hname, Hend.
    rewrite !eqb_false_ne by done. simpl. rewrite lookup_insert_eq. eauto.
Qed.

Lemma initialize_from_files discover n configs :
  ∀ i m k c,
    configs !! k = Some c →
    is_Some (register_backend (discover (i + k)) c ∅ !! n) →
    is_Some (initialize_from discover i configs m !! n).
Proof.
  induction configs as [|config rest IH]; intros i m k c Hk Hc; [done|].
  destruct k as [|k]; simpl in *.
  - injection Hk as ->. rewrite Nat.add_0_r in Hc.
    apply overlays_is_Some; [apply overlays_initialize_from|].
    by apply overlays_files; [apply overlays_register_backend|].
  - apply (IH (S i) _ k c); [done|].
    by replace (S i + k) with (i + S k) by lia.
Qed.

Lemma initialize_from_app discover pre post :
  ∀ i m,
    initialize_from discover i (pre ++ post) m
    = initialize_from discover (i + length pre) post (initialize_from discover i pre m).
Proof.
  induction pre as [|c pre IH]; intros i m; simpl.
  - by rewrite Nat.add_0_r.
  - rewrite IH. by replace (S i + length pre) with (i + S (length pre)) by lia.
Qed.

Lemma initialize_from_origin discover n configs :
  ∀ i m,
    initialize_from discover i configs m !! n = m !! n
    ∨ ∃ j c e',
        configs !! j = Some c
        ∧ register_backend (discover (i + j)) c ∅ !! n = Some e'
        ∧ initialize_from discover i configs m !! n = Some e'.
Proof.
  induction configs as [|config rest IH]; intros i m; simpl; [by left|].
  destruct (IH (S i) (register_backend (discover i) config m))
    as [Heq|(j & c & e' & Hj & Hc & He')].
  - rewrite Heq, (overlays_register_backend _ _ m n).
    destruct (register_backend (discover i) config ∅ !! n) as [e'|] eqn:E; [|by left].
    right. exists 0, config, e'. by rewrite Nat.add_0_r.
  - right. exists (S j), c, e'. split; [done|].
    by replace (i + S j) with (S i + j) by lia.
Qed.

(** C1: when two backends of the sequence processed by [initialize] each
    offer a tool called [n], the final map holds exactly one entry under
    [n], and it is the descriptor filed by the backend processed last among
    those that file under [n]: the later registration replaces the earlier
    one, in the order the configurations are processed. *)
Theorem last_registration_wins discover configs m0 i j A B n eB :
  configs !! i = Some A →
  configs !! j = Some B →
  i < j →
  offers (discover i) A n →
  register_backend (discover j) B ∅ !! n = Some eB →
  (∀ k c, j < k → configs !! k = Some c →
          register_backend (discover k) c ∅ !! n = None) →
  let final :=
    tool_map (initialize discover {| server_configs := configs; tool_map := m0 |}) in
  entries_under n final = [(n, eB)]
  ∧ final !! n = Some eB
  ∧ e_config eB = with_transport B (e_transport eB).
Proof.
  intros _ HB _ _ HeB Hlater final.
  assert (final !! n = Some eB) as Hfinal.
  { unfold final, initialize. simpl.
    by apply (initialize_from_last discover n eB configs 0 m0 j B). }
  split; [by apply entries_under_lookup|]. split; [done|].
  apply register_backend_config in HeB as [HeB|HeB]; [|done].
  by rewrite lookup_empty in HeB.
Qed.

(** C3: a stdio backend whose discovery fails (the subprocess cannot be
    started, or the session raises before the tool list arrives) leaves the
    map as it was and does not end [initialize]: every tool that any other
    backend of the sequence offers is registered when [initialize] is done. *)
Theorem discovery_failure_is_isolated discover configs m0 j bad i c n :
  configs !! j = Some bad →
  has_key (cfg_script bad) = true →
  discover j = SpawnFailed ∨ discover j = SessionFailed →
  configs !! i = Some c →
  i ≠ j →
  offers (discover i) c n →
  let self' := initialize discover {| server_configs := configs; tool_map := m0 |} in
  (∀ m, register_backend (discover j) bad m = m)
  ∧ n ∈ registered_names self'.
Proof.
  intros _ Hs Hfail Hi _ Hoffer self'. split.
  - intros m. unfold register_backend. rewrite Hs. by destruct Hfail as [-> | ->].
  - unfold registered_names, self', initialize. simpl. apply elem_of_dom.
    apply (initialize_from_files discover n configs 0 m0 i c); [done|].
    by apply offers_files.
Qed.

(** C10: a call of [initialize] on a registry that already holds entries
    does not clear the map: an entry that was there is still there
    afterwards unless a backend of the run files one under the same name,
    no name disappears, and the run inserts backend by backend: after a
    first stretch of the configurations the map is the old one with the
    entries of that stretch added, and the rest goes on from there. *)
Theorem initialize_keeps_earlier_entries discover self n e pre post :
  tool_map self !! n = Some e →
  server_configs self = pre ++ post →
  let self' := initialize discover self in
  (tool_map self' !! n = Some e
   ∨ ∃ j c e',
       server_configs self !! j = Some c
       ∧ register_backend (discover j) c ∅ !! n = Some e'
       ∧ tool_map self' !! n = Some e')
  ∧ registered_names self ⊆ registered_names self'
  ∧ tool_map self'
    = initialize_from discover (length pre) post
        (initialize_from discover 0 pre (tool_map self))
  ∧ dom (tool_map self) ⊆ dom (initialize_from discover 0 pre (tool_map self)).
Proof.
  intros Hn Hsplit self'. unfold self', initialize, registered_names. simpl.
  split; [|split; [|split]].
  - destruct (initialize_from_origin discover n (server_configs self) 0 (tool_map self))
      as [Heq|(j & c & e' & Hj & Hc & He')].
    + left. by rewrite Heq.
    + right. by exists j, c, e'.
  - intros k Hk. apply elem_of_dom. apply elem_of_dom in Hk.
    by apply overlays_is_Some; [apply overlays_initialize_from|].
  - rewrite Hsplit. apply (initialize_from_app discover pre post 0).
  - intros k Hk. apply elem_of_dom. apply elem_of_dom in Hk.
    by apply overlays_is_Some; [apply overlays_initialize_from|].
Qed.

(** A registry set up twice with the two sample backends. *)
Lemma last_registration_wins_witness :
  [stdio_backend; http_backend] !! 0 = Some stdio_backend
  ∧ [stdio_backend; http_backend] !! 1 = Some http_backend
  ∧ entries_under "add"
      (tool_map (initialize lists_add (new [stdio_backend; http_backend])))
    = [("add", http_entry http_backend add_def "add" "/add")].
Proof.
  split; [reflexivity|]. split; [reflexivity|].
  refine (proj1 (last_registration_wins lists_add [stdio_backend; http_backend] ∅
                   0 1 stdio_backend http_backend "add"
                   (http_entry http_backend add_def "add" "/add") _ _ _ _ _ _)).
  - reflexivity.
  - reflexivity.
  - lia.
  - left. split; [reflexivity|]. exists [add_tool], add_tool.
    split; [reflexivity|]. split; [left|reflexivity].
  - vm_compute. reflexivity.
  - intros k c Hk Hc. destruct k as [|[|k]]; [lia|lia|discriminate Hc].
Defined.

Lemma discovery_failure_is_isolated_witness :
  unreachable 0 = SpawnFailed
  ∧ "add" ∈ registered_names (initialize unreachable (new [stdio_backend; http_backend])).
Proof.
  split; [reflexivity|].
  refine (proj2 (discovery_failure_is_isolated unreachable [stdio_backend; http_backend] ∅
                   0 stdio_backend 1 http_backend "add" _ _ _ _ _ _)).
  - reflexivity.
  - reflexivity.
  - left. reflexivity.
  - reflexivity.
  - lia.
  - right. split; [reflexivity|]. split; [reflexivity|]. exists add_def, "/add".
    split; [left|]. split; [reflexivity|]. split; [discriminate|].
    split; [reflexivity|discriminate].
Defined.

(** Discovery succeeds the first time and fails the second: the entry of the
    first run is still there. *)
Lemma initialize_keeps_earlier_entries_witness :
  tool_map (initialize lists_add (new [stdio_backend])) !! "add"
  = Some (stdio_entry stdio_backend add_tool)
  ∧ registered_names (initialize lists_add (new [stdio_backend]))
    ⊆ registered_names
        (initialize unreachable (initialize lists_add (new [stdio_backend]))).
Proof.
  assert (tool_map (initialize lists_add (new [stdio_backend])) !! "add"
          = Some (stdio_entry stdio_backend add_tool)) as Hadd
    by (vm_compute; reflexivity).
  split; [exact Hadd|].
  exact (proj1 (proj2 (initialize_keeps_earlier_entries unreachable
                         (initialize lists_add (new [stdio_backend])) "add"
                         (stdio_entry stdio_backend add_tool) [] [stdio_backend]
                         Hadd eq_refl))).
Defined.

End RegistryFacts.

(** ** Calling a tool *)

Section CallFacts.
Import Py Registry.

Example upper_get : upper "get" = "GET".
Proof. reflexivity. Qed.

Example rstrip_slashes : rstrip "/" "http://host:8000//" = "http://host:8000".
Proof. reflexivity. Qed.

Example rstrip_inner_slash : rstrip "/" "http://host/api" = "http://host/api".
Proof. reflexivity. Qed.

Example unknown_tool :
  call_tool sample_env (new []) "add" (JDict ∅)
  = ([], Raise (ValueError "Tool 'add' not found on any server.")).
Proof. reflexivity. Qed.

Lemma upper_ascii_idemp c : upper_ascii (upper_ascii c) = upper_ascii c.
Proof. destruct c as [[] [] [] [] [] [] [] []]; reflexivity. Qed.

Lemma upper_idemp s : upper (upper s) = upper s.
Proof. induction s as [|c s IH]; simpl; [done|]. by rewrite upper_ascii_idemp, IH. Qed.

(** C7: a call of an HTTP tool with a host and an endpoint sends one
    request to the URL made of the host (trailing slashes dropped) and the
    endpoint: a GET with the arguments as query parameters exactly when the
    configured method is GET, and else a POST with the arguments as the
    JSON body. *)
Theorem http_call_request env self name arguments config tool_def name' host endpoint :
  tool_map self !! name = Some (http_entry config tool_def name' endpoint) →
  cfg_host config = Some host →
  host ≠ "" →
  endpoint ≠ "" →
  let url := rstrip "/"%char host +:+ endpoint in
  (configured_method tool_def = "GET" →
   (call_tool env self name arguments).1
   = [HttpRequest {| rq_method := GET; rq_url := url;
                     rq_params := Some arguments; rq_json := None |}])
  ∧ (configured_method tool_def ≠ "GET" →
     (call_tool env self name arguments).1
     = [HttpRequest {| rq_method := POST; rq_url := url;
                       rq_params := None; rq_json := Some arguments |}]).
Proof.
  intros Hentry Hhost Hh He url.
  assert (∀ b : bool,
    (configured_method tool_def =? "GET")%string = b →
    (call_tool env self name arguments).1
    = [HttpRequest
         (if b then {| rq_method := GET; rq_url := url;
                       rq_params := Some arguments; rq_json := None |}
          else {| rq_method := POST; rq_url := url;
                  rq_params := None; rq_json := Some arguments |})]) as Hcall.
  { intros b Hb. unfold call_tool. rewrite Hentry. simpl. rewrite Hhost.
    rewrite !eqb_false_ne by done. simpl.
    fold (configured_method tool_def). unfold configured_method at 1.
    rewrite upper_idemp. fold (configured_method tool_def). rewrite Hb.
    by destruct b. }
  split; intros Hm.
  - apply (Hcall true). by apply String.eqb_eq.
  - apply (Hcall false). by apply String.eqb_neq.
Qed.

(** The envelope sentence does not hold of the code: a stdio tool call
    returns what the MCP session returned, a result whose [content] is a
    list of blocks and not an object with a [text]. *)
Lemma stdio_result_is_not_an_envelope : ¬ uniform_envelope.
Proof.
  intros H.
  specialize (H sample_env (initialize lists_add (new [stdio_backend]))
                "add" (JDict ∅) (CallToolResult [TextContent "4"]) eq_refl).
  destruct H as [text H]. vm_compute in H. discriminate H.
Qed.

(** What a call that returns gives back, transport by transport. Over HTTP
    the value is the envelope [{ content: { text } }] made from the body of
    a 2xx response. Over stdio the value is the result of the MCP session
    as it came, with nothing done to its shape. *)
Lemma call_result_by_transport env self name arguments r :
  (call_tool env self name arguments).2 = Ok r →
  ∃ entry, tool_map self !! name = Some entry
    ∧ ((e_transport entry = "http"
        ∧ ∃ rq status_code text,
            (call_tool env self name arguments).1 = [HttpRequest rq]
            ∧ http_send env rq = Response status_code text
            ∧ is_success status_code = true
            ∧ r = SimpleNamespace [("content", SimpleNamespace [("text", PStr text)])]
            ∧ envelope_text r = Some text)
       ∨ (e_transport entry = "stdio"
          ∧ ∃ params,
              (call_tool env self name arguments).1 = [SpawnStdio params name arguments]
              ∧ stdio_session env params name arguments = Ok r)).
Proof.
  unfold call_tool. destruct (tool_map self !! name) as [entry|]; [|done].
  intros H. exists entry. split; [done|].
  destruct (e_transport entry =? "stdio")%string eqn:Et.
  - right. apply String.eqb_eq in Et. split; [done|].
    destruct (cfg_script (e_config entry)) as [script|]; [|done].
    eexists. split; [reflexivity|]. exact H.
  - destruct (e_transport entry =? "http")%string eqn:Eh; [|done].
    left. apply String.eqb_eq in Eh. split; [done|].
    destruct (cfg_host (e_config entry)) as [host|]; [|done].
    destruct (e_endpoint entry) as [endpoint|]; [|done].
    destruct (negb (host =? "")%string && negb (endpoint =? "")%string); [|done].
    simpl in H |- *.
    match goal with
    | H : match http_send env ?q with _ => _ end = _ |- _ =>
        exists q; destruct (http_send env q) as [status_code text| |] eqn:Es;
          [|done..]
    end.
    destruct (is_success status_code) eqn:Eok; [|done].
    injection H as <-. exists status_code, text. done.
Qed.

(** C2: the code breaks the envelope on the stdio path. The HTTP branch of
    [call_tool] wraps the body of the response into
    [{ content: { text } }] (its comment: normalize to mimic MCP
    TextContent responses), so every HTTP call that returns has that
    shape. The stdio branch returns the result of the session as it came:
    when the session answers with an MCP [CallToolResult], whose [content]
    is a list of blocks, that result is what [call_tool] returns, and it
    has no [content.text]. *)
Theorem stdio_call_misses_the_envelope env self name arguments entry script content :
  tool_map self !! name = Some entry →
  e_transport entry = "stdio" →
  cfg_script (e_config entry) = Some script →
  stdio_session env
    {| command := sys_executable env; args := [script];
       cwd := default (os_getcwd env) (cfg_cwd (e_config entry)) |}
    name arguments = Ok (CallToolResult content) →
  (call_tool env self name arguments).2 = Ok (CallToolResult content)
  ∧ envelope_text (CallToolResult content) = None
  ∧ ∀ self' name' arguments' entry' r,
      tool_map self' !! name' = Some entry' →
      e_transport entry' = "http" →
      (call_tool env self' name' arguments').2 = Ok r →
      is_Some (envelope_text r).
Proof.
  intros Hentry Ht Hs Hsession. split; [|split; [done|]].
  - unfold call_tool. rewrite Hentry, Ht, Hs. simpl. exact Hsession.
  - intros self' name' arguments' entry' r Hentry' Ht' Hr.
    destruct (call_result_by_transport env self' name' arguments' r Hr)
      as (e & He & [(_ & rq & status_code & text & _ & _ & _ & _ & Henv)
                   |(Hstdio & _)]).
    + eauto.
    + rewrite Hentry' in He. injection He as <-. rewrite Ht' in Hstdio.
      discriminate Hstdio.
Qed.

Lemma http_call_request_witness :
  configured_method add_def = "GET"
  ∧ (call_tool sample_env (initialize lists_add (new [http_backend])) "add"
       (JDict {[ "a" := JInt 2 ]})).1
    = [HttpRequest {| rq_method := GET; rq_url := "http://127.0.0.1:8000/add";
                      rq_params := Some (JDict {[ "a" := JInt 2 ]});
                      rq_json := None |}].
Proof.
  split; [reflexivity|].
  refine (proj1 (http_call_request sample_env (initialize lists_add (new [http_backend]))
                   "add" (JDict {[ "a" := JInt 2 ]}) http_backend add_def "add"
                   "http://127.0.0.1:8000/" "/add" _ _ _ _) _).
  - vm_compute. reflexivity.
  - reflexivity.
  - discriminate.
  - discriminate.
  - reflexivity.
Defined.

Lemma call_result_by_transport_witness :
  ∃ entry,
    tool_map (initialize lists_add (new [http_backend])) !! "add" = Some entry
    ∧ ((e_transport entry = "http"
        ∧ ∃ rq status_code text,
            (call_tool sample_env (initialize lists_add (new [http_backend])) "add"
               (JDict ∅)).1 = [HttpRequest rq]
            ∧ http_send sample_env rq = Response status_code text
            ∧ is_success status_code = true
            ∧ SimpleNamespace [("content", SimpleNamespace [("text", PStr "4")])]
              = SimpleNamespace [("content", SimpleNamespace [("text", PStr text)])]
            ∧ envelope_text
                (SimpleNamespace [("content", SimpleNamespace [("text", PStr "4")])])
              = Some text)
       ∨ (e_transport entry = "stdio"
          ∧ ∃ params,
              (call_tool sample_env (initialize lists_add (new [http_backend])) "add"
                 (JDict ∅)).1 = [SpawnStdio params "add" (JDict ∅)]
              ∧ stdio_session sample_env params "add" (JDict ∅)
                = Ok (SimpleNamespace
                        [("content", SimpleNamespace [("text", PStr "4")])]))).
Proof.
  apply (call_result_by_transport sample_env (initialize lists_add (new [http_backend]))
           "add" (JDict ∅)).
  vm_compute. reflexivity.
Defined.

(** The stdio backend of the samples answers [add] with one text block. *)
Lemma stdio_call_misses_the_envelope_witness :
  tool_map (initialize lists_add (new [stdio_backend])) !! "add"
  = Some (stdio_entry stdio_backend add_tool)
  ∧ (call_tool sample_env (initialize lists_add (new [stdio_backend])) "add"
       (JDict {[ "a" := JInt 2; "b" := JInt 2 ]})).2
    = Ok (CallToolResult [TextContent "4"])
  ∧ envelope_text (CallToolResult [TextContent "4"]) = None.
Proof.
  assert (tool_map (initialize lists_add (new [stdio_backend])) !! "add"
          = Some (stdio_entry stdio_backend add_tool)) as Hadd
    by (vm_compute; reflexivity).
  split; [exact Hadd|].
  pose proof (stdio_call_misses_the_envelope sample_env
                (initialize lists_add (new [stdio_backend])) "add"
                (JDict {[ "a" := JInt 2; "b" := JInt 2 ]})
                (stdio_entry stdio_backend add_tool) "mcp_server_1.py"
                [TextContent "4"] Hadd eq_refl eq_refl eq_refl) as (Hcall & Hnone & _).
  split; [exact Hcall|exact Hnone].
Defined.

End CallFacts.

(** ** The webhook *)

Section WebhookFacts.
Import Py Webhook.

Variable repr : json → string.

Lemma extract_text_message_dict (d : gmap string json) :
  extract_text_message repr (JDict d)
  = message ←! Ok (selected_message d);
    text ←! get message "text";
    if negb (truthy text) then Ok None
    else
      f ←! get message "from";
      let sender_info := py_or f (JDict ∅) in
      u ←! get sender_info "username";
      sender ←! (if truthy u then Ok u
                 else
                   n ←! get sender_info "first_name";
                   if truthy n then Ok n
                   else
                     i ←! get_default sender_info "id" (JStr "unknown");
                     Ok (JStr (str repr i)));
      Ok (Some {| sender := sender; text := text; raw := JDict d |}).
Proof.
  unfold extract_text_message, selected_message, py_or. simpl.
  by destruct (truthy (default JNull (d !! "message"))).
Qed.

(** C9, amended: the sender of every event that [extract_text_message]
    produces is chosen by this precedence: the username if there is one,
    else the first name, else whatever stands under the key [id] rendered
    by [str] (the decimal digits for a number), else, when there is no such
    key, ["unknown"]. *)
Theorem sender_follows_precedence update extracted :
  extract_text_message repr update = Ok (Some extracted) →
  ∃ d message f,
    update = JDict d
    ∧ selected_message d = JDict message
    ∧ sender_info_of message = JDict f
    ∧ sender extracted
      = sender_by_precedence repr (present f "username") (present f "first_name") (f !! "id").
Proof.
  destruct update as [| | | | | |d]; try done.
  rewrite extract_text_message_dict. simpl.
  destruct (selected_message d) as [| | | | | |message] eqn:Hm; try done.
  simpl. destruct (truthy (default JNull (message !! "text"))); [|done]. simpl.
  fold (sender_info_of message).
  destruct (sender_info_of message) as [| | | | | |f] eqn:Hf; try done.
  simpl. intros H. exists d, message, f. do 3 (split; [done|]).
  unfold present, sender_by_precedence.
  destruct (f !! "username") as [u|] eqn:Hu; simpl in H.
  - destruct (truthy u); simpl in H; [by injection H as <-|].
    destruct (f !! "first_name") as [n|] eqn:Hn; simpl in H.
    + destruct (truthy n); simpl in H; [by injection H as <-|].
      injection H as <-. simpl. by destruct (f !! "id").
    + injection H as <-. simpl. by destruct (f !! "id").
  - destruct (f !! "first_name") as [n|] eqn:Hn; simpl in H.
    + destruct (truthy n); simpl in H; [by injection H as <-|].
      injection H as <-. simpl. by destruct (f !! "id").
    + injection H as <-. simpl. by destruct (f !! "id").
Qed.

(** C6, amended: when the body parses to an object and the message it
    selects is an object whose text is missing or empty, the handler answers
    200 and leaves the queue as it was; when the body is malformed JSON the
    handler fails with 400 and leaves the queue as it was; and whenever no
    event comes out of a body that parses, nothing is queued. *)
Theorem webhook_ignores_or_rejects d message popen_ok st :
  selected_message d = JDict message →
  truthy (default JNull (message !! "text")) = false →
  let ignored := telegram_webhook repr (Ok (JDict d)) popen_ok st in
  let malformed := telegram_webhook repr (Raise JSONDecodeError) popen_ok st in
  ignored = (st, Ok (JSONResponse (JDict {[ "ok" := JBool true; "ignored" := JBool true ]})))
  ∧ status_of ignored.2 = 200%Z
  ∧ malformed.1 = st
  ∧ status_of malformed.2 = 400%Z
  ∧ (∀ update,
       (∀ extracted, extract_text_message repr update ≠ Ok (Some extracted)) →
       (telegram_webhook repr (Ok update) popen_ok st).1 = st).
Proof.
  intros Hm Ht ignored malformed.
  assert (extract_text_message repr (JDict d) = Ok None) as He.
  { rewrite extract_text_message_dict. simpl. rewrite Hm. simpl. by rewrite Ht. }
  unfold ignored, malformed, telegram_webhook. rewrite He.
  do 4 (split; [done|]).
  intros update Hnone.
  destruct (extract_text_message repr update) as [[extracted|]|e]; try done.
  by destruct (Hnone extracted).
Qed.

End WebhookFacts.

Section WebhookSamples.
Import Py Webhook.

Example array_body_raises :
  telegram_webhook sample_repr (Ok (JList [JInt 1; JInt 2])) true empty_state
  = (empty_state, Raise AttributeError).
Proof. reflexivity. Qed.

Example null_id_is_rendered :
  extract_text_message sample_repr update_null_id
  = Ok (Some {| sender := JStr "None"; text := JStr "hi"; raw := update_null_id |}).
Proof. vm_compute. reflexivity. Qed.

Example edited_message_is_used :
  selected_message {[ "edited_message" := JDict {[ "text" := JStr "fixed" ]} ]}
  = JDict {[ "text" := JStr "fixed" ]}.
Proof. vm_compute. reflexivity. Qed.

(** C6, as stated, fails, whatever [repr] is:
    [{"update_id": 7, "message": "hello"}] parses, holds no text, and the
    handler raises [AttributeError], which the client sees as 500 and not
    as 200. *)
Lemma message_that_is_no_object_is_not_accepted : ¬ ∃ repr, no_text_is_accepted repr.
Proof.
  intros [repr H].
  destruct (H update_message_string true empty_state) as [Hstatus _].
  - intros extracted. vm_compute. discriminate.
  - vm_compute in Hstatus. discriminate Hstatus.
Qed.

(** C9, as stated, fails, whatever [repr] is: for
    [{"message": {"text": "hi", "from": {"id": null}}}] there is no
    username, no first name and no numeric id, and the sender recorded is
    ["None"], not ["unknown"]. *)
Lemma null_id_is_not_unknown : ¬ ∃ repr, sender_is_documented repr.
Proof.
  intros [repr H].
  specialize (H update_null_id
                {| sender := JStr "None"; text := JStr "hi"; raw := update_null_id |}
                {[ "message" :=
                     JDict {[ "text" := JStr "hi"; "from" := JDict {[ "id" := JNull ]} ]} ]}
                {[ "text" := JStr "hi"; "from" := JDict {[ "id" := JNull ]} ]}
                {[ "id" := JNull ]}).
  assert (JStr "None" = JStr "unknown") as Habs; [|discriminate Habs].
  apply H; vm_compute; reflexivity.
Qed.

Lemma sender_follows_precedence_witness :
  extract_text_message sample_repr update_id_only
  = Ok (Some {| sender := JStr "42"; text := JStr "hi"; raw := update_id_only |})
  ∧ ∃ d message f,
      update_id_only = JDict d
      ∧ selected_message d = JDict message
      ∧ sender_info_of message = JDict f
      ∧ JStr "42"
        = sender_by_precedence sample_repr (present f "username")
            (present f "first_name") (f !! "id").
Proof.
  assert (extract_text_message sample_repr update_id_only
          = Ok (Some {| sender := JStr "42"; text := JStr "hi";
                        raw := update_id_only |})) as He
    by (vm_compute; reflexivity).
  split; [exact He|].
  exact (sender_follows_precedence sample_repr update_id_only _ He).
Defined.

Lemma webhook_ignores_or_rejects_witness :
  selected_message update_no_text = JDict message_no_text
  ∧ status_of (telegram_webhook sample_repr (Ok (JDict update_no_text)) true
                 empty_state).2 = 200%Z
  ∧ status_of (telegram_webhook sample_repr (Raise JSONDecodeError) true
                 empty_state).2 = 400%Z.
Proof.
  assert (selected_message update_no_text = JDict message_no_text) as Hm
    by (vm_compute; reflexivity).
  split; [exact Hm|].
  pose proof (webhook_ignores_or_rejects sample_repr update_no_text message_no_text
                true empty_state Hm eq_refl) as (_ & H200 & _ & H400 & _).
  split; [exact H200|exact H400].
Defined.

End WebhookSamples.

(** ** The broadcast loop *)

Section BroadcastFacts.
Import Py Broadcast.

Lemma run_app s t1 t2 :
  run s (t1 ++ t2) = run s t1 ≫= λ s', run s' t2.
Proof.
  revert s. induction t1 as [|l t1 IH]; intros s; simpl; [done|].
  destruct (step s l); simpl; [apply IH|done].
Qed.

Lemma ingested_app t1 t2 : ingested (t1 ++ t2) = ingested t1 ++ ingested t2.
Proof.
  induction t1 as [|l t1 IH]; simpl; [done|].
  destruct l; simpl; by rewrite ?IH.
Qed.

(** What a step that happens says about the two states. *)
Lemma step_inv s l s' :
  step s l = Some s' →
  match l with
  | Ingest message =>
      s' = {| event_queue := event_queue s ++ [message]; clients := clients s;
              subscribers := subscribers s; broadcast_task := broadcast_task s |}
  | Dequeue =>
      ∃ message rest,
        broadcast_task s = AwaitGet ∧ event_queue s = message :: rest
        ∧ s' = {| event_queue := rest; clients := clients s;
                  subscribers := subscribers s; broadcast_task := AwaitLock message |}
  | Acquire order =>
      ∃ message,
        broadcast_task s = AwaitLock message
        ∧ NoDup order ∧ list_to_set order = clients s
        ∧ s' = set_broadcast_task (FanOut message order) s
  | Put c =>
      ∃ message todo sub,
        broadcast_task s = FanOut message (c :: todo)
        ∧ subscribers s !! c = Some sub
        ∧ length (queue sub) < maxsize
        ∧ s' = set_broadcast_task (FanOut message todo)
                 (set_subscriber c
                    {| queue := queue sub ++ [message]; gen := gen sub;
                       stream := stream sub |} s)
  | Release =>
      ∃ message,
        broadcast_task s = FanOut message [] ∧ s' = set_broadcast_task AwaitGet s
  | Subscribe c =>
      locked s = false ∧ subscribers s !! c = None
      ∧ s' = {| event_queue := event_queue s; clients := {[c]} ∪ clients s;
                subscribers :=
                  <[c := {| queue := []; gen := Running; stream := [] |}]> (subscribers s);
                broadcast_task := broadcast_task s |}
  | Consume c =>
      ∃ sub message rest,
        subscribers s !! c = Some sub ∧ gen sub = Running ∧ queue sub = message :: rest
        ∧ s' = set_subscriber c
                 {| queue := rest; gen := Running; stream := stream sub ++ [message] |} s
  | Exit c _ =>
      ∃ sub,
        subscribers s !! c = Some sub ∧ gen sub = Running
        ∧ s' = set_subscriber c
                 {| queue := queue sub; gen := Finalizing; stream := stream sub |} s
  | Finalize c =>
      ∃ sub,
        locked s = false ∧ subscribers s !! c = Some sub ∧ gen sub = Finalizing
        ∧ s' = {| event_queue := event_queue s; clients := clients s ∖ {[c]};
                  subscribers :=
                    <[c := {| queue := queue sub; gen := Closed; stream := stream sub |}]>
                      (subscribers s);
                  broadcast_task := broadcast_task s |}
  end.
Proof.
  destruct l as [m| |order|c| |c|c|c why|c]; simpl; intros H.
  - by injection H as <-.
  - destruct (broadcast_task s), (event_queue s) as [|m rest]; simplify_eq.
    by exists m, rest.
  - destruct (broadcast_task s) as [|m|]; try done.
    case_bool_decide as Hok; simplify_eq. destruct Hok. by exists m.
  - destruct (broadcast_task s) as [| |m [|c' todo]]; try done.
    case_bool_decide; [|done]. subst c'.
    destruct (subscribers s !! c) as [sub|]; [|done]. simpl in H.
    unfold full in H. case_bool_decide; simplify_eq.
    exists m, todo, sub. repeat split; try done. lia.
  - destruct (broadcast_task s) as [| |m [|c' todo]]; simplify_eq. by exists m.
  - destruct (locked s); [done|]. by destruct (subscribers s !! c); simplify_eq.
  - destruct (subscribers s !! c) as [sub|]; [|done]. simpl in H.
    destruct (gen sub) eqn:Hg, (queue sub) as [|m rest] eqn:Hq; simplify_eq.
    by exists sub, m, rest.
  - destruct (subscribers s !! c) as [sub|]; [|done]. simpl in H.
    destruct (gen sub) eqn:Hg; simplify_eq. by exists sub.
  - destruct (locked s); [done|].
    destruct (subscribers s !! c) as [sub|]; [|done]. simpl in H.
    destruct (gen sub) eqn:Hg; simplify_eq. by exists sub.
Qed.

(** Taking a step apart. *)
Ltac step_inv H :=
  apply step_inv in H;
  match type of H with
  | match ?l with _ => _ end => destruct l; simpl in H
  end;
  destruct_and?; repeat match goal with H : ∃ _, _ |- _ => destruct H end;
  destruct_and?; subst.

(** Rewriting with what an inverted step left in the context. *)
Ltac use_eqs :=
  repeat match goal with
         | H : broadcast_task _ = _ |- _ => rewrite H
         | H : event_queue _ = _ |- _ => rewrite H
         | H : subscribers _ !! _ = _ |- _ => rewrite H
         | H : queue _ = _ |- _ => rewrite H
         | H : gen _ = _ |- _ => rewrite H
         end.

Lemma gen_of_set_subscriber c c' sub s :
  gen_of c (set_subscriber c' sub s)
  = if decide (c' = c) then Some (gen sub) else gen_of c s.
Proof.
  unfold gen_of, set_subscriber. simpl. destruct (decide (c' = c)) as [->|Hne].
  - by rewrite lookup_insert_eq.
  - by rewrite lookup_insert_ne.
Qed.

(** The generator of [c] moves by the steps of [c] alone. *)
Lemma step_gen_of s l s' c :
  step s l = Some s' →
  gen_of c s' = gen_of c s
  ∨ (∃ why, l = Exit c why ∧ gen_of c s = Some Running ∧ gen_of c s' = Some Finalizing)
  ∨ (l = Finalize c ∧ locked s = false ∧ gen_of c s = Some Finalizing
     ∧ gen_of c s' = Some Closed ∧ clients s' = clients s ∖ {[c]})
  ∨ (l = Subscribe c ∧ gen_of c s = None ∧ gen_of c s' = Some Running).
Proof.
  intros H. step_inv H; unfold gen_of; simpl; try by left.
  all: match goal with
       | |- context [<[?c' := _]> _ !! ?c0] =>
           destruct (decide (c' = c0)) as [->|Hne];
             [rewrite !lookup_insert_eq|rewrite !lookup_insert_ne by done; by left]
       end.
  all: repeat match goal with H : _ !! _ = _ |- _ => rewrite H end; simpl.
  all: repeat match goal with H : gen _ = _ |- _ => rewrite H end.
  - by left.
  - by right; right; right.
  - by left.
  - right. left. by exists why.
  - by right; right; left.
Qed.

Lemma queue_of_set_subscriber c c' sub s :
  queue_of c (set_subscriber c' sub s)
  = if decide (c' = c) then queue sub else queue_of c s.
Proof.
  unfold queue_of, set_subscriber. simpl. destruct (decide (c' = c)) as [->|Hne].
  - by rewrite lookup_insert_eq.
  - by rewrite lookup_insert_ne.
Qed.

Lemma stream_of_set_subscriber c c' sub s :
  stream_of c (set_subscriber c' sub s)
  = if decide (c' = c) then stream sub else stream_of c s.
Proof.
  unfold stream_of, set_subscriber. simpl. destruct (decide (c' = c)) as [->|Hne].
  - by rewrite lookup_insert_eq.
  - by rewrite lookup_insert_ne.
Qed.

Lemma queue_of_lookup c s sub : subscribers s !! c = Some sub → queue_of c s = queue sub.
Proof. unfold queue_of. by intros ->. Qed.

Lemma stream_of_lookup c s sub : subscribers s !! c = Some sub → stream_of c s = stream sub.
Proof. unfold stream_of. by intros ->. Qed.

Lemma gen_of_lookup c s sub : subscribers s !! c = Some sub → gen_of c s = Some (gen sub).
Proof. unfold gen_of. by intros ->. Qed.

(** *** Backpressure *)

Lemma blocked_step s c l s' :
  blocked_on c s → step s l = Some s' → l ≠ Consume c →
  blocked_on c s' ∧ is_put l = false ∧ clients s' = clients s
  ∧ ∀ c', stream_of c' s' ++ queue_of c' s' = stream_of c' s ++ queue_of c' s.
Proof.
  intros (m & todo & Hb & Hfull) H Hl. unfold blocked_on.
  assert (locked s = true) as Hlocked by (unfold locked; by rewrite Hb).
  step_inv H; simpl in *; try congruence.
  - (* Ingest *) split; [by exists m, todo|done].
  - (* Put *) assert (c0 = c) as -> by congruence.
    erewrite queue_of_lookup in Hfull by done. lia.
  - (* Consume *)
    assert (c0 ≠ c) as Hne by congruence.
    split; [|split; [done|split; [done|]]].
    + exists m, todo. split; [done|].
      rewrite queue_of_set_subscriber. by rewrite decide_False.
    + intros c'. rewrite queue_of_set_subscriber, stream_of_set_subscriber.
      destruct (decide (c0 = c')) as [<-|]; [|done]. simpl.
      erewrite queue_of_lookup, stream_of_lookup by done.
      rewrite <- app_assoc. simpl. congruence.
  - (* Exit *)
    split; [|split; [done|split; [done|]]].
    + exists m, todo. split; [done|].
      rewrite queue_of_set_subscriber. destruct (decide (c0 = c)) as [->|]; [|done].
      simpl. by erewrite <- queue_of_lookup.
    + intros c'. rewrite queue_of_set_subscriber, stream_of_set_subscriber.
      destruct (decide (c0 = c')) as [<-|]; [|done]. simpl.
      by erewrite queue_of_lookup, stream_of_lookup.
Qed.

(** C4, amended: while the broadcaster is inside [put] on a queue that holds
    its full capacity of ten events, it keeps the lock and, until the
    subscriber of that queue takes an event out, no step puts an event into
    any queue: what every subscriber has received stays what it was, and
    nobody can join or leave the set. Subscribers that the pass visited
    before the full queue have been given the event in flight already. *)
Theorem blocked_broadcaster_delivers_nothing s c trace s' :
  blocked_on c s →
  run s trace = Some s' →
  Consume c ∉ trace →
  blocked_on c s'
  ∧ locked s' = true
  ∧ Forall (λ l, is_put l = false) trace
  ∧ clients s' = clients s
  ∧ ∀ c', stream_of c' s' ++ queue_of c' s' = stream_of c' s ++ queue_of c' s.
Proof.
  revert s. induction trace as [|l trace IH]; intros s Hb Hrun Hno; simpl in Hrun.
  - injection Hrun as <-. split; [done|]. split; [|done].
    destruct Hb as (m & todo & Hb & _). unfold locked. by rewrite Hb.
  - destruct (step s l) as [s1|] eqn:Hstep; [|done].
    apply not_elem_of_cons in Hno as [Hl Hno].
    destruct (blocked_step s c l s1 Hb Hstep) as (Hb1 & Hput & Hcl & Hrecv); [done|].
    destruct (IH s1 Hb1 Hrun Hno) as (Hb' & Hlock & Hputs & Hcl' & Hrecv').
    split; [done|]. split; [done|]. split; [by constructor|].
    split; [congruence|]. intros c'. by rewrite Hrecv', Hrecv.
Qed.

(** *** Leaving the stream *)

Lemma step_clients s l s' c :
  step s l = Some s' → c ∈ clients s' →
  c ∈ clients s ∨ (l = Subscribe c ∧ gen_of c s = None).
Proof.
  intros H. step_inv H; simpl; try by left.
  - intros [Hc%elem_of_singleton|Hc]%elem_of_union; [|by left].
    subst. right. split; [done|]. unfold gen_of.
    by match goal with H : _ !! _ = None |- _ => rewrite H end.
  - intros [Hc _]%elem_of_difference. by left.
Qed.

Lemma step_pass_targets s l s' c :
  step s l = Some s' → c ∈ pass_targets s' →
  c ∈ pass_targets s ∨ c ∈ clients s.
Proof.
  intros H. unfold pass_targets.
  step_inv H; simpl; try by left.
  - by intros ?%elem_of_nil.
  - intros Hc. right.
    match goal with H : list_to_set _ = _ |- _ => rewrite <- H end.
    by apply elem_of_list_to_set.
  - match goal with H : broadcast_task _ = _ |- _ => rewrite H end.
    intros Hc. left. by right.
  - by intros ?%elem_of_nil.
Qed.

Lemma closed_step s c l s' :
  gen_of c s = Some Closed → c ∉ clients s → c ∉ pass_targets s →
  step s l = Some s' →
  gen_of c s' = Some Closed ∧ (c ∉ clients s') ∧ (c ∉ pass_targets s')
  ∧ l ≠ Finalize c.
Proof.
  intros Hg Hc Ht H.
  destruct (step_gen_of s l s' c H)
    as [Hsame|[(why & _ & Hr & _)|[(_ & _ & Hf & _)|(_ & Hn & _)]]]; try congruence.
  split; [congruence|]. split; [|split].
  - intros [Hin|[_ Hn]]%(step_clients s l s'); [done|congruence|done].
  - intros [Hin|Hin]%(step_pass_targets s l s'); done.
  - intros ->. apply step_inv in H as (sub & _ & Hsub & Hfin & _).
    apply gen_of_lookup in Hsub. congruence.
Qed.

Lemma closed_run s c trace s' :
  gen_of c s = Some Closed → c ∉ clients s → c ∉ pass_targets s →
  run s trace = Some s' →
  gen_of c s' = Some Closed ∧ (c ∉ clients s') ∧ (c ∉ pass_targets s')
  ∧ (Finalize c ∉ trace).
Proof.
  revert s. induction trace as [|l trace IH]; intros s Hg Hc Ht Hrun; simpl in Hrun.
  - injection Hrun as <-. repeat split; try done. by intros ?%elem_of_nil.
  - destruct (step s l) as [s1|] eqn:Hstep; [|done].
    destruct (closed_step s c l s1 Hg Hc Ht Hstep) as (Hg1 & Hc1 & Ht1 & Hl).
    destruct (IH s1 Hg1 Hc1 Ht1 Hrun) as (? & ? & ? & Hno).
    repeat split; try done. by apply not_elem_of_cons.
Qed.

Lemma finalizing_run s c trace s' :
  gen_of c s = Some Finalizing →
  run s trace = Some s' →
  (gen_of c s' = Some Finalizing ∧ (Finalize c ∉ trace)
   ∧ (locked s' = false → is_Some (step s' (Finalize c))))
  ∨ (gen_of c s' = Some Closed ∧ (Finalize c ∈ trace)
     ∧ (c ∉ clients s') ∧ (c ∉ pass_targets s')).
Proof.
  revert s. induction trace as [|l trace IH]; intros s Hg Hrun; simpl in Hrun.
  - injection Hrun as <-. left. split; [done|]. split; [by intros ?%elem_of_nil|].
    intros Hl. simpl. rewrite Hl. unfold gen_of in Hg.
    destruct (subscribers s !! c) as [sub|]; [|done]. simpl in *.
    injection Hg as ->. eauto.
  - destruct (step s l) as [s1|] eqn:Hstep; [|done].
    destruct (step_gen_of s l s1 c Hstep)
      as [Hsame|[(why & _ & Hr & _)|[(-> & Hl & _ & Hcl & Hcs)|(_ & Hn & _)]]];
      try congruence.
    + rewrite <- Hsame in Hg.
      assert (l ≠ Finalize c) as Hne.
      { intros ->. apply step_inv in Hstep as (sub & _ & Hsub & Hfin & ->).
        unfold gen_of in Hg. simpl in Hg.
        rewrite lookup_insert_eq in Hg. simpl in Hg. congruence. }
      destruct (IH s1 Hg Hrun) as [(? & Hno & ?)|(? & Hin & ? & ?)].
      * left. repeat split; try done. by apply not_elem_of_cons.
      * right. repeat split; try done. by right.
    + right.
      assert (c ∉ clients s1) as Hc1.
      { rewrite Hcs. intros [_ Hc]%elem_of_difference. apply Hc.
        by apply elem_of_singleton. }
      assert (c ∉ pass_targets s1) as Ht1.
      { apply step_inv in Hstep as (sub & _ & _ & _ & ->).
        unfold pass_targets, locked in *. simpl.
        destruct (broadcast_task s); try done; by intros ?%elem_of_nil. }
      destruct (closed_run s1 c trace s' Hcl Hc1 Ht1 Hrun) as (? & ? & ? & ?).
      repeat split; try done. by left.
Qed.

(** *** Order of delivery *)

Lemma consistent_initial : consistent initial.
Proof.
  split; [|split; [|split]]; simpl.
  - by intros c ?%elem_of_empty.
  - constructor.
  - intros c. unfold gen_of. simpl. by rewrite lookup_empty.
  - by intros c ?%elem_of_nil.
Qed.

Lemma consistent_step s l s' : consistent s → step s l = Some s' → consistent s'.
Proof.
  intros (Hsub & Hnd & Hrun & Htargets) H. split; [|split; [|split]].
  - intros c [Hc|[-> Hn]]%(step_clients s l s'); [| |done].
    + destruct (Hsub c Hc) as [sub Hs]. clear -H Hs.
      step_inv H; simpl; eauto.
      all: match goal with
           | |- is_Some (<[?c' := _]> _ !! ?c0) =>
               destruct (decide (c' = c0)) as [->|Hne];
                 [rewrite lookup_insert_eq|rewrite lookup_insert_ne by done]; eauto
           end.
    + apply step_inv in H as (_ & _ & ->). simpl. rewrite lookup_insert_eq. eauto.
  - clear Hsub Hrun Htargets. unfold pass_targets in *.
    step_inv H; simpl; try done; try constructor.
    match goal with H : broadcast_task _ = _ |- _ => rewrite H in Hnd end.
    by apply NoDup_cons in Hnd as [_ Hnd].
  - intros c Hg.
    destruct (step_gen_of s l s' c H)
      as [Hsame|[(why & _ & _ & Hf)|[(_ & _ & _ & Hf & _)|(-> & _ & _)]]];
      try congruence.
    + rewrite Hsame in Hg. specialize (Hrun c Hg). clear -H Hrun Hg.
      step_inv H; simpl; try done.
      * apply elem_of_union. by right.
      * apply elem_of_difference. split; [done|]. intros ->%elem_of_singleton.
        unfold gen_of in Hg.
        repeat match goal with H : _ !! _ = _ |- _ => rewrite H in Hg end.
        simpl in Hg. congruence.
    + apply step_inv in H as (_ & _ & ->). simpl. apply elem_of_union. left.
      by apply elem_of_singleton.
  - clear Hsub Hnd Hrun. unfold pass_targets, locked in *.
    intros c. step_inv H; simpl; try apply Htargets.
    + by intros ?%elem_of_nil.
    + intros Hc. match goal with H : list_to_set _ = _ |- _ => rewrite <- H end.
      by apply elem_of_list_to_set.
    + match goal with H : broadcast_task _ = _ |- _ => rewrite H in Htargets end.
      intros Hc. apply Htargets. by right.
    + by intros ?%elem_of_nil.
    + intros Hc. apply elem_of_union. right. by apply Htargets.
    + match goal with Hl : locked _ = false |- _ => unfold locked in Hl; revert Hl end.
      destruct (broadcast_task s); try discriminate; by intros _ ?%elem_of_nil.
Qed.

Lemma consistent_run s trace s' : consistent s → run s trace = Some s' → consistent s'.
Proof.
  revert s. induction trace as [|l trace IH]; intros s Hs Hrun; simpl in Hrun.
  - by injection Hrun as <-.
  - destruct (step s l) as [s1|] eqn:Hstep; [|done].
    eapply IH; [|done]. by eapply consistent_step.
Qed.

Lemma in_flight_unlocked c s : locked s = false → in_flight c s = held s.
Proof. unfold locked, in_flight, held. by destruct (broadcast_task s). Qed.

(** What is assigned to a registered subscriber grows by the ingested
    events and by nothing else. *)
Lemma assigned_step s l s' c :
  consistent s → c ∈ clients s → c ∈ clients s' → step s l = Some s' →
  assigned c s' = assigned c s ++ new_events l.
Proof.
  intros (Hsub & Hnd & _ & _) Hc Hc' H.
  unfold assigned, in_flight, pass_targets, stream_of, queue_of in *.
  step_inv H; simpl in *; rewrite ?app_nil_r.
  - (* Ingest *) by rewrite !app_assoc.
  - (* Dequeue *) by use_eqs.
  - (* Acquire *) use_eqs.
    rewrite bool_decide_eq_true_2; [done|].
    match goal with H : list_to_set _ = _ |- _ => rewrite <- H in Hc end.
    by apply elem_of_list_to_set in Hc.
  - (* Put *)
    match goal with H : broadcast_task _ = _ |- _ => rewrite H in Hnd |- * end.
    apply NoDup_cons in Hnd as [Hnotin _].
    destruct (decide (c0 = c)) as [->|Hne].
    + rewrite lookup_insert_eq. simpl.
      rewrite (bool_decide_eq_false_2 (c ∈ x0)) by done.
      rewrite (bool_decide_eq_true_2 (c ∈ c :: x0)) by left.
      use_eqs. by rewrite <- !app_assoc.
    + rewrite lookup_insert_ne by done.
      destruct (decide (c ∈ x0)).
      * rewrite !bool_decide_eq_true_2; [done|by right|done].
      * rewrite !bool_decide_eq_false_2; [done| |done].
        by intros [?|?]%elem_of_cons.
  - (* Release *) use_eqs.
    by rewrite bool_decide_eq_false_2 by (by intros ?%elem_of_nil).
  - (* Subscribe *)
    assert (c0 ≠ c) as Hne by (destruct (Hsub c Hc) as [sub Hs]; congruence).
    by rewrite lookup_insert_ne by done.
  - (* Consume *)
    destruct (decide (c0 = c)) as [->|Hne].
    + rewrite lookup_insert_eq. simpl. use_eqs. by rewrite <- !app_assoc.
    + by rewrite lookup_insert_ne.
  - (* Exit *)
    destruct (decide (c0 = c)) as [->|Hne].
    + rewrite lookup_insert_eq. simpl. by use_eqs.
    + by rewrite lookup_insert_ne.
  - (* Finalize *)
    assert (c0 ≠ c) as Hne.
    { intros ->. apply elem_of_difference in Hc' as [_ Hc']. apply Hc'.
      by apply elem_of_singleton. }
    by rewrite lookup_insert_ne by done.
Qed.

Lemma step_subscribers s l s' c :
  step s l = Some s' → is_Some (subscribers s !! c) → is_Some (subscribers s' !! c).
Proof.
  intros H [sub Hs]. step_inv H; simpl; eauto.
  all: match goal with
       | |- is_Some (<[?c' := _]> _ !! ?c0) =>
           destruct (decide (c' = c0)) as [->|Hne];
             [rewrite lookup_insert_eq|rewrite lookup_insert_ne by done]; eauto
       end.
Qed.

(** A queue that left the set does not come back. *)
Lemma gone_run s trace s' c :
  is_Some (subscribers s !! c) → c ∉ clients s → run s trace = Some s' →
  c ∉ clients s'.
Proof.
  revert s. induction trace as [|l trace IH]; intros s Hs Hc Hrun; simpl in Hrun.
  - by injection Hrun as <-.
  - destruct (step s l) as [s1|] eqn:Hstep; [|done].
    apply (IH s1); [by eapply step_subscribers| |done].
    intros [Hin|[_ Hn]]%(step_clients s l s1); [done| |done].
    destruct Hs as [sub Hs]. unfold gen_of in Hn. by rewrite Hs in Hn.
Qed.

Lemma ingested_cons l trace : ingested (l :: trace) = new_events l ++ ingested trace.
Proof. by destruct l. Qed.

Lemma assigned_run s trace s' c :
  consistent s → c ∈ clients s → c ∈ clients s' → run s trace = Some s' →
  assigned c s' = assigned c s ++ ingested trace.
Proof.
  revert s. induction trace as [|l trace IH]; intros s Hs Hc Hc' Hrun; simpl in Hrun.
  - injection Hrun as <-. simpl. by rewrite app_nil_r.
  - destruct (step s l) as [s1|] eqn:Hstep; [|done].
    assert (c ∈ clients s1) as Hc1.
    { destruct (decide (c ∈ clients s1)) as [|Hn]; [done|]. exfalso.
      apply (gone_run s1 trace s' c); try done.
      eapply step_subscribers; [done|]. by apply Hs. }
    rewrite (IH s1), (assigned_step s l s1), ingested_cons, app_assoc; try done.
    by eapply consistent_step.
Qed.

Lemma held_step s l s' :
  step s l = Some s' →
  held s' ++ event_queue s' `suffix_of` (held s ++ event_queue s) ++ new_events l.
Proof.
  intros H. unfold held.
  step_inv H; simpl; rewrite ?app_nil_r; use_eqs; try done.
  - by rewrite app_assoc.
  - by apply suffix_cons_r.
Qed.

Lemma step_stream_of s l s' c :
  step s l = Some s' →
  stream_of c s' = stream_of c s ∨ gen_of c s = Some Running.
Proof.
  intros H. unfold stream_of, gen_of.
  step_inv H; simpl; try by left.
  all: match goal with
       | |- context [<[?c' := _]> _ !! ?c0] =>
           destruct (decide (c' = c0)) as [->|Hne];
             [rewrite !lookup_insert_eq|rewrite !lookup_insert_ne by done; by left]
       end.
  all: use_eqs; simpl; use_eqs; auto.
Qed.

Lemma segment_of_suffix {A} (l assigned_l ingested_l rest : list A) :
  assigned_l = l ++ rest → assigned_l `suffix_of` ingested_l →
  ∃ before after, ingested_l = before ++ l ++ after.
Proof. intros -> [k ->]. by exists k, rest. Qed.

Lemma delivery_invariant_step trace s l s' :
  delivery_invariant trace s → step s l = Some s' →
  delivery_invariant (trace ++ [l]) s'.
Proof.
  intros (Hcons & Hheld & Hassigned & Hseg) H.
  assert (ingested (trace ++ [l]) = ingested trace ++ new_events l) as Hing.
  { rewrite ingested_app, ingested_cons. simpl. by rewrite app_nil_r. }
  assert (∀ c, c ∈ clients s' → assigned c s' `suffix_of` ingested (trace ++ [l]))
    as Hassigned'.
  { intros c Hc'. rewrite Hing.
    destruct (step_clients s l s' c H Hc') as [Hc|[-> _]].
    - rewrite (assigned_step s l s' c); try done. apply suffix_app. by apply Hassigned.
    - simpl. rewrite app_nil_r.
      apply step_inv in H as (Hl & Hn & ->).
      unfold assigned, stream_of, queue_of. simpl. rewrite lookup_insert_eq. simpl.
      replace (in_flight c _) with (held s); [done|].
      symmetry. by rewrite <- (in_flight_unlocked c s). }
  split; [by eapply consistent_step|]. split; [|split; [done|]].
  - rewrite Hing. etrans; [by apply held_step|]. by apply suffix_app.
  - intros c. destruct (step_stream_of s l s' c H) as [Hsame|Hrun].
    + rewrite Hsame, Hing. destruct (Hseg c) as (before & after & ->).
      exists before, (after ++ new_events l). by rewrite <- !app_assoc.
    + assert (c ∈ clients s') as Hc'.
      { destruct Hcons as (_ & _ & Hr & _). specialize (Hr c Hrun).
        destruct (decide (c ∈ clients s')) as [|Hn]; [done|]. exfalso.
        clear -H Hr Hn Hrun. unfold gen_of in Hrun.
        step_inv H; simpl in *; try done.
        * apply Hn, elem_of_union. by right.
        * destruct (decide (c0 = c)) as [->|Hne].
          -- revert Hrun. use_eqs. simpl. use_eqs. congruence.
          -- apply Hn, elem_of_difference. split; [done|].
             by intros ?%elem_of_singleton. }
      eapply segment_of_suffix; [|by apply Hassigned'].
      unfold assigned. reflexivity.
Qed.

Lemma delivery_invariant_initial : delivery_invariant [] initial.
Proof.
  split; [apply consistent_initial|]. split; [done|]. split.
  - by intros c ?%elem_of_empty.
  - intros c. by exists [], [].
Qed.

Lemma delivery_invariant_run trace s :
  run initial trace = Some s → delivery_invariant trace s.
Proof.
  revert s. induction trace as [|l trace IH] using rev_ind; intros s Hrun.
  - injection Hrun as <-. apply delivery_invariant_initial.
  - rewrite run_app in Hrun.
    destruct (run initial trace) as [s0|]; [|done]. simpl in Hrun.
    destruct (step s0 l) as [s1|] eqn:Hstep; [|done]. injection Hrun as <-.
    eapply delivery_invariant_step; [by apply IH|done].
Qed.

(** *** Delivery can be completed *)

Lemma consume_queue q :
  ∀ s c sub,
    subscribers s !! c = Some sub → gen sub = Running → queue sub = q →
    run s (replicate (length q) (Consume c))
    = Some (set_subscriber c
              {| queue := []; gen := Running; stream := stream sub ++ q |} s).
Proof.
  induction q as [|m rest IH]; intros s c sub Hsub Hg Hq; simpl.
  - f_equal. destruct s as [eq cl subs b]. unfold set_subscriber. simpl in *.
    f_equal. rewrite app_nil_r. symmetry. apply insert_id.
    rewrite Hsub. f_equal. destruct sub; simpl in *; congruence.
  - rewrite Hsub. simpl. rewrite Hg, Hq.
    rewrite (IH _ c {| queue := rest; gen := Running; stream := stream sub ++ [m] |});
      try done.
    + f_equal. unfold set_subscriber. simpl. f_equal.
      * by rewrite insert_insert_eq, <- app_assoc.
    + simpl. by rewrite lookup_insert_eq.
Qed.

Lemma ingested_replicate_consume n c : ingested (replicate n (Consume c)) = [].
Proof. induction n; simpl; done. Qed.

(** The subscribers of [cs] read their queues empty. *)
Lemma drain_queues (cs : list nat) :
  ∀ s,
    (∀ c, c ∈ cs → gen_of c s = Some Running) →
    ∃ trace s',
      run s trace = Some s' ∧ ingested trace = []
      ∧ event_queue s' = event_queue s ∧ clients s' = clients s
      ∧ broadcast_task s' = broadcast_task s
      ∧ (∀ c, gen_of c s' = gen_of c s)
      ∧ (∀ c, c ∈ cs → queue_of c s' = [])
      ∧ (∀ c, queue_of c s' = [] ∨ queue_of c s' = queue_of c s).
Proof.
  induction cs as [|c cs IH]; intros s Hrun.
  - exists [], s. repeat split; try done.
    + by intros c ?%elem_of_nil.
    + by right.
  - assert (gen_of c s = Some Running) as Hc by (apply Hrun; left).
    unfold gen_of in Hc. destruct (subscribers s !! c) as [sub|] eqn:Hsub; [|done].
    simpl in Hc. injection Hc as Hg.
    pose proof (consume_queue (queue sub) s c sub Hsub Hg eq_refl) as Hdrain.
    set (s1 := set_subscriber c _ s) in Hdrain.
    assert (∀ c', gen_of c' s1 = gen_of c' s) as Hgen1.
    { intros c'. unfold gen_of, s1. simpl.
      destruct (decide (c = c')) as [<-|Hne].
      - rewrite lookup_insert_eq, Hsub. simpl. by rewrite Hg.
      - by rewrite lookup_insert_ne. }
    destruct (IH s1) as (trace & s' & Hrun' & Hing & He & Hcl & Hb & Hgen & Hcs & Hq).
    { intros c' Hc'. rewrite Hgen1. apply Hrun. by right. }
    exists (replicate (length (queue sub)) (Consume c) ++ trace), s'.
    split; [|split; [|split; [|split; [|split; [|split; [|split]]]]]]; try done.
    + rewrite run_app. by rewrite Hdrain.
    + by rewrite ingested_app, ingested_replicate_consume, Hing.
    + intros c'. by rewrite Hgen, Hgen1.
    + intros c' [->|Hc']%elem_of_cons; [|by apply Hcs].
      destruct (Hq c) as [->| ->]; [done|].
      unfold queue_of, s1. simpl. by rewrite lookup_insert_eq.
    + intros c'. destruct (Hq c') as [->| ->]; [by left|].
      unfold queue_of, s1. simpl.
      destruct (decide (c = c')) as [<-|Hne].
      * rewrite lookup_insert_eq. by left.
      * rewrite lookup_insert_ne by done. by right.
Qed.

Lemma ready_set_subscriber s c sub b :
  ready s → gen sub = Running → queue sub = [] →
  ready (set_broadcast_task b (set_subscriber c sub s)).
Proof.
  intros Hready Hg Hq c' Hc'. simpl in *.
  destruct (decide (c = c')) as [<-|Hne].
  - exists sub. by rewrite lookup_insert_eq.
  - rewrite lookup_insert_ne by done. by apply Hready.
Qed.

(** The pass under way is finished: each remaining queue is given the
    message and its subscriber reads it. *)
Lemma finish_pass (todo : list nat) :
  ∀ s message,
    broadcast_task s = FanOut message todo → ready s →
    (∀ c, c ∈ todo → c ∈ clients s) →
    ∃ trace s',
      run s trace = Some s' ∧ ingested trace = []
      ∧ event_queue s' = event_queue s ∧ clients s' = clients s
      ∧ broadcast_task s' = AwaitGet ∧ ready s'.
Proof.
  induction todo as [|c todo IH]; intros s message Hb Hready Htodo.
  - exists [Release], (set_broadcast_task AwaitGet s). simpl. rewrite Hb.
    repeat split; try done.
  - destruct (Hready c) as (sub & Hsub & Hg & Hq); [apply Htodo; left|].
    set (s2 := set_broadcast_task (FanOut message todo)
                 (set_subscriber c
                    {| queue := []; gen := Running; stream := stream sub ++ [message] |}
                    s)).
    assert (run s [Put c; Consume c] = Some s2) as Hrun.
    { simpl. rewrite Hb, bool_decide_eq_true_2 by done. rewrite Hsub. simpl.
      rewrite Hq. simpl. rewrite lookup_insert_eq. simpl. rewrite Hg.
      unfold s2, set_broadcast_task, set_subscriber. simpl.
      by rewrite insert_insert_eq. }
    destruct (IH s2 message) as (trace & s' & Hrun' & Hing & He & Hcl & Hb' & Hready').
    + done.
    + by apply ready_set_subscriber.
    + intros c' Hc'. apply Htodo. by right.
    + exists ([Put c; Consume c] ++ trace), s'.
      rewrite run_app, Hrun, ingested_app. simpl. by rewrite Hing.
Qed.

(** Every event of the central queue is fanned out and read. *)
Lemma deliver_all (q : list event) :
  ∀ s,
    event_queue s = q → broadcast_task s = AwaitGet → ready s →
    ∃ trace s',
      run s trace = Some s' ∧ ingested trace = []
      ∧ event_queue s' = [] ∧ clients s' = clients s
      ∧ broadcast_task s' = AwaitGet ∧ ready s'.
Proof.
  induction q as [|message rest IH]; intros s He Hb Hready.
  - by exists [], s.
  - set (s2 := {| event_queue := rest; clients := clients s;
                  subscribers := subscribers s;
                  broadcast_task := FanOut message (elements (clients s)) |}).
    assert (run s [Dequeue; Acquire (elements (clients s))] = Some s2) as Hrun.
    { simpl. rewrite Hb, He. simpl.
      rewrite bool_decide_eq_true_2; [done|].
      split; [apply NoDup_elements|apply list_to_set_elements_L]. }
    destruct (finish_pass (elements (clients s)) s2 message)
      as (t3 & s3 & Hrun3 & Hing3 & He3 & Hcl3 & Hb3 & Hready3); try done.
    { intros c Hc. by apply elem_of_elements in Hc. }
    destruct (IH s3) as (t4 & s4 & Hrun4 & Hing4 & He4 & Hcl4 & Hb4 & Hready4);
      try done.
    exists ([Dequeue; Acquire (elements (clients s))] ++ t3 ++ t4), s4.
    rewrite run_app, Hrun. simpl. rewrite run_app, Hrun3. simpl. rewrite Hrun4.
    rewrite !ingested_app, Hing3, Hing4. simpl.
    repeat split; try done. by rewrite Hcl4, Hcl3.
Qed.

Lemma ready_quiescent s :
  ready s → event_queue s = [] → broadcast_task s = AwaitGet → quiescent s.
Proof.
  intros Hready He Hb. split; [done|]. split; [done|].
  intros c Hc. destruct (Hready c Hc) as (sub & Hsub & _ & Hq).
  unfold queue_of. by rewrite Hsub.
Qed.

(** While every registered subscriber reads, delivery can always be brought
    to an end without any new event: there is a schedule of broadcaster and
    subscriber steps after which nothing is left to deliver. *)
Lemma delivery_can_complete s :
  consistent s →
  (∀ c, c ∈ clients s → gen_of c s = Some Running) →
  ∃ trace s',
    run s trace = Some s' ∧ ingested trace = []
    ∧ clients s' = clients s ∧ quiescent s'.
Proof.
  intros (_ & _ & _ & Htargets) Hrunning.
  destruct (drain_queues (elements (clients s)) s)
    as (t1 & s1 & Hrun1 & Hing1 & He1 & Hcl1 & Hb1 & Hgen1 & Hq1 & _).
  { intros c Hc. apply Hrunning. by apply elem_of_elements in Hc. }
  assert (ready s1) as Hready1.
  { intros c Hc. rewrite Hcl1 in Hc.
    specialize (Hrunning c Hc). rewrite <- Hgen1 in Hrunning.
    specialize (Hq1 c ltac:(by apply elem_of_elements)).
    unfold gen_of, queue_of in *.
    destruct (subscribers s1 !! c) as [sub|]; [|done].
    exists sub. simpl in Hrunning. by injection Hrunning as ->. }
  assert (∃ t2 s2, run s1 t2 = Some s2 ∧ ingested t2 = []
                   ∧ event_queue s2 = event_queue s1 ∧ clients s2 = clients s1
                   ∧ broadcast_task s2 = AwaitGet ∧ ready s2)
    as (t2 & s2 & Hrun2 & Hing2 & He2 & Hcl2 & Hb2 & Hready2).
  { destruct (broadcast_task s1) as [|message|message todo] eqn:Hb.
    - by exists [], s1.
    - set (s1' := set_broadcast_task (FanOut message (elements (clients s1))) s1).
      destruct (finish_pass (elements (clients s1)) s1' message)
        as (t & s' & Hrun & Hing & He & Hcl & Hb' & Hready); try done.
      { intros c Hc. by apply elem_of_elements in Hc. }
      exists (Acquire (elements (clients s1)) :: t), s'. simpl. rewrite Hb.
      rewrite bool_decide_eq_true_2;
        [|split; [apply NoDup_elements|apply list_to_set_elements_L]].
      by fold s1'.
    - apply (finish_pass todo s1 message); try done.
      intros c Hc. rewrite Hcl1. apply Htargets.
      unfold pass_targets. by rewrite <- Hb1. }
  destruct (deliver_all (event_queue s2) s2 eq_refl Hb2 Hready2)
    as (t3 & s3 & Hrun3 & Hing3 & He3 & Hcl3 & Hb3 & Hready3).
  exists (t1 ++ t2 ++ t3), s3.
  rewrite run_app, Hrun1. simpl. rewrite run_app, Hrun2. simpl.
  rewrite !ingested_app, Hing1, Hing2, Hing3.
  split; [done|]. split; [done|]. split; [by rewrite Hcl3, Hcl2, Hcl1|].
  by apply ready_quiescent.
Qed.

(** C5: along every schedule the stream of a subscriber is a stretch of the
    ingested events, in the order of ingestion. For two subscribers that are
    registered before a series of ingests and stay registered, the stream
    of each is a prefix of what was assigned to it before, followed by
    those events in their order; it is all of it once nothing is on its
    way to that subscriber; and while every registered subscriber reads,
    there is a schedule without further ingests after which both have
    received every one of those events. *)
Theorem subscribers_see_ingest_order t1 s1 t2 s2 c1 c2 :
  run initial t1 = Some s1 →
  run s1 t2 = Some s2 →
  c1 ∈ clients s1 → c2 ∈ clients s1 →
  c1 ∈ clients s2 → c2 ∈ clients s2 →
  (∀ c, ∃ before after, ingested (t1 ++ t2) = before ++ stream_of c s2 ++ after)
  ∧ stream_of c1 s2 `prefix_of` assigned c1 s1 ++ ingested t2
  ∧ stream_of c2 s2 `prefix_of` assigned c2 s1 ++ ingested t2
  ∧ (drained c1 s2 → stream_of c1 s2 = assigned c1 s1 ++ ingested t2)
  ∧ (drained c2 s2 → stream_of c2 s2 = assigned c2 s1 ++ ingested t2)
  ∧ ((∀ c, c ∈ clients s2 → gen_of c s2 = Some Running) →
     ∃ t3 s3,
       run s2 t3 = Some s3 ∧ ingested t3 = []
       ∧ stream_of c1 s3 = assigned c1 s1 ++ ingested t2
       ∧ stream_of c2 s3 = assigned c2 s1 ++ ingested t2).
Proof.
  intros Hrun1 Hrun2 Hc1 Hc2 Hc1' Hc2'.
  assert (run initial (t1 ++ t2) = Some s2) as Hrun by (by rewrite run_app, Hrun1).
  destruct (delivery_invariant_run _ _ Hrun) as (Hcons2 & _ & _ & Hseg).
  destruct (delivery_invariant_run _ _ Hrun1) as (Hcons & _).
  split; [done|].
  assert (∀ t s c, run s1 t = Some s → c ∈ clients s1 → c ∈ clients s →
                   stream_of c s `prefix_of` assigned c s1 ++ ingested t
                   ∧ (drained c s → stream_of c s = assigned c s1 ++ ingested t))
    as Hboth.
  { intros t s c Ht Hc Hc'. rewrite <- (assigned_run s1 t s c) by done. split.
    - by eexists.
    - intros (Hq & Hf & He). unfold assigned. by rewrite Hq, Hf, He, !app_nil_r. }
  destruct (Hboth t2 s2 c1 Hrun2 Hc1 Hc1') as [? ?].
  destruct (Hboth t2 s2 c2 Hrun2 Hc2 Hc2') as [? ?].
  do 4 (split; [done|]).
  intros Hrunning.
  destruct (delivery_can_complete s2 Hcons2 Hrunning)
    as (t3 & s3 & Hrun3 & Hing3 & Hcl3 & He3 & Hb3 & Hq3).
  exists t3, s3. split; [done|]. split; [done|].
  assert (run s1 (t2 ++ t3) = Some s3) as Hrun13 by (by rewrite run_app, Hrun2).
  assert (∀ c, c ∈ clients s2 → drained c s3) as Hdrained.
  { intros c Hc. rewrite <- Hcl3 in Hc. split; [by apply Hq3|]. split; [|done].
    unfold in_flight. by rewrite Hb3. }
  rewrite <- Hcl3 in Hc1', Hc2'.
  destruct (Hboth (t2 ++ t3) s3 c1 Hrun13 Hc1 Hc1') as [_ Hall1].
  destruct (Hboth (t2 ++ t3) s3 c2 Hrun13 Hc2 Hc2') as [_ Hall2].
  rewrite ingested_app, Hing3, app_nil_r in Hall1, Hall2.
  rewrite Hcl3 in Hc1', Hc2'.
  split; [by apply Hall1, Hdrained|by apply Hall2, Hdrained].
Qed.

(** *** A subscriber that leaves while the broadcaster waits on its queue *)

Lemma departed_step s c l s' :
  blocked_on c s → gen_of c s = Some Finalizing → step s l = Some s' →
  blocked_on c s' ∧ gen_of c s' = Some Finalizing
  ∧ is_put l = false ∧ clients s' = clients s.
Proof.
  intros Hb Hg H.
  assert (locked s = true) as Hlocked.
  { destruct Hb as (m & todo & Hb & _). unfold locked. by rewrite Hb. }
  assert (l ≠ Consume c) as Hl.
  { intros ->. apply step_inv in H as (sub & m & rest & Hsub & Hr & _).
    apply gen_of_lookup in Hsub. congruence. }
  destruct (blocked_step s c l s' Hb H Hl) as (Hb' & Hput & Hcl & _).
  split; [done|]. split; [|done].
  destruct (step_gen_of s l s' c H)
    as [Hsame|[(why & _ & Hr & _)|[(_ & Hf & _)|(_ & Hn & _)]]]; congruence.
Qed.

(** C8 fails on the code: a subscriber whose queue is full while the
    broadcaster is inside [put] on it, and whose stream then ends, is never
    removed. Its generator waits in the [finally] block for the lock, the
    broadcaster keeps the lock while it waits for room in that queue, and
    nobody reads the queue any more: along every schedule from there the
    queue stays in the subscriber set, the generator stays in [finally], the
    fan-out pass under way keeps the queue as its next target and no event
    is put into any queue. *)
Theorem departed_subscriber_is_never_removed s c trace s' :
  blocked_on c s →
  gen_of c s = Some Finalizing →
  c ∈ clients s →
  run s trace = Some s' →
  c ∈ clients s'
  ∧ gen_of c s' = Some Finalizing
  ∧ blocked_on c s'
  ∧ Forall (λ l, is_put l = false) trace.
Proof.
  revert s. induction trace as [|l trace IH]; intros s Hb Hg Hc Hrun; simpl in Hrun.
  - by injection Hrun as <-.
  - destruct (step s l) as [s1|] eqn:Hstep; [|done].
    destruct (departed_step s c l s1 Hb Hg Hstep) as (Hb1 & Hg1 & Hput & Hcl).
    rewrite <- Hcl in Hc.
    destruct (IH s1 Hb1 Hg1 Hc Hrun) as (? & ? & ? & ?).
    repeat split; try done. by constructor.
Qed.

End BroadcastFacts.

Section BroadcastSamples.
Import Py Broadcast.

Example stalled_queue_is_full : length (queue_of 0 stalled) = maxsize.
Proof. vm_compute. reflexivity. Qed.

Example event_11_reaches_subscriber_1 : queue_of 1 blocked = [sample_event 11].
Proof. vm_compute. reflexivity. Qed.

Example put_on_full_queue_is_not_enabled : step blocked (Put 0) = None.
Proof. vm_compute. reflexivity. Qed.

Example finalizer_is_not_enabled : step departed (Finalize 0) = None.
Proof. vm_compute. reflexivity. Qed.

Lemma stalled_reachable : run initial stalled_trace = Some stalled.
Proof. vm_compute. reflexivity. Qed.

(** C4, as stated, fails: queue 0 holds ten events, none of them event 11,
    and the pass that fans out event 11 reads the set as 1, 0 and puts the
    event into queue 1. *)
Lemma event_delivered_while_queue_full : ¬ no_further_event_while_some_queue_full.
Proof.
  intros H.
  assert (sample_event 11 ∈ queue_of 0 stalled) as Hin.
  { apply (H stalled (ex_intro _ stalled_trace stalled_reachable) 0
             ltac:(apply (bool_decide_unpack _); vm_compute; exact I)
             ltac:(vm_compute; reflexivity)
             1 blocked (sample_event 11));
      vm_compute; reflexivity. }
  vm_compute in Hin.
  repeat (apply elem_of_cons in Hin as [Hin|Hin]; [discriminate Hin|]).
  by apply elem_of_nil in Hin.
Qed.

Lemma blocked_broadcaster_delivers_nothing_witness :
  blocked_on 0 blocked
  ∧ ∀ c',
      stream_of c' (default blocked (run blocked [Ingest (sample_event 12); Consume 1]))
      ++ queue_of c' (default blocked (run blocked [Ingest (sample_event 12); Consume 1]))
      = stream_of c' blocked ++ queue_of c' blocked.
Proof.
  assert (blocked_on 0 blocked) as Hb.
  { exists (sample_event 11), []. split; [vm_compute; reflexivity|].
    vm_compute. repeat constructor. }
  split; [exact Hb|].
  refine (proj2 (proj2 (proj2 (proj2
            (blocked_broadcaster_delivers_nothing blocked 0
               [Ingest (sample_event 12); Consume 1] _ Hb _ _))))).
  - vm_compute. reflexivity.
  - intros Hin.
    repeat (apply elem_of_cons in Hin as [Hin|Hin]; [discriminate Hin|]).
    by apply elem_of_nil in Hin.
Defined.

Lemma subscribers_see_ingest_order_witness :
  run initial two_subscribers = Some subscribed
  ∧ stream_of 0 (default initial (run subscribed one_round))
    `prefix_of` assigned 0 subscribed ++ ingested one_round
  ∧ stream_of 1 (default initial (run subscribed one_round))
    `prefix_of` assigned 1 subscribed ++ ingested one_round.
Proof.
  assert (run initial two_subscribers = Some subscribed) as H1
    by (vm_compute; reflexivity).
  split; [exact H1|].
  pose proof (subscribers_see_ingest_order two_subscribers subscribed one_round
                (default initial (run subscribed one_round)) 0 1 H1
                ltac:(vm_compute; reflexivity)
                ltac:(apply (bool_decide_unpack _); vm_compute; exact I)
                ltac:(apply (bool_decide_unpack _); vm_compute; exact I)
                ltac:(apply (bool_decide_unpack _); vm_compute; exact I)
                ltac:(apply (bool_decide_unpack _); vm_compute; exact I))
    as (_ & H0 & H1' & _).
  split; [exact H0|exact H1'].
Defined.

Lemma departed_reachable : reachable departed.
Proof.
  exists (stalled_trace ++ [Put 1; Exit 0 Disconnected]). vm_compute. reflexivity.
Qed.

(** The departed subscriber is still registered whatever happens next, here
    after two more webhook deliveries and a read by subscriber 1. *)
Lemma departed_subscriber_is_never_removed_witness :
  reachable departed
  ∧ blocked_on 0 departed
  ∧ gen_of 0 departed = Some Finalizing
  ∧ 0 ∈ clients
        (default initial
           (run departed
              [Ingest (sample_event 12); Consume 1; Ingest (sample_event 13)])).
Proof.
  assert (blocked_on 0 departed) as Hb.
  { exists (sample_event 11), []. split; [vm_compute; reflexivity|].
    vm_compute. repeat constructor. }
  assert (gen_of 0 departed = Some Finalizing) as Hg by (vm_compute; reflexivity).
  split; [exact departed_reachable|]. split; [exact Hb|]. split; [exact Hg|].
  exact (proj1 (departed_subscriber_is_never_removed departed 0
                  [Ingest (sample_event 12); Consume 1; Ingest (sample_event 13)] _
                  Hb Hg
                  ltac:(apply (bool_decide_unpack _); vm_compute; exact I)
                  ltac:(vm_compute; reflexivity))).
Defined.

End BroadcastSamples.

(** ** The registry as a whole *)

Section SessionFacts.
Import Py Registry Session.

Lemma foldl_filed {A} (P : string → entry → Prop)
    (f : gmap string entry → A → gmap string entry) l :
  (∀ m x n e, x ∈ l → f m x !! n = Some e → m !! n = Some e ∨ P n e) →
  ∀ m n e, foldl f m l !! n = Some e → m !! n = Some e ∨ P n e.
Proof.
  induction l as [|x l IH]; intros Hf m n e; simpl; [by left|].
  intros H. apply IH in H as [H|H]; [|by right|].
  - apply Hf in H; [done|left].
  - intros m' y n' e' Hy. apply Hf. by right.
Qed.

Lemma has_key_false {A} (o : option A) : has_key o = false → o = None.
Proof. by destruct o. Qed.

Lemma has_key_true {A} (o : option A) : has_key o = true → is_Some o.
Proof. destruct o; [eauto|done]. Qed.

(** What a backend files under a name is an entry as registration makes
    them, for a tool the backend offers. *)
Lemma register_backend_filed d config m n e :
  register_backend d config m !! n = Some e →
  m !! n = Some e
  ∨ (offers d config n ∧ registered_entry n e
     ∧ e_config e = with_transport config (e_transport e)).
Proof.
  unfold register_backend.
  destruct (has_key (cfg_script config)) eqn:Hs.
  - destruct d as [| |tools]; simpl; try by left.
    apply (foldl_filed
             (λ n e, offers (Listed tools) config n ∧ registered_entry n e
                     ∧ e_config e = with_transport config (e_transport e))).
    intros m' tool n' e' Hin.
    destruct (decide (tool_name tool = n')) as [<-|Hne].
    + rewrite lookup_insert_eq. intros [= <-]. right. split; [|split; [|done]].
      * left. split; [done|]. by exists tools, tool.
      * split; [done|]. split; [done|]. left.
        split; [done|]. split; [by apply has_key_true|done].
    + rewrite lookup_insert_ne by done. by left.
  - apply has_key_false in Hs.
    destruct (has_key (cfg_host config)) eqn:Hh; [|by left].
    unfold _register_http_server.
    destruct (default [] (cfg_tools config)) as [|td tds] eqn:E; [by left|].
    apply (foldl_filed
             (λ n e, offers d config n ∧ registered_entry n e
                     ∧ e_config e = with_transport config (e_transport e))).
    intros m' tool_def n' e' Hin.
    unfold register_http_tool.
    destruct (td_name tool_def) as [name|] eqn:Hname,
             (td_endpoint tool_def) as [endpoint|] eqn:Hend; try by left.
    destruct (negb (name =? "")%string && negb (endpoint =? "")%string) eqn:Hne;
      [|by left].
    apply andb_true_iff in Hne as [Hn He].
    apply negb_true_iff, String.eqb_neq in Hn, He.
    destruct (decide (name = n')) as [->|Hne].
    + rewrite lookup_insert_eq. intros [= <-]. right. split; [|split; [|done]].
      * right. split; [done|]. split; [done|]. exists tool_def, endpoint.
        by rewrite E.
      * split; [done|]. split; [done|]. right.
        split; [done|]. split; [done|]. split; [by apply has_key_true|].
        split; [by exists endpoint|].
        eexists. split; [done|]. apply upper_idemp.
    + rewrite lookup_insert_ne by done. by left.
Qed.

Lemma initialize_from_filed discover n e configs i m :
  initialize_from discover i configs m !! n = Some e →
  m !! n = Some e
  ∨ ∃ k c, configs !! k = Some c
      ∧ offers (discover (i + k)) c n ∧ registered_entry n e
      ∧ e_config e = with_transport c (e_transport e).
Proof.
  intros He.
  destruct (initialize_from_origin discover n configs i m)
    as [Heq|(j & c & e' & Hj & Hc & He')].
  - left. by rewrite <- Heq.
  - right. exists j, c. split; [done|].
    rewrite He in He'. injection He' as <-.
    apply register_backend_filed in Hc as [Hc|Hc]; [|done].
    by rewrite lookup_empty in Hc.
Qed.

Lemma registry_ok_new configs : registry_ok (new configs).
Proof. intros n e H. simpl in H. by rewrite lookup_empty in H. Qed.

Lemma registry_ok_initialize discover self :
  registry_ok self → registry_ok (initialize discover self).
Proof.
  intros Hok n e He. simpl in He.
  apply initialize_from_filed in He as [He|(k & c & _ & _ & He & _)]; [|done].
  by apply Hok.
Qed.

Lemma registry_ok_initialize_all runs :
  ∀ self, registry_ok self → registry_ok (initialize_all runs self).
Proof.
  unfold initialize_all.
  induction runs as [|discover runs IH]; intros self Hok; simpl; [done|].
  apply IH. by apply registry_ok_initialize.
Qed.

Lemma registered_iff_offered discover configs n :
  is_Some (tool_map (initialize discover (new configs)) !! n)
  ↔ ∃ k c, configs !! k = Some c ∧ offers (discover k) c n.
Proof.
  simpl. split.
  - intros [e He].
    apply initialize_from_filed in He as [He|(k & c & Hk & Ho & _)].
    + by rewrite lookup_empty in He.
    + by exists k, c.
  - intros (k & c & Hk & Ho).
    apply (initialize_from_files discover n configs 0 ∅ k c); [done|].
    by apply offers_files.
Qed.

(** X1: after [initialize] on a fresh registry, the registered names are
    exactly the names that some backend of the sequence offers: a listed
    tool of a stdio server whose discovery worked, or an item of an HTTP
    backend with a name and an endpoint. Nothing else gets in, and nothing
    offered is left out. *)
Theorem registered_names_are_the_offered_names discover configs n :
  n ∈ registered_names (initialize discover (new configs))
  ↔ ∃ k c, configs !! k = Some c ∧ offers (discover k) c n.
Proof.
  unfold registered_names. rewrite elem_of_dom. apply registered_iff_offered.
Qed.

(** X2: however often [initialize] runs on a registry that started empty,
    every entry is one that registration makes: the tool object bears the
    name it is filed under, the configuration copy names the transport of
    the entry, a stdio entry has a script and neither endpoint nor method,
    and an HTTP entry has no script, a host key, a non-empty endpoint and
    an upper-case method. *)
Theorem registry_entries_are_well_formed runs configs :
  registry_ok (initialize_all runs (new configs)).
Proof. apply registry_ok_initialize_all, registry_ok_new. Qed.


(** The envelope that an HTTP call wraps the response body in. *)
Lemma call_tool_unregistered env self n arguments :
  tool_map self !! n = None →
  call_tool env self n arguments
  = ([], Raise (ValueError ("Tool '" +:+ n +:+ "' not found on any server."))).
Proof. intros Hn. unfold call_tool. by rewrite Hn. Qed.

(** X3: a call of a name that no backend offers raises the not-found
    [ValueError] and does nothing to the outside: no subprocess, no
    request. *)
Theorem unoffered_tool_is_refused_without_io env discover configs n arguments :
  (∀ k c, configs !! k = Some c → ¬ offers (discover k) c n) →
  call_tool env (initialize discover (new configs)) n arguments
  = ([], Raise (ValueError ("Tool '" +:+ n +:+ "' not found on any server."))).
Proof.
  intros Hnone. apply call_tool_unregistered.
  apply eq_None_not_Some. intros H.
  apply registered_iff_offered in H as (k & c & Hk & Ho). by apply (Hnone k c).
Qed.

(** X4: on a registry of well-formed entries, a call of a registered name
    comes to exactly one of three things. A stdio tool: one subprocess is
    started with the interpreter, the script and the working directory of
    the entry, and what the session returns or raises is the outcome. An
    HTTP tool whose host is empty: the HTTP client is not called and the
    call raises [ValueError]. An HTTP tool otherwise: the HTTP client is
    called once, for host plus endpoint, and the outcome is the envelope of
    the body for a 2xx response, [RuntimeError] for any other response or a
    transport error, and the client's own exception, as it is, when the
    client raises anything that is no [httpx.HTTPError] (an invalid URL
    for one, with nothing sent). The [KeyError] for a missing script and
    the unsupported-transport error cannot happen. *)
Theorem registered_call_is_one_exchange env self n arguments e :
  registry_ok self →
  tool_map self !! n = Some e →
  let io := (call_tool env self n arguments).1 in
  let r := (call_tool env self n arguments).2 in
  (e_transport e = "stdio"
   ∧ ∃ script,
       cfg_script (e_config e) = Some script
       ∧ let params := {| command := sys_executable env; args := [script];
                          cwd := default (os_getcwd env) (cfg_cwd (e_config e)) |} in
         io = [SpawnStdio params n arguments]
         ∧ r = stdio_session env params n arguments)
  ∨ (e_transport e = "http"
     ∧ cfg_host (e_config e) = Some ""
     ∧ io = []
     ∧ r = Raise (ValueError ("HTTP tool '" +:+ n
                              +:+ "' lacks host or endpoint configuration.")))
  ∨ (e_transport e = "http"
     ∧ ∃ host endpoint rq,
         cfg_host (e_config e) = Some host ∧ host ≠ ""
         ∧ e_endpoint e = Some endpoint
         ∧ rq_url rq = rstrip "/"%char host +:+ endpoint
         ∧ io = [HttpRequest rq]
         ∧ ((∃ status_code text,
               http_send env rq = Response status_code text
               ∧ is_success status_code = true
               ∧ r = Ok (SimpleNamespace
                           [("content", SimpleNamespace [("text", PStr text)])]))
            ∨ ((http_send env rq = TransportError
                ∨ ∃ status_code text,
                    http_send env rq = Response status_code text
                    ∧ is_success status_code = false)
               ∧ r = Raise (RuntimeError (request_failed n)))
            ∨ (∃ name,
                 http_send env rq = OtherError name
                 ∧ r = Raise (OtherException name)))).
Proof.
  intros Hok He io r. subst io r.
  destruct (Hok n e He) as (_ & _ & [Hstdio|Hhttp]).
  - left. destruct Hstdio as (Ht & [script Hs] & _ & _). split; [done|].
    exists script. split; [done|].
    unfold call_tool. rewrite He, Ht, Hs. simpl. done.
  - right. destruct Hhttp as (Ht & _ & [host Hh] & (endpoint & Hend & Hne) & _).
    unfold call_tool. rewrite He, Ht, Hh, Hend. simpl.
    destruct (decide (host = "")) as [->|Hhost].
    + left. done.
    + right. split; [done|].
      rewrite !eqb_false_ne by done. simpl.
      set (url := rstrip "/" host +:+ endpoint).
      set (rq := if (upper (default "POST" (e_method e)) =? "GET")%string
                 then {| rq_method := GET; rq_url := url;
                         rq_params := Some arguments; rq_json := None |}
                 else {| rq_method := POST; rq_url := url;
                         rq_params := None; rq_json := Some arguments |}).
      exists host, endpoint, rq.
      split; [done|]. split; [done|]. split; [done|].
      split; [unfold rq; by destruct (_ =? _)%string|]. split; [done|].
      destruct (http_send env rq) as [status_code text| |name] eqn:Hsend.
      * destruct (is_success status_code) eqn:Hsucc.
        -- left. by exists status_code, text.
        -- right. left. split; [|done]. right. by exists status_code, text.
      * right. left. split; [by left|done].
      * right. right. by exists name.
Qed.


(** What a stdio backend whose discovery listed a tool called [n] files
    under [n]: an entry for a listed tool of that name. *)
Lemma listed_tool_filed config tools n :
  has_key (cfg_script config) = true →
  (∃ tool, tool ∈ tools ∧ tool_name tool = n) →
  ∃ tool, tool ∈ tools ∧ tool_name tool = n
    ∧ register_backend (Listed tools) config ∅ !! n = Some (stdio_entry config tool).
Proof.
  intros Hs. unfold register_backend. rewrite Hs. simpl.
  generalize (∅ : gmap string entry).
  induction tools as [|t tools IH] using rev_ind; intros m (tool & Hin & Hn).
  - by apply elem_of_nil in Hin.
  - rewrite foldl_app. simpl.
    destruct (decide (tool_name t = n)) as [Ht|Ht].
    + exists t. rewrite Ht, lookup_insert_eq. split; [|done].
      apply elem_of_app. right. left.
    + rewrite lookup_insert_ne by done.
      apply elem_of_app in Hin as [Hin|Hin].
      * destruct (IH m) as (tool' & Hin' & Hn' & Hl); [by exists tool|].
        exists tool'. split; [|done]. apply elem_of_app. by left.
      * apply list_elem_of_singleton in Hin. congruence.
Qed.

(** X5: registration and call compose: when a stdio backend is the last
    of the sequence to file under [n], a call of [n] starts that backend's
    script, with the interpreter of the caller and the backend's working
    directory (the current directory without one), passes name and
    arguments on unchanged and returns what the session returns. *)
Theorem call_reaches_last_stdio_backend
    env discover configs m0 j B script tools n arguments :
  configs !! j = Some B →
  cfg_script B = Some script →
  discover j = Listed tools →
  (∃ tool, tool ∈ tools ∧ tool_name tool = n) →
  (∀ k c, j < k → configs !! k = Some c →
          register_backend (discover k) c ∅ !! n = None) →
  let self := initialize discover {| server_configs := configs; tool_map := m0 |} in
  let params := {| command := sys_executable env; args := [script];
                   cwd := default (os_getcwd env) (cfg_cwd B) |} in
  call_tool env self n arguments
  = ([SpawnStdio params n arguments], stdio_session env params n arguments).
Proof.
  intros Hj Hs Hd Htool Hlater self params.
  destruct (listed_tool_filed B tools n) as (tool & _ & _ & Hfiled);
    [by rewrite Hs|done|].
  assert (tool_map self !! n = Some (stdio_entry B tool)) as Hn.
  { unfold self, initialize. simpl.
    apply (initialize_from_last discover n _ configs 0 m0 j B); [done| |done].
    simpl. by rewrite Hd. }
  unfold call_tool. rewrite Hn. simpl. by rewrite Hs.
Qed.

(** X6: registration does not look at the value of [host]: a tool of an
    HTTP backend whose host is the empty string is registered and listed,
    and every call of it is refused with [ValueError] before anything is
    sent. *)
Theorem empty_host_tool_is_listed_but_refused
    env discover configs m0 j B tool_def endpoint n arguments :
  configs !! j = Some B →
  cfg_script B = None →
  cfg_host B = Some "" →
  tool_def ∈ default [] (cfg_tools B) →
  td_name tool_def = Some n → n ≠ "" →
  td_endpoint tool_def = Some endpoint → endpoint ≠ "" →
  (∀ k c, j < k → configs !! k = Some c →
          register_backend (discover k) c ∅ !! n = None) →
  let self := initialize discover {| server_configs := configs; tool_map := m0 |} in
  n ∈ registered_names self
  ∧ call_tool env self n arguments
    = ([], Raise (ValueError ("HTTP tool '" +:+ n
                              +:+ "' lacks host or endpoint configuration."))).
Proof.
  intros Hj Hs Hh Hin Hname Hn Hend He Hlater self.
  assert (offers (discover j) B n) as Hoff.
  { right. split; [done|]. split; [by rewrite Hh|]. by exists tool_def, endpoint. }
  destruct (offers_files _ _ _ Hoff) as [e Hfiled].
  assert (tool_map self !! n = Some e) as Hself.
  { unfold self, initialize. simpl.
    by apply (initialize_from_last discover n _ configs 0 m0 j B). }
  split; [unfold registered_names; apply elem_of_dom; eauto|].
  apply register_backend_filed in Hfiled as [Hfiled|(_ & Hreg & Hcfg)];
    [by rewrite lookup_empty in Hfiled|].
  destruct Hreg as (_ & _ & [(Ht & [script Hscript] & _)|(Ht & _ & _ & (ep & Hep & _) & _)]).
  { rewrite Hcfg in Hscript. simpl in Hscript. congruence. }
  unfold call_tool. rewrite Hself, Ht, Hcfg, Hep. simpl. by rewrite Hh.
Qed.

(** X7: for a stdio tool, the registry's call is the call of the one-shot
    wrapper [MCP] built from the entry's script and working directory,
    unless the working directory is the empty string (which [MCP] replaces
    by the current directory and the registry passes on). *)
Theorem one_shot_wrapper_agrees_with_registry
    env self n arguments config tool script :
  tool_map self !! n = Some (stdio_entry config tool) →
  cfg_script config = Some script →
  cfg_cwd config ≠ Some "" →
  call_tool env self n arguments
  = MCP_call_tool env (MCP_new env (Some script) (cfg_cwd config) None) n arguments.
Proof.
  intros Hn Hs Hcwd. unfold call_tool, MCP_call_tool, MCP_params, MCP_new.
  rewrite Hn. simpl. rewrite Hs.
  destruct (cfg_cwd config) as [dir|]; simpl; [|done].
  rewrite eqb_false_ne by congruence. done.
Qed.

Example empty_cwd_tells_the_two_apart :
  let config :=
    {| cfg_script := Some "mcp_server_1.py"; cfg_cwd := Some ""; cfg_host := None;
       cfg_name := None; cfg_description := None; cfg_tools := None;
       cfg_transport := None |} in
  let self := initialize lists_add (new [config]) in
  cwd <$> (match (call_tool sample_env self "add" (JDict ∅)).1 with
           | [SpawnStdio params _ _] => Some params | _ => None end) = Some ""
  ∧ cwd (MCP_params (MCP_new sample_env (Some "mcp_server_1.py") (Some "") None))
    = "/srv".
Proof. split; vm_compute; reflexivity. Qed.

(** X8: the two listings of a registry of well-formed entries line up:
    [list_all_tools] names every registered tool once, and the tool objects
    of [get_all_tools] bear these names, position by position. *)
Theorem listings_line_up self :
  registry_ok self →
  NoDup (list_all_tools self)
  ∧ (∀ n, n ∈ list_all_tools self ↔ n ∈ registered_names self)
  ∧ tool_obj_name <$> get_all_tools self = list_all_tools self
  ∧ length (get_all_tools self) = size (tool_map self).
Proof.
  intros Hok. unfold list_all_tools, get_all_tools, registered_names.
  split; [apply NoDup_fst_map_to_list|]. split.
  - intros n. rewrite elem_of_dom. split.
    + intros Hin. apply list_elem_of_fmap in Hin as ([k e] & -> & Hin).
      apply elem_of_map_to_list in Hin. eauto.
    + intros [e He]. apply list_elem_of_fmap. exists (n, e). split; [done|].
      by apply elem_of_map_to_list.
  - split.
    + rewrite <- !list_fmap_compose. apply Forall_fmap_ext, Forall_forall.
      intros [k e] Hin. apply elem_of_map_to_list in Hin. simpl.
      by destruct (Hok k e Hin) as (Hname & _).
    + rewrite !length_fmap. apply length_map_to_list.
Qed.

Lemma overlays_idem f m : overlays f → f (f m) = f m.
Proof.
  intros Hf. apply map_eq. intros n. rewrite (Hf (f m) n), (Hf m n).
  by destruct (f ∅ !! n).
Qed.

(** X9: a second run of [initialize] that meets the same discovery outcomes
    as the first changes nothing: the registry after two runs is the
    registry after one. *)
Theorem initialize_is_idempotent discover self :
  initialize discover (initialize discover self) = initialize discover self.
Proof.
  unfold initialize. simpl. f_equal.
  apply (overlays_idem (initialize_from discover 0 (server_configs self))).
  apply overlays_initialize_from.
Qed.

Lemma rstrip_trailing ch s : rstrip ch (s +:+ String ch "") = rstrip ch s.
Proof.
  induction s as [|c s IH]; simpl.
  - by rewrite Ascii.eqb_refl.
  - by rewrite IH.
Qed.

(** X10: trailing slashes of a configured host do not matter: a tool whose
    backend names the host with one more slash at its end is called with
    the same request and has the same outcome. *)
Theorem trailing_slash_of_host_does_not_matter
    env self self' n arguments config config' tool_def name endpoint host :
  tool_map self !! n = Some (http_entry config tool_def name endpoint) →
  tool_map self' !! n = Some (http_entry config' tool_def name endpoint) →
  cfg_host config = Some host →
  cfg_host config' = Some (host +:+ "/") →
  host ≠ "" →
  call_tool env self' n arguments = call_tool env self n arguments.
Proof.
  intros Hn Hn' Hh Hh' Hne. unfold call_tool. rewrite Hn, Hn'. simpl.
  rewrite Hh, Hh'.
  assert (host +:+ "/" ≠ "") as Hne' by (by destruct host).
  rewrite (eqb_false_ne host), (eqb_false_ne (host +:+ "/")) by done.
  by rewrite rstrip_trailing.
Qed.

End SessionFacts.

Section SessionSamples.
Import Py Registry Session.

Lemma unoffered_tool_is_refused_without_io_witness :
  call_tool sample_env (initialize lists_add (new [http_backend])) "sub" (JDict ∅)
  = ([], Raise (ValueError "Tool 'sub' not found on any server.")).
Proof.
  apply (unoffered_tool_is_refused_without_io sample_env lists_add [http_backend] "sub").
  intros k c Hk [(Hs & _)|(_ & _ & tool_def & endpoint & Hin & Hname & _)].
  - destruct k as [|k]; [|discriminate Hk]. injection Hk as <-. discriminate Hs.
  - destruct k as [|k]; [|discriminate Hk]. injection Hk as <-.
    apply list_elem_of_singleton in Hin as ->. discriminate Hname.
Defined.

Lemma registered_call_is_one_exchange_witness :
  tool_map (initialize lists_add (new [http_backend])) !! "add"
  = Some (http_entry http_backend add_def "add" "/add")
  ∧ (call_tool sample_env (initialize lists_add (new [http_backend])) "add" (JDict ∅)).2
    = Ok (SimpleNamespace [("content", SimpleNamespace [("text", PStr "4")])]).
Proof.
  assert (tool_map (initialize lists_add (new [http_backend])) !! "add"
          = Some (http_entry http_backend add_def "add" "/add")) as Hadd
    by (vm_compute; reflexivity).
  split; [exact Hadd|].
  destruct (registered_call_is_one_exchange sample_env
              (initialize lists_add (new [http_backend])) "add" (JDict ∅) _
              (registry_ok_initialize lists_add _ (registry_ok_new [http_backend]))
              Hadd)
    as [(Ht & _)|[(_ & Hh & _)|(_ & host & endpoint & rq & _ & _ & _ & _ & _ & Hr)]].
  - discriminate Ht.
  - discriminate Hh.
  - destruct Hr as [(status_code & text & Hsend & _ & Hr)
                   |[[[Hfail|(status_code & text & Hsend & Hfail)] _]
                    |(name & Hother & _)]].
    + injection Hsend as _ <-. exact Hr.
    + discriminate Hfail.
    + injection Hsend as <- _. discriminate Hfail.
    + discriminate Hother.
Defined.

(** A URL that the HTTP client refuses: the exception is no
    [httpx.HTTPError], so it leaves [call_tool] as it is. *)
Example invalid_url_is_not_wrapped :
  (call_tool refusing_env (initialize lists_add (new [joined_backend])) "add" (JDict ∅)).2
  = Raise (OtherException "httpx.InvalidURL").
Proof. vm_compute. reflexivity. Qed.

Lemma call_reaches_last_stdio_backend_witness :
  call_tool sample_env (initialize lists_add (new [http_backend; stdio_backend]))
    "add" (JDict ∅)
  = ([SpawnStdio {| command := "python"; args := ["mcp_server_1.py"]; cwd := "/srv" |}
        "add" (JDict ∅)],
     Ok (CallToolResult [TextContent "4"])).
Proof.
  apply (call_reaches_last_stdio_backend sample_env lists_add
           [http_backend; stdio_backend] ∅ 1 stdio_backend "mcp_server_1.py"
           [add_tool] "add" (JDict ∅)).
  - reflexivity.
  - reflexivity.
  - reflexivity.
  - exists add_tool. split; [left|reflexivity].
  - intros k c Hk Hc. destruct k as [|[|k]]; [lia|lia|discriminate Hc].
Defined.

Lemma empty_host_tool_is_listed_but_refused_witness :
  "add" ∈ registered_names (initialize lists_add (new [hostless_backend]))
  ∧ call_tool sample_env (initialize lists_add (new [hostless_backend])) "add" (JDict ∅)
    = ([], Raise (ValueError "HTTP tool 'add' lacks host or endpoint configuration.")).
Proof.
  apply (empty_host_tool_is_listed_but_refused sample_env lists_add [hostless_backend]
           ∅ 0 hostless_backend add_def "/add" "add" (JDict ∅)).
  - reflexivity.
  - reflexivity.
  - reflexivity.
  - left.
  - reflexivity.
  - discriminate.
  - reflexivity.
  - discriminate.
  - intros k c Hk Hc. destruct k as [|k]; [lia|discriminate Hc].
Defined.

Lemma one_shot_wrapper_agrees_with_registry_witness :
  call_tool sample_env (initialize lists_add (new [stdio_backend])) "add" (JDict ∅)
  = MCP_call_tool sample_env (MCP_new sample_env (Some "mcp_server_1.py") None None)
      "add" (JDict ∅).
Proof.
  apply (one_shot_wrapper_agrees_with_registry sample_env
           (initialize lists_add (new [stdio_backend])) "add" (JDict ∅)
           stdio_backend add_tool "mcp_server_1.py").
  - vm_compute. reflexivity.
  - reflexivity.
  - discriminate.
Defined.

Lemma listings_line_up_witness :
  tool_obj_name <$> get_all_tools (initialize lists_add (new [stdio_backend; http_backend]))
  = list_all_tools (initialize lists_add (new [stdio_backend; http_backend])).
Proof.
  exact (proj1 (proj2 (proj2
           (listings_line_up (initialize lists_add (new [stdio_backend; http_backend]))
              (registry_ok_initialize lists_add _
                 (registry_ok_new [stdio_backend; http_backend])))))).
Defined.

Lemma trailing_slash_of_host_does_not_matter_witness :
  call_tool sample_env (initialize lists_add (new [http_backend])) "add" (JDict ∅)
  = call_tool sample_env (initialize lists_add (new [slashless_backend])) "add" (JDict ∅).
Proof.
  apply (trailing_slash_of_host_does_not_matter sample_env
           (initialize lists_add (new [slashless_backend]))
           (initialize lists_add (new [http_backend])) "add" (JDict ∅)
           slashless_backend http_backend add_def "add" "/add" "http://127.0.0.1:8000").
  - vm_compute. reflexivity.
  - vm_compute. reflexivity.
  - reflexivity.
  - reflexivity.
  - discriminate.
Defined.

End SessionSamples.

(** ** The webhook, outcome by outcome *)

Section WebhookOutcomes.
Import Py Webhook Extraction.

Variable repr : json → string.

Lemma get_raises v key e : get v key = Raise e → e = AttributeError.
Proof. destruct v; simpl; congruence. Qed.

Lemma get_default_raises v key dflt e :
  get_default v key dflt = Raise e → e = AttributeError.
Proof. destruct v; simpl; congruence. Qed.

Ltac crunch H :=
  repeat (simpl in H;
          match type of H with
          | context [get ?v ?k] =>
              let E := fresh "E" in
              destruct (get v k) eqn:E; [|apply get_raises in E]
          | context [get_default ?v ?k ?d] =>
              let E := fresh "E" in
              destruct (get_default v k d) eqn:E; [|apply get_default_raises in E]
          | context [truthy ?v] => destruct (truthy v) eqn:?
          end);
  simpl in H.

Lemma extract_text_message_raises update e :
  extract_text_message repr update = Raise e → e = AttributeError.
Proof.
  unfold extract_text_message. intros H. crunch H; congruence.
Qed.

Lemma extract_text_message_event update extracted :
  extract_text_message repr update = Ok (Some extracted) →
  truthy (text extracted) = true ∧ raw extracted = update
  ∧ (truthy (sender extracted) = true ∨ ∃ s, sender extracted = JStr s).
Proof.
  unfold extract_text_message. intros H.
  destruct (get update "message") as [m|]; [|done]. simpl in H.
  destruct (_ : result json) as [message|] in H; [|done]. simpl in H.
  destruct (get message "text") as [t|]; [|done]. simpl in H.
  destruct (truthy t) eqn:Ht; [|done]. simpl in H.
  destruct (get message "from") as [f|]; [|done]. simpl in H.
  destruct (get (py_or f (JDict ∅)) "username") as [u|]; [|done]. simpl in H.
  destruct (truthy u) eqn:Hu; simpl in H.
  { injection H as <-. simpl. auto. }
  destruct (get (py_or f (JDict ∅)) "first_name") as [n|]; [|done]. simpl in H.
  destruct (truthy n) eqn:Hn; simpl in H.
  { injection H as <-. simpl. auto. }
  destruct (get_default _ _ _) as [i|]; [|done]. simpl in H.
  injection H as <-. simpl. eauto.
Qed.

(** X16: a webhook call whose body parses has one of three outcomes: the
    update is ignored (200, state untouched), the handler raises
    [AttributeError] (state untouched), or one event is appended to the
    central queue and recorded as the latest message (200). In the last
    case the event has a true text, carries the whole update as [raw], its
    sender is a true value or a string, and a failure to start the agent
    changes neither the answer nor the queue. *)
Theorem webhook_outcomes update popen_ok st :
  let st' := (telegram_webhook repr (Ok update) popen_ok st).1 in
  let r := (telegram_webhook repr (Ok update) popen_ok st).2 in
  (r = Ok (JSONResponse (JDict {[ "ok" := JBool true; "ignored" := JBool true ]}))
   ∧ st' = st)
  ∨ (r = Raise AttributeError ∧ st' = st)
  ∨ (∃ extracted,
       r = Ok (JSONResponse (JDict {[ "ok" := JBool true ]}))
       ∧ event_queue st' = event_queue st ++ [extracted]
       ∧ latest_message st' = Some extracted
       ∧ agents_started st' = (if popen_ok then S (agents_started st)
                               else agents_started st)
       ∧ truthy (text extracted) = true
       ∧ raw extracted = update
       ∧ (truthy (sender extracted) = true ∨ ∃ s, sender extracted = JStr s)).
Proof.
  simpl. unfold telegram_webhook.
  destruct (extract_text_message repr update) as [[extracted|]|e] eqn:He.
  - right. right. exists extracted. do 4 (split; [done|]).
    by apply extract_text_message_event.
  - by left.
  - right. left. by rewrite (extract_text_message_raises update e He).
Qed.

Lemma sender_and_text_selected (d1 d2 : gmap string json) :
  selected_message d1 = selected_message d2 →
  sender_and_text (extract_text_message repr (JDict d1))
  = sender_and_text (extract_text_message repr (JDict d2)).
Proof.
  intros Hsel. rewrite !extract_text_message_dict, Hsel. simpl.
  generalize (selected_message d2). intros message.
  destruct (get message "text") as [t|]; [|done]. simpl.
  destruct (negb (truthy t)); [done|].
  destruct (get message "from") as [f|]; [|done]. simpl.
  generalize (py_or f (JDict ∅)). intros sender_info.
  destruct (get sender_info "username") as [u|]; [|done]. simpl.
  destruct (truthy u); simpl; [done|].
  destruct (get sender_info "first_name") as [n|]; [|done]. simpl.
  destruct (truthy n); simpl; [done|].
  by destruct (get_default _ _ _).
Qed.

(** X17: when an update has a true [message], its [edited_message] plays
    no part: sender and text are the same whatever stands under
    [edited_message], and the same without the key. *)
Theorem message_shadows_edited_message (d : gmap string json) m edited :
  d !! "message" = Some m →
  truthy m = true →
  sender_and_text (extract_text_message repr (JDict (<["edited_message" := edited]> d)))
  = sender_and_text (extract_text_message repr (JDict d))
  ∧ sender_and_text (extract_text_message repr (JDict (delete "edited_message" d)))
    = sender_and_text (extract_text_message repr (JDict d)).
Proof.
  intros Hm Ht. split; apply sender_and_text_selected; unfold selected_message, py_or.
  - rewrite lookup_insert_ne by done. rewrite Hm. simpl. by rewrite Ht.
  - rewrite lookup_delete_ne by done. rewrite Hm. simpl. by rewrite Ht.
Qed.

(** X18: when an update has no [message], or a false one, sender and text
    are taken from [edited_message] exactly as they would be from a
    [message] of the same content. *)
Theorem edited_message_is_the_fallback (d : gmap string json) edited :
  truthy (default JNull (d !! "message")) = false →
  sender_and_text (extract_text_message repr (JDict (<["edited_message" := edited]> d)))
  = sender_and_text (extract_text_message repr (JDict {[ "message" := edited ]})).
Proof.
  intros Hm. apply sender_and_text_selected. unfold selected_message, py_or.
  rewrite lookup_insert_ne by done. rewrite lookup_insert_eq, lookup_singleton_eq.
  rewrite lookup_singleton_ne by done. rewrite Hm. simpl.
  by destruct (truthy edited).
Qed.

End WebhookOutcomes.

Section WebhookOutcomeSamples.
Import Py Webhook Extraction.

Lemma message_shadows_edited_message_witness :
  sender_and_text
    (extract_text_message sample_repr
       (JDict (<["edited_message" := sample_edit]>
                 {[ "update_id" := JInt 9; "message" := sample_message ]})))
  = sender_and_text
      (extract_text_message sample_repr
         (JDict {[ "update_id" := JInt 9; "message" := sample_message ]})).
Proof.
  refine (proj1 (message_shadows_edited_message sample_repr
                   {[ "update_id" := JInt 9; "message" := sample_message ]}
                   sample_message sample_edit _ _)).
  - vm_compute. reflexivity.
  - vm_compute. reflexivity.
Defined.

Lemma edited_message_is_the_fallback_witness :
  sender_and_text
    (extract_text_message sample_repr
       (JDict (<["edited_message" := sample_edit]> {[ "update_id" := JInt 9 ]})))
  = sender_and_text
      (extract_text_message sample_repr (JDict {[ "message" := sample_edit ]})).
Proof.
  apply (edited_message_is_the_fallback sample_repr {[ "update_id" := JInt 9 ]}
           sample_edit).
  vm_compute. reflexivity.
Defined.

Example edited_text_is_extracted :
  sender_and_text
    (extract_text_message sample_repr
       (JDict (<["edited_message" := sample_edit]> {[ "update_id" := JInt 9 ]})))
  = Ok (Some (JStr "alice", JStr "hi again")).
Proof. vm_compute. reflexivity. Qed.

End WebhookOutcomeSamples.

(** ** Queues: bounds, backlog and late subscribers *)

Section QueueFacts.
Import Schedules.
Import Py Broadcast.

Ltac step_inv H :=
  apply step_inv in H;
  match type of H with
  | match ?l with _ => _ end => destruct l; simpl in H
  end;
  destruct_and?; repeat match goal with H : ∃ _, _ |- _ => destruct H end;
  destruct_and?; subst.

Ltac use_eqs :=
  repeat match goal with
         | H : broadcast_task _ = _ |- _ => rewrite H
         | H : event_queue _ = _ |- _ => rewrite H
         | H : subscribers _ !! _ = _ |- _ => rewrite H
         | H : queue _ = _ |- _ => rewrite H
         | H : gen _ = _ |- _ => rewrite H
         end.

Lemma bounded_step s l s' :
  (∀ c, length (queue_of c s) ≤ maxsize) → step s l = Some s' →
  ∀ c, length (queue_of c s') ≤ maxsize.
Proof.
  intros Hb H c. specialize (Hb c). unfold queue_of in *.
  step_inv H; simpl; try done.
  all: match goal with
       | |- context [<[?c' := _]> _ !! ?c0] =>
           destruct (decide (c' = c0)) as [->|Hne];
             [rewrite !lookup_insert_eq|by rewrite !lookup_insert_ne by done]
       end; simpl.
  - rewrite length_app. simpl. lia.
  - unfold maxsize. lia.
  - revert Hb. use_eqs. simpl. use_eqs. simpl. lia.
  - revert Hb. by use_eqs.
  - revert Hb. by use_eqs.
Qed.

(** X12: a subscriber queue never holds more than [maxsize] events, along
    any schedule from the initial state. *)
Theorem subscriber_queues_are_bounded trace s c :
  run initial trace = Some s → length (queue_of c s) ≤ maxsize.
Proof.
  revert s c. induction trace as [|l trace IH] using rev_ind; intros s c Hrun.
  - injection Hrun as <-. unfold queue_of. simpl. rewrite lookup_empty. simpl. lia.
  - rewrite run_app in Hrun.
    destruct (run initial trace) as [s0|]; [|done]. simpl in Hrun.
    destruct (step s0 l) as [s1|] eqn:Hstep; [|done]. injection Hrun as <-.
    eapply bounded_step; [|done]. intros c'. by apply IH.
Qed.

Lemma blocked_backlog_step s c l s' :
  blocked_on c s → step s l = Some s' →
  event_queue s' = event_queue s ++ new_events l.
Proof.
  intros (m & todo & Hb & Hfull) H.
  step_inv H; simpl in *; rewrite ?app_nil_r; try done; congruence.
Qed.

(** X13: backpressure stops at the broadcaster. While it is inside [put]
    on a full queue whose subscriber does not read, the webhook can still
    ingest, nothing is taken off the central queue, and the central queue
    grows by every event ingested. *)
Theorem backlog_grows_while_broadcaster_is_blocked s c trace s' message :
  blocked_on c s →
  run s trace = Some s' →
  Consume c ∉ trace →
  event_queue s' = event_queue s ++ ingested trace
  ∧ is_Some (step s' (Ingest message))
  ∧ step s' Dequeue = None.
Proof.
  intros Hb Hrun Hno.
  assert (event_queue s' = event_queue s ++ ingested trace ∧ blocked_on c s')
    as [Hq (m & todo & Hb' & _)].
  { revert s Hb Hrun Hno.
    induction trace as [|l trace IH]; intros s Hb Hrun Hno; simpl in Hrun.
    - injection Hrun as <-. simpl. by rewrite app_nil_r.
    - destruct (step s l) as [s1|] eqn:Hstep; [|done].
      apply not_elem_of_cons in Hno as [Hl Hno].
      destruct (blocked_step s c l s1 Hb Hstep) as (Hb1 & _); [done|].
      destruct (IH s1 Hb1 Hrun Hno) as [-> ?]. split; [|done].
      rewrite (blocked_backlog_step s c l s1 Hb Hstep), ingested_cons.
      by rewrite app_assoc. }
  split; [done|]. split; [simpl; eauto|]. simpl. by rewrite Hb'.
Qed.

(** After the discard, nothing touches the queue. *)
Lemma closed_received_step s c l s' :
  gen_of c s = Some Closed → c ∉ pass_targets s → step s l = Some s' →
  stream_of c s' = stream_of c s ∧ queue_of c s' = queue_of c s.
Proof.
  intros Hg Ht H. unfold gen_of, stream_of, queue_of, pass_targets in *.
  step_inv H; simpl; try done.
  all: match goal with
       | |- context [<[?c' := _]> _ !! ?c0] =>
           destruct (decide (c' = c0)) as [->|Hne];
             [rewrite !lookup_insert_eq|by rewrite !lookup_insert_ne by done]
       end; simpl.
  - exfalso. apply Ht. use_eqs. left.
  - revert Hg. use_eqs. simpl. by use_eqs.
  - revert Hg. use_eqs. simpl. by use_eqs.
  - revert Hg. use_eqs. simpl. by use_eqs.
  - by use_eqs.
Qed.

Lemma closed_received_run s c trace s' :
  gen_of c s = Some Closed → c ∉ clients s → c ∉ pass_targets s →
  run s trace = Some s' →
  stream_of c s' = stream_of c s ∧ queue_of c s' = queue_of c s.
Proof.
  revert s. induction trace as [|l trace IH]; intros s Hg Hc Ht Hrun; simpl in Hrun.
  - by injection Hrun as <-.
  - destruct (step s l) as [s1|] eqn:Hstep; [|done].
    destruct (closed_step s c l s1 Hg Hc Ht Hstep) as (Hg1 & Hc1 & Ht1 & _).
    destruct (IH s1 Hg1 Hc1 Ht1 Hrun) as [-> ->].
    by apply (closed_received_step s c l s1).
Qed.

Lemma finalize_closes s c s1 :
  step s (Finalize c) = Some s1 →
  gen_of c s1 = Some Closed ∧ (c ∉ clients s1) ∧ (c ∉ pass_targets s1)
  ∧ stream_of c s1 = stream_of c s ∧ queue_of c s1 = queue_of c s.
Proof.
  intros H. apply step_inv in H as (sub & Hl & Hsub & Hg & ->).
  unfold gen_of, stream_of, queue_of, pass_targets, locked in *. simpl.
  rewrite lookup_insert_eq, Hsub. simpl.
  split; [done|]. split; [|split; [|done]].
  - intros [_ Hc]%elem_of_difference. apply Hc. by apply elem_of_singleton.
  - destruct (broadcast_task s); try done; by intros ?%elem_of_nil.
Qed.

(** X14: once the [finally] block of a subscriber has discarded its
    queue, the queue is left alone for good: no event is put into it, none
    is taken out, its stream stays what it was, and it is not registered
    again. *)
Theorem discarded_queue_is_left_alone s c s1 trace s2 :
  step s (Finalize c) = Some s1 →
  run s1 trace = Some s2 →
  stream_of c s2 = stream_of c s
  ∧ queue_of c s2 = queue_of c s
  ∧ (c ∉ clients s2)
  ∧ Forall (λ l, l ≠ Put c ∧ l ≠ Subscribe c ∧ l ≠ Consume c) trace.
Proof.
  intros Hfin Hrun.
  destruct (finalize_closes s c s1 Hfin) as (Hg & Hc & Ht & <- & <-).
  clear s Hfin. revert s1 Hg Hc Ht Hrun.
  induction trace as [|l trace IH]; intros s Hg Hc Ht Hrun; simpl in Hrun.
  - by injection Hrun as <-.
  - destruct (step s l) as [s1|] eqn:Hstep; [|done].
    destruct (closed_step s c l s1 Hg Hc Ht Hstep) as (Hg1 & Hc1 & Ht1 & _).
    destruct (closed_received_step s c l s1 Hg Ht Hstep) as [<- <-].
    destruct (IH s1 Hg1 Hc1 Ht1 Hrun) as (? & ? & ? & ?).
    do 3 (split; [done|]). constructor; [|done].
    unfold gen_of, pass_targets in *.
    split; [|split]; intros ->; apply step_inv in Hstep.
    + destruct Hstep as (m & todo & sub & Hb & _). apply Ht. rewrite Hb. left.
    + destruct Hstep as (_ & Hn & _). by rewrite Hn in Hg.
    + destruct Hstep as (sub & m & rest & Hsub & Hr & _).
      rewrite Hsub in Hg. simpl in Hg. congruence.
Qed.

(** What a subscriber has been handed: its stream and its queue. *)
Lemma received_prefix_run s trace s' c :
  consistent s → c ∈ clients s → run s trace = Some s' →
  stream_of c s' ++ queue_of c s' `prefix_of` assigned c s ++ ingested trace.
Proof.
  revert s. induction trace as [|l trace IH]; intros s Hs Hc Hrun; simpl in Hrun.
  - injection Hrun as <-. simpl. rewrite app_nil_r. unfold assigned.
    rewrite app_assoc. by eexists.
  - destruct (step s l) as [s1|] eqn:Hstep; [|done].
    rewrite ingested_cons, app_assoc.
    destruct (decide (c ∈ clients s1)) as [Hc1|Hc1].
    + rewrite <- (assigned_step s l s1 c) by done.
      apply IH; [by eapply consistent_step|done|done].
    + assert (l = Finalize c) as ->.
      { clear -Hstep Hc Hc1. step_inv Hstep; simpl in *; try done.
        - exfalso. apply Hc1, elem_of_union. by right.
        - destruct (decide (c0 = c)) as [->|Hne]; [done|]. exfalso.
          apply Hc1, elem_of_difference. split; [done|].
          by intros ?%elem_of_singleton. }
      destruct (finalize_closes s c s1 Hstep) as (Hg & _ & Ht & Hst & Hq).
      destruct (closed_received_run s1 c trace s' Hg Hc1 Ht Hrun) as [-> ->].
      rewrite Hst, Hq. simpl. rewrite app_nil_r. unfold assigned.
      rewrite app_assoc, <- app_assoc. by eexists.
Qed.

(** X15: a subscriber that joins is sent nothing from before: what it has
    been handed at any later time (its stream and its queue) is a prefix
    of the message the broadcaster held when it joined, the central queue
    of that moment and the events ingested since. Events fanned out earlier
    are not replayed. *)
Theorem late_subscriber_gets_no_replay t1 s c s1 t2 s2 :
  run initial t1 = Some s →
  step s (Subscribe c) = Some s1 →
  run s1 t2 = Some s2 →
  stream_of c s2 ++ queue_of c s2
    `prefix_of` held s ++ Broadcast.event_queue s ++ ingested t2.
Proof.
  intros Hrun1 Hsub Hrun2.
  destruct (delivery_invariant_run _ _ Hrun1) as (Hcons & _).
  assert (consistent s1) as Hcons1 by (by eapply consistent_step).
  assert (assigned c s1 = held s ++ Broadcast.event_queue s) as Ha.
  { apply step_inv in Hsub as (Hl & Hn & ->).
    unfold assigned, stream_of, queue_of. simpl. rewrite lookup_insert_eq. simpl.
    f_equal. by rewrite <- (in_flight_unlocked c s). }
  assert (c ∈ clients s1) as Hc.
  { apply step_inv in Hsub as (_ & _ & ->). simpl. apply elem_of_union. left.
    by apply elem_of_singleton. }
  rewrite app_assoc, <- Ha. by apply received_prefix_run.
Qed.

End QueueFacts.

Section QueueSamples.
Import Py Broadcast Schedules.

Lemma subscriber_queues_are_bounded_witness :
  run initial stalled_trace = Some stalled
  ∧ length (queue_of 0 stalled) ≤ maxsize.
Proof.
  assert (run initial stalled_trace = Some stalled) as Hrun
    by (vm_compute; reflexivity).
  split; [exact Hrun|].
  exact (subscriber_queues_are_bounded stalled_trace stalled 0 Hrun).
Defined.

Lemma backlog_grows_while_broadcaster_is_blocked_witness :
  blocked_on 0 blocked
  ∧ Broadcast.event_queue
      (default blocked
         (run blocked [Ingest (sample_event 12); Consume 1; Ingest (sample_event 13)]))
    = Broadcast.event_queue blocked ++ [sample_event 12; sample_event 13].
Proof.
  assert (blocked_on 0 blocked) as Hb.
  { exists (sample_event 11), []. split; [vm_compute; reflexivity|].
    vm_compute. repeat constructor. }
  split; [exact Hb|].
  refine (proj1 (backlog_grows_while_broadcaster_is_blocked blocked 0
                   [Ingest (sample_event 12); Consume 1; Ingest (sample_event 13)] _
                   (sample_event 14) Hb _ _)).
  - vm_compute. reflexivity.
  - intros Hin.
    repeat (apply elem_of_cons in Hin as [Hin|Hin]; [discriminate Hin|]).
    by apply elem_of_nil in Hin.
Defined.

Lemma discarded_queue_is_left_alone_witness :
  step leaving (Finalize 0) = Some (default initial (step leaving (Finalize 0)))
  ∧ queue_of 0 (default initial (run (default initial (step leaving (Finalize 0))) unheard))
    = queue_of 0 leaving.
Proof.
  assert (step leaving (Finalize 0) = Some (default initial (step leaving (Finalize 0))))
    as Hfin by (vm_compute; reflexivity).
  split; [exact Hfin|].
  exact (proj1 (proj2 (discarded_queue_is_left_alone leaving 0 _ unheard
                         (default initial
                            (run (default initial (step leaving (Finalize 0))) unheard))
                         Hfin ltac:(vm_compute; reflexivity)))).
Defined.

Lemma late_subscriber_gets_no_replay_witness :
  run initial unheard = Some initial
  ∧ stream_of 0 (default initial (run initial (unheard ++ [Subscribe 0] ++ heard)))
    ++ queue_of 0 (default initial (run initial (unheard ++ [Subscribe 0] ++ heard)))
    `prefix_of` held initial ++ Broadcast.event_queue initial ++ ingested heard.
Proof.
  assert (run initial unheard = Some initial) as H1 by (vm_compute; reflexivity).
  split; [exact H1|].
  exact (late_subscriber_gets_no_replay unheard initial 0
           (default initial (step initial (Subscribe 0))) heard
           (default initial (run initial (unheard ++ [Subscribe 0] ++ heard)))
           H1 ltac:(vm_compute; reflexivity) ltac:(vm_compute; reflexivity)).
Defined.

Example unheard_event_is_not_replayed :
  stream_of 0 (default initial (run initial (unheard ++ [Subscribe 0] ++ heard)))
  = [sample_event 2].
Proof. vm_compute. reflexivity. Qed.

End QueueSamples.

(** ** The agent on the stream *)

Section AgentFacts.
Import Py Webhook Agent.

Example strip_spaces : strip "  hello world  " = "hello world".
Proof. vm_compute. reflexivity. Qed.

Example replace_all : replace "data: a data:b" "data:" "" = " a b".
Proof. vm_compute. reflexivity. Qed.

Lemma passed_over_step loads line rest :
  passed_over loads line →
  get_telegram_query loads (line :: rest) = get_telegram_query loads rest.
Proof.
  intros [->|[Hs|[Hl|(data & q & Hl & Hq & Hb)]]]; simpl; [done| | |].
  - rewrite Hs. by destruct (line =? "")%string.
  - rewrite Hl. by destruct (line =? "")%string, (startswith line "data:").
  - rewrite Hl, Hq. simpl. rewrite Hb. simpl.
    by destruct (line =? "")%string, (startswith line "data:").
Qed.

Lemma passed_over_run loads pre rest :
  Forall (passed_over loads) pre →
  get_telegram_query loads (pre ++ rest) = get_telegram_query loads rest.
Proof.
  induction 1 as [|line pre Hline _ IH]; [done|].
  rewrite <- IH. by apply passed_over_step.
Qed.

Lemma carries_step loads line query rest :
  carries loads line query →
  get_telegram_query loads (line :: rest) = Ok (Some query).
Proof.
  intros (Hne & Hs & data & q & Hl & Hq & Hstrip & Hq'). simpl.
  rewrite eqb_false_ne by done. rewrite Hs, Hl, Hq. simpl. rewrite Hstrip.
  by rewrite eqb_false_ne.
Qed.

Lemma breaks_step loads line rest :
  breaks loads line →
  get_telegram_query loads (line :: rest) = Raise AttributeError.
Proof.
  intros (Hne & Hs & data & Hl & Hbad). simpl.
  rewrite eqb_false_ne by done. rewrite Hs, Hl.
  destruct Hbad as [->|(q & -> & Hq)]; [done|]. simpl. by rewrite Hq.
Qed.

(** What the first line of the stream comes to. *)
Lemma line_verdict loads line :
  passed_over loads line ∨ (∃ query, carries loads line query) ∨ breaks loads line.
Proof.
  destruct (decide (line = "")) as [->|Hne]; [by left; left|].
  destruct (startswith line "data:") eqn:Hs; [|by left; right; left].
  destruct (loads (strip (replace line "data:" ""))) as [data|] eqn:Hl;
    [|by left; right; right; left].
  destruct (get_default data "query" (JStr "")) as [q|e] eqn:Hq.
  - destruct q as [| | | |q| |];
      try (right; right; split; [done|]; split; [done|];
           exists data; split; [done|]; right; eexists; by split).
    destruct (decide (strip q = "")) as [Hb|Hb].
    + left. right. right. right. by exists data, q.
    + right. left. exists (strip q). split; [done|]. split; [done|].
      by exists data, q.
  - right. right. split; [done|]. split; [done|]. exists data. split; [done|].
    left. destruct data; simpl in *; congruence.
Qed.

(** X19: what [get_telegram_query] comes to on a stream of lines. It
    returns [query] exactly when the first line that is not passed over
    carries [query], which is then not empty; it reaches its end without a
    value exactly when every line is passed over; and it raises exactly
    when the first line that is not passed over decodes to something that
    is no object or whose query is no string, the exception being
    [AttributeError]. *)
Theorem get_telegram_query_outcome loads lines :
  (∀ query,
     get_telegram_query loads lines = Ok (Some query)
     ↔ ∃ pre line post,
         lines = pre ++ line :: post
         ∧ Forall (passed_over loads) pre ∧ carries loads line query)
  ∧ (get_telegram_query loads lines = Ok None ↔ Forall (passed_over loads) lines)
  ∧ (∀ e,
       get_telegram_query loads lines = Raise e
       ↔ e = AttributeError
         ∧ ∃ pre line post,
             lines = pre ++ line :: post
             ∧ Forall (passed_over loads) pre ∧ breaks loads line).
Proof.
  assert (∀ pre line post,
            lines = pre ++ line :: post → Forall (passed_over loads) pre →
            get_telegram_query loads lines
            = get_telegram_query loads (line :: post)) as Hskip.
  { intros pre line post -> Hpre. by apply passed_over_run. }
  assert (Forall (passed_over loads) lines
          ∨ ∃ pre line post,
              lines = pre ++ line :: post ∧ Forall (passed_over loads) pre
              ∧ ((∃ query, carries loads line query) ∨ breaks loads line)) as Hcases.
  { induction lines as [|line rest IH]; [by left|].
    destruct (line_verdict loads line) as [Hp|Hcb].
    - destruct IH as [Hall|(pre & l & post & -> & Hpre & Hl)].
      + intros pre l post -> Hpre. by apply passed_over_run.
      + left. by constructor.
      + right. exists (line :: pre), l, post. split; [done|]. split; [|done].
        by constructor.
    - right. by exists [], line, rest. }
  split; [|split].
  - intros query. split.
    + intros Hres.
      destruct Hcases as [Hall|(pre & line & post & Hl & Hpre & [[q Hc]|Hb])].
      * rewrite <- (app_nil_r lines), passed_over_run in Hres by done. done.
      * rewrite (Hskip pre line post Hl Hpre), (carries_step _ _ q) in Hres by done.
        injection Hres as ->. by exists pre, line, post.
      * rewrite (Hskip pre line post Hl Hpre), breaks_step in Hres by done. done.
    + intros (pre & line & post & Hl & Hpre & Hc).
      rewrite (Hskip pre line post Hl Hpre). by apply carries_step.
  - split.
    + intros Hres.
      destruct Hcases as [Hall|(pre & line & post & Hl & Hpre & [[q Hc]|Hb])]; [done| |].
      * rewrite (Hskip pre line post Hl Hpre), (carries_step _ _ q) in Hres by done.
        done.
      * rewrite (Hskip pre line post Hl Hpre), breaks_step in Hres by done. done.
    + intros Hall. rewrite <- (app_nil_r lines). by rewrite passed_over_run.
  - intros e. split.
    + intros Hres.
      destruct Hcases as [Hall|(pre & line & post & Hl & Hpre & [[q Hc]|Hb])].
      * rewrite <- (app_nil_r lines), passed_over_run in Hres by done. done.
      * rewrite (Hskip pre line post Hl Hpre), (carries_step _ _ q) in Hres by done.
        done.
      * rewrite (Hskip pre line post Hl Hpre), breaks_step in Hres by done.
        injection Hres as <-. split; [done|]. by exists pre, line, post.
    + intros (-> & pre & line & post & Hl & Hpre & Hb).
      rewrite (Hskip pre line post Hl Hpre). by apply breaks_step.
Qed.

(** The agent drops the field name and the blank after it. *)
Lemma replace_data_line payload :
  replace ("data: " +:+ payload) "data:" "" = " " +:+ replace payload "data:" "".
Proof. reflexivity. Qed.

Lemma strip_leading_space s : strip (" " +:+ s) = strip s.
Proof. reflexivity. Qed.

Lemma data_line_decoded (loads : string → option json) payload :
  replace payload "data:" "" = payload →
  loads (strip (replace ("data: " +:+ payload) "data:" "")) = loads (strip payload).
Proof. intros Hclean. by rewrite replace_data_line, strip_leading_space, Hclean. Qed.

(** X20: server and agent fit together for a text message. When the
    payload that [json.dumps] makes for the frame does not contain the
    field name [data:] and decodes back to the object it came from, the
    agent returns the text of the message with the white space at its two
    ends removed, and passes the frame over when nothing is left. *)
Theorem agent_reads_the_served_text loads dumps message t rest :
  text message = JStr t →
  let payload := dumps (JDict {[ "query" := JStr t ]}) in
  replace payload "data:" "" = payload →
  loads (strip payload) = Some (JDict {[ "query" := JStr t ]}) →
  get_telegram_query loads (frame_lines dumps message ++ rest)
  = if String.eqb (strip t) "" then get_telegram_query loads rest
    else Ok (Some (strip t)).
Proof.
  intros Ht payload Hclean Hloads. unfold frame_lines. rewrite Ht. fold payload.
  cbn [app get_telegram_query]. 
  replace (("data: " +:+ payload) =? "")%string with false by done.
  replace (startswith ("data: " +:+ payload) "data:") with true by done.
  rewrite data_line_decoded, Hloads by done. simpl.
  rewrite lookup_singleton_eq. simpl.
  by destruct (strip t =? "")%string.
Qed.

(** X21: the webhook lets through any true [text]; a text that is no
    string (a number, a list, an object) reaches the agent as the query
    and ends [get_telegram_query] with [AttributeError], whatever follows
    on the stream. *)
Theorem text_that_is_no_string_stops_the_agent loads dumps message rest :
  (∀ t, text message ≠ JStr t) →
  let payload := dumps (JDict {[ "query" := text message ]}) in
  replace payload "data:" "" = payload →
  loads (strip payload) = Some (JDict {[ "query" := text message ]}) →
  get_telegram_query loads (frame_lines dumps message ++ rest) = Raise AttributeError.
Proof.
  intros Ht payload Hclean Hloads. unfold frame_lines. fold payload.
  cbn [app get_telegram_query].
  replace (("data: " +:+ payload) =? "")%string with false by done.
  replace (startswith ("data: " +:+ payload) "data:") with true by done.
  rewrite data_line_decoded, Hloads by done. simpl.
  rewrite lookup_singleton_eq. simpl.
  destruct (text message) as [| | | |t| |]; try done. by destruct (Ht t).
Qed.

End AgentFacts.

Section AgentSamples.
Import Py Webhook Agent.

Lemma agent_reads_the_served_text_witness :
  get_telegram_query sample_loads (frame_lines sample_dumps question ++ [])
  = Ok (Some "what is 2+2?").
Proof.
  refine (agent_reads_the_served_text sample_loads sample_dumps question
            "  what is 2+2?  " [] _ _ _).
  - reflexivity.
  - vm_compute. reflexivity.
  - vm_compute. reflexivity.
Defined.

Lemma text_that_is_no_string_stops_the_agent_witness :
  get_telegram_query sample_loads (frame_lines sample_dumps number ++ [])
  = Raise AttributeError.
Proof.
  apply (text_that_is_no_string_stops_the_agent sample_loads sample_dumps number []).
  - intros t. discriminate.
  - vm_compute. reflexivity.
  - vm_compute. reflexivity.
Defined.

(** The agent removes every [data:] of the line, the one inside the text
    included: the text ["data: x"] arrives as ["x"]. *)
Example text_with_field_name_is_cut :
  get_telegram_query sample_loads (frame_lines sample_dumps prefixed) = Ok (Some "x").
Proof. vm_compute. reflexivity. Qed.

Example comment_and_blank_lines_are_skipped :
  get_telegram_query sample_loads
    ([": keep-alive"; ""; "data: {broken"] ++ frame_lines sample_dumps question)
  = Ok (Some "what is 2+2?").
Proof. vm_compute. reflexivity. Qed.

End AgentSamples.

(** ** The Google bridges *)

Section GoogleFacts.
Import Py Webhook Google.

Variable repr : json → string.
Variable w : world.

Lemma plain_get v key : plain (get v key).
Proof. intros code detail. by destruct v. Qed.

Lemma plain_get_default v key dflt : plain (get_default v key dflt).
Proof. intros code detail. by destruct v. Qed.

Lemma plain_subscript v key : plain (subscript v key).
Proof.
  intros code detail. destruct v as [| | | | | |d]; try done.
  simpl. by destruct (d !! key).
Qed.

Lemma plain_json_of resp : plain (json_of resp).
Proof. intros code detail. unfold json_of. by destruct (rp_json resp). Qed.

Lemma plain_Ok {A} (a : A) : plain (Ok a).
Proof. done. Qed.

Lemma plain_bind {A B} (r : result A) (k : A → result B) :
  plain r → (∀ a, plain (k a)) → plain (x ←! r; k x).
Proof.
  intros Hr Hk code detail. destruct r as [a|e]; simpl; [apply Hk|].
  intros [= ->]. by apply (Hr code detail).
Qed.

Lemma raises_within_lift {A} cs (r : result A) : plain r → raises_within cs (lift r).
Proof. intros Hr code detail H. by destruct (Hr code detail). Qed.

Lemma raises_within_raise {A} cs code detail :
  code ∈ cs → raises_within cs (lift (Raise (HTTPException code detail) : result A)).
Proof. intros Hc code' detail' [= <- <-]. done. Qed.

Lemma raises_within_bind {A B} cs (m : io A) (k : A → io B) :
  raises_within cs m → (∀ a, raises_within cs (k a)) → raises_within cs (io_bind m k).
Proof.
  intros Hm Hk code detail. unfold raises_within, io_bind in *.
  destruct m as [log [a|e]]; simpl in *.
  - apply Hk.
  - intros [= ->]. by apply (Hm code detail).
Qed.

Lemma raises_within_request cs rq : raises_within cs (request w rq).
Proof. intros code detail. done. Qed.

Lemma raises_within_weaken {A} cs cs' (m : io A) :
  cs ⊆ cs' → raises_within cs m → raises_within cs' m.
Proof. intros Hsub Hm code detail H. apply Hsub. by eapply Hm. Qed.

Create HintDb bridge.
#[local] Hint Resolve plain_get plain_get_default plain_subscript plain_json_of plain_Ok : bridge.

Ltac in_codes :=
  first [assumption | apply (bool_decide_unpack _); vm_compute; exact I].

Ltac plainly :=
  repeat first [apply plain_bind; [|intros ?] | done | auto with bridge].

Ltac within :=
  repeat match goal with
         | |- raises_within _ (io_bind _ _) => apply raises_within_bind; [|intros ?]
         | |- raises_within _ (request _ _) => apply raises_within_request
         | |- raises_within _ (lift (Raise (HTTPException _ _))) =>
             apply raises_within_raise; in_codes
         | |- raises_within _ (lift _) => apply raises_within_lift; plainly
         | |- raises_within _ (if ?b then _ else _) => destruct b
         | |- raises_within _ (match ?x with _ => _ end) => destruct x
         end.

Lemma get_access_token_within cs :
  401%Z ∈ cs → raises_within cs (get_access_token w).
Proof. intros H. unfold get_access_token. within. Qed.

Lemma build_headers_within cs :
  401%Z ∈ cs → raises_within cs (build_headers repr w).
Proof. intros H. unfold build_headers. within. by apply get_access_token_within. Qed.

Lemma create_google_sheet_within cs title :
  401%Z ∈ cs → 500%Z ∈ cs → raises_within cs (create_google_sheet repr w title).
Proof.
  intros H1 H5. unfold create_google_sheet. within. by apply build_headers_within.
Qed.

Lemma write_to_google_sheet_within cs sheet_id range_ values :
  401%Z ∈ cs → 500%Z ∈ cs →
  raises_within cs (write_to_google_sheet repr w sheet_id range_ values).
Proof.
  intros H1 H5. unfold write_to_google_sheet. within.
  - by apply build_headers_within.
  - intros code detail. by destruct range_.
Qed.

Lemma send_email_via_gmail_within cs to subject body :
  401%Z ∈ cs → 500%Z ∈ cs →
  raises_within cs (send_email_via_gmail repr w to subject body).
Proof.
  intros H1 H5. unfold send_email_via_gmail. within.
  - by apply get_access_token_within.
  - intros code detail. by destruct (raw_message w to subject body).
Qed.

Lemma endpoints_within request_json :
  plain request_json →
  raises_within endpoint_codes (create_sheet_endpoint repr w request_json)
  ∧ raises_within endpoint_codes (write_data_endpoint repr w request_json)
  ∧ raises_within endpoint_codes (send_email_endpoint repr w request_json).
Proof.
  intros Hplain.
  unfold create_sheet_endpoint, write_data_endpoint, send_email_endpoint.
  split; [|split]; within.
  - apply create_google_sheet_within; in_codes.
  - apply write_to_google_sheet_within; in_codes.
  - apply send_email_via_gmail_within; in_codes.
Qed.

(** The token exchange comes first and alone. *)
Lemma get_access_token_inv :
  (get_access_token w).1 = [token_request w]
  ∧ ∀ access_token,
      (get_access_token w).2 = Ok access_token →
      ∃ resp, send w (token_request w) = Reply resp
        ∧ rp_status_code resp = 200%Z
        ∧ (body ←! json_of resp; subscript body "access_token") = Ok access_token.
Proof.
  unfold get_access_token, io_bind, request. simpl.
  destruct (send w (token_request w)) as [resp| |]; simpl; [|done..].
  destruct (rp_status_code resp =? 200)%Z eqn:Hs; simpl; [|done].
  split; [done|]. intros access_token H. exists resp.
  split; [done|]. split; [by apply Z.eqb_eq|done].
Qed.

Lemma build_headers_inv :
  (build_headers repr w).1 = [token_request w]
  ∧ ∀ headers,
      (build_headers repr w).2 = Ok headers →
      ∃ resp access_token,
        send w (token_request w) = Reply resp
        ∧ rp_status_code resp = 200%Z
        ∧ (body ←! json_of resp; subscript body "access_token") = Ok access_token
        ∧ headers = [("Content-Type", "application/json");
                     ("Authorization", "Bearer " +:+ str repr access_token)].
Proof.
  destruct get_access_token_inv as [Hlog Hok].
  unfold build_headers, io_bind. 
  destruct (get_access_token w) as [log [token|e]]; simpl in *; subst log.
  - split; [done|]. intros headers [= <-].
    destruct (Hok token eq_refl) as (resp & ? & ? & ?). by exists resp, token.
  - done.
Qed.

Ltac case_send r :=
  match goal with
  | |- context [send w ?rq] => destruct (send w rq) as [r| |] eqn:?
  end.

Lemma create_google_sheet_call title :
  one_api_call repr w Registry.is_success post (λ url, url = SHEETS_BASE_URL)
    (create_google_sheet repr w title).
Proof.
  destruct build_headers_inv as [Hlog Hok].
  unfold one_api_call, create_google_sheet, io_bind.
  destruct (build_headers repr w) as [log [headers|e]]; simpl in *; subst log;
    [|by left].
  destruct (Hok headers eq_refl) as (resp & token & Hsend & Hstatus & Htoken & ->).
  right. eexists. split.
  { by case_send r; [destruct (Registry.is_success _)|..]. }
  split; [done|]. split; [done|]. split.
  { exists resp, token. do 3 (split; [done|]). right. left. }
  intros a. case_send r; simpl; [|done..].
  destruct (Registry.is_success _) eqn:Hs; simpl; [|done].
  intros H. exists r. split; [done|]. split; [done|].
  unfold json_of in H. by destruct (rp_json r).
Qed.

Lemma write_to_google_sheet_call sheet_id range_ values :
  one_api_call repr w (λ code, code =? 200)%Z put
    (λ url, ∃ r, range_ = JStr r
       ∧ url = SHEETS_BASE_URL +:+ "/" +:+ str repr sheet_id +:+ "/values/"
               +:+ quote_bytes range_safe r)
    (write_to_google_sheet repr w sheet_id range_ values).
Proof.
  destruct build_headers_inv as [Hlog Hok].
  unfold one_api_call, write_to_google_sheet, io_bind.
  destruct (build_headers repr w) as [log [headers|e]]; simpl in *; subst log;
    [|by left].
  destruct (Hok headers eq_refl) as (resp & token & Hsend & Hstatus & Htoken & ->).
  destruct range_ as [| | | |r| |]; simpl; try by left.
  right. eexists. split.
  { by case_send rp; [destruct (negb _); [|destruct (rp_json _)]|..]. }
  split; [done|]. split; [by exists r|]. split.
  { exists resp, token. do 3 (split; [done|]). right. left. }
  intros a. case_send rp; simpl; [|done..].
  destruct (rp_status_code rp =? 200)%Z eqn:Hs; simpl; [|done].
  destruct (rp_json rp) as [v|] eqn:Hj; simpl; [|done].
  intros _. exists rp. rewrite Hj. eauto.
Qed.

Lemma send_email_via_gmail_call to subject body :
  one_api_call repr w Registry.is_success post (λ url, url = GMAIL_SEND_URL)
    (send_email_via_gmail repr w to subject body).
Proof.
  destruct get_access_token_inv as [Hlog Hok].
  unfold one_api_call, send_email_via_gmail, io_bind.
  destruct (get_access_token w) as [log [token|e]]; simpl in *; subst log;
    [|by left].
  destruct (Hok token eq_refl) as (resp & Hsend & Hstatus & Htoken).
  destruct (raw_message w to subject body) as [raw|]; simpl; [|by left].
  right. eexists. split.
  { by case_send r; [destruct (Registry.is_success _)|..]. }
  split; [done|]. split; [done|]. split.
  { exists resp, token. do 3 (split; [done|]). left. }
  intros a. case_send r; simpl; [|done..].
  destruct (Registry.is_success _) eqn:Hs; simpl; [|done].
  intros H. exists r. split; [done|]. split; [done|].
  unfold json_of in H. by destruct (rp_json r).
Qed.

(** An endpoint passes on what its service function did. *)
Lemma guard_passes ok verb url_ok (m : io json) (k : json → result response) :
  one_api_call repr w ok verb url_ok m →
  (∀ a resp, k a = Ok resp → status_code resp = 200%Z) →
  guarded_api_call repr w ok verb url_ok (result ←io m; lift (k result)).
Proof.
  intros Hm Hk. right. unfold io_bind, one_api_call in *.
  destruct m as [log [a|e]]; simpl in *.
  - split.
    + destruct Hm as [[-> Hno]|(rq & -> & ? & ? & ? & Hans)].
      * by destruct (Hno a).
      * right. exists rq. rewrite app_nil_r. do 4 (split; [done|]).
        intros resp _. by apply (Hans a).
    + intros resp. apply Hk.
  - split; [|done].
    destruct Hm as [[-> Hno]|(rq & -> & ? & ? & ? & Hans)]; [by left|].
    right. by exists rq.
Qed.

Lemma endpoints_guarded data :
  guarded_api_call repr w Registry.is_success post (λ url, url = SHEETS_BASE_URL)
    (create_sheet_endpoint repr w (Ok data))
  ∧ guarded_api_call repr w (λ code, code =? 200)%Z put
      (λ url, ∃ sheet_id r,
         get data "sheetId" = Ok sheet_id ∧ get data "range" = Ok (JStr r)
         ∧ url = SHEETS_BASE_URL +:+ "/" +:+ str repr sheet_id +:+ "/values/"
                 +:+ quote_bytes range_safe r)
      (write_data_endpoint repr w (Ok data))
  ∧ guarded_api_call repr w Registry.is_success post (λ url, url = GMAIL_SEND_URL)
      (send_email_endpoint repr w (Ok data)).
Proof.
  unfold create_sheet_endpoint, write_data_endpoint, send_email_endpoint.
  destruct data as [| | | | | |d]; try (repeat split; by left).
  unfold io_bind at 1 2 3 4 5 6 7 8 9 10. simpl.
  split; [|split].
  - destruct (negb _); [by left|].
    apply guard_passes; [apply create_google_sheet_call|].
    intros a resp. destruct (subscript a "spreadsheetId"); [|done]. simpl.
    destruct (subscript a "spreadsheetUrl"); [|done]. simpl. by intros [= <-].
  - destruct (negb _); [by left|].
    apply guard_passes.
    + destruct (write_to_google_sheet_call (default JNull (d !! "sheetId"))
                  (default JNull (d !! "range")) (default JNull (d !! "values")))
        as [H|(rq & ? & ? & (r & Hr & ?) & ? & ?)]; [by left|].
      right. exists rq. do 2 (split; [done|]). split; [|done].
      exists (default JNull (d !! "sheetId")), r. by rewrite <- Hr.
    + intros a resp. destruct (get_default a _ _); [|done]. simpl. by intros [= <-].
  - destruct (negb _); [by left|].
    apply guard_passes; [apply send_email_via_gmail_call|].
    intros a resp. destruct (get_default a _ _); [|done]. simpl. by intros [= <-].
Qed.

Lemma status_of_codes (m : io response) :
  raises_within endpoint_codes m →
  (∀ a, m.2 = Ok a → status_code a = 200%Z) →
  status_of m.2 ∈ [200; 400; 401; 500]%Z.
Proof.
  intros Hraise Hok. destruct m as [log [a|e]]; simpl in *.
  - rewrite (Hok a eq_refl). left.
  - destruct e as [| | | | |code detail|]; try in_codes.
    specialize (Hraise code detail eq_refl). by right.
Qed.


(** X22: what the three endpoints of the Google bridges send for a body
    that parses. Either nothing is sent and the call fails; or the token
    exchange is sent, alone when the call fails there, followed otherwise by
    exactly one request to the API: with the verb and the URL of the
    endpoint, and bearing the access token that this very token exchange
    returned with status 200. An answer 200 of the endpoint means that the
    API answered that request with an accepted status and a JSON body. *)
Theorem bridge_sends_token_exchange_then_one_call data :
  guarded_api_call repr w Registry.is_success post (λ url, url = SHEETS_BASE_URL)
    (create_sheet_endpoint repr w (Ok data))
  ∧ guarded_api_call repr w (λ code, code =? 200)%Z put
      (λ url, ∃ sheet_id r,
         get data "sheetId" = Ok sheet_id ∧ get data "range" = Ok (JStr r)
         ∧ url = SHEETS_BASE_URL +:+ "/" +:+ str repr sheet_id +:+ "/values/"
                 +:+ quote_bytes range_safe r)
      (write_data_endpoint repr w (Ok data))
  ∧ guarded_api_call repr w Registry.is_success post (λ url, url = GMAIL_SEND_URL)
      (send_email_endpoint repr w (Ok data)).
Proof. apply endpoints_guarded. Qed.

Lemma guarded_status ok verb url_ok (m : io response) :
  guarded_api_call repr w ok verb url_ok m →
  raises_within endpoint_codes m →
  status_of m.2 ∈ [200; 400; 401; 500]%Z.
Proof.
  intros Hg Hw. apply status_of_codes; [done|].
  destruct Hg as [[_ Hno]|[_ Hok]]; [|done]. intros a Ha. by destruct (Hno a).
Qed.

(** X23: the status that the client of a bridge endpoint sees for a body
    that parses is 200, 400, 401 or 500: the status that the Google API
    answered with is not passed on as such. *)
Theorem bridge_status_codes data :
  let codes := [200; 400; 401; 500]%Z in
  status_of (create_sheet_endpoint repr w (Ok data)).2 ∈ codes
  ∧ status_of (write_data_endpoint repr w (Ok data)).2 ∈ codes
  ∧ status_of (send_email_endpoint repr w (Ok data)).2 ∈ codes.
Proof.
  intros codes.
  destruct (endpoints_guarded data) as (Hc & Hw & Hs).
  destruct (endpoints_within (Ok data)) as (Hc' & Hw' & Hs'); [done|].
  split; [|split]; by eapply guarded_status.
Qed.

(** X24: [write_to_google_sheet] raises an [HTTPException] that carries
    the status of the Sheets API when that status is not 200, inside the
    [try] block whose last handler catches every [Exception]: what leaves
    the function is a 500, whatever the status was. *)
Theorem write_error_status_is_not_forwarded sheet_id range_ values rq resp :
  (write_to_google_sheet repr w sheet_id range_ values).1 = [token_request w; rq] →
  send w rq = Reply resp →
  rp_status_code resp ≠ 200%Z →
  (write_to_google_sheet repr w sheet_id range_ values).2
  = Raise (HTTPException 500 "Internal error").
Proof.
  destruct build_headers_inv as [Hlog _].
  unfold write_to_google_sheet, io_bind.
  destruct (build_headers repr w) as [log [headers|e]]; simpl in *; subst log;
    [|done].
  destruct range_ as [| | | |r| |]; simpl; try done.
  intros Hrq Hsend Hstatus.
  assert (rq = write_request repr headers sheet_id (quote_bytes range_safe r) values)
    as ->.
  { congruence. }
  rewrite Hsend. simpl. by rewrite (proj2 (Z.eqb_neq _ _) Hstatus).
Qed.

Lemma lacks_one (d : gmap string json) key :
  lacks [key] (JDict d) ↔ truthy (default JNull (d !! key)) = false.
Proof.
  split.
  - intros (d' & key' & [= <-] & ->%list_elem_of_singleton & Hf). done.
  - intros Hf. exists d, key. split; [done|]. split; [left|done].
Qed.

Lemma lacks_three (d : gmap string json) k1 k2 k3 :
  lacks [k1; k2; k3] (JDict d)
  ↔ all3 (default JNull (d !! k1)) (default JNull (d !! k2))
         (default JNull (d !! k3)) = false.
Proof.
  unfold all3. split.
  - intros (d' & key & [= <-] & Hin & Hf).
    destruct (truthy (default JNull (d !! k1))) eqn:H1; [|done].
    destruct (truthy (default JNull (d !! k2))) eqn:H2; [|done].
    destruct (truthy (default JNull (d !! k3))) eqn:H3; [|done].
    repeat (apply elem_of_cons in Hin as [->|Hin]; [congruence|]).
    by apply elem_of_nil in Hin.
  - intros Hf.
    destruct (truthy (default JNull (d !! k1))) eqn:H1;
      [|exists d, k1; split; [done|]; split; [left|done]].
    destruct (truthy (default JNull (d !! k2))) eqn:H2;
      [|exists d, k2; split; [done|]; split; [right; left|done]].
    exists d, k3. split; [done|]. split; [right; right; left|done].
Qed.

Lemma not_lacks_other keys data :
  (∀ d, data ≠ JDict d) → ¬ lacks keys data.
Proof. intros Hd (d & key & -> & _). by destruct (Hd d). Qed.

Lemma passed_status ok verb url_ok (m : io json) (k : json → result response) :
  one_api_call repr w ok verb url_ok m →
  raises_within [401; 500]%Z m →
  (∀ a, plain (k a)) →
  (∀ a resp, k a = Ok resp → status_code resp = 200%Z) →
  status_of (result ←io m; lift (k result)).2 ≠ 400%Z.
Proof.
  intros _ Hw Hplain Hk. unfold io_bind, raises_within in *.
  destruct m as [log [a|e]]; simpl in *.
  - destruct (k a) as [resp|e] eqn:Hka; simpl.
    + by rewrite (Hk a resp Hka).
    + destruct e as [| | | | |code detail|]; try done.
      by destruct (Hplain a code detail).
  - destruct e as [| | | | |code detail|]; try done.
    specialize (Hw code detail eq_refl).
    intros ->. apply (bool_decide_pack _) in Hw. by vm_compute in Hw.
Qed.

(** X25: an endpoint answers 400 exactly when the body is an object in
    which a required field is missing or false, and then nothing has been
    sent, the token exchange included. *)
Theorem incomplete_request_is_refused_before_any_exchange data :
  let create := create_sheet_endpoint repr w (Ok data) in
  let write := write_data_endpoint repr w (Ok data) in
  let mail := send_email_endpoint repr w (Ok data) in
  (status_of create.2 = 400%Z ↔ lacks ["title"] data)
  ∧ (status_of write.2 = 400%Z ↔ lacks ["sheetId"; "range"; "values"] data)
  ∧ (status_of mail.2 = 400%Z ↔ lacks ["to"; "subject"; "body"] data)
  ∧ (status_of create.2 = 400%Z → create.1 = [])
  ∧ (status_of write.2 = 400%Z → write.1 = [])
  ∧ (status_of mail.2 = 400%Z → mail.1 = []).
Proof.
  intros create write mail.
  assert ((status_of create.2 = 400%Z ↔ lacks ["title"] data)
          ∧ (status_of create.2 = 400%Z → create.1 = [])) as [? ?].
  { unfold create, create_sheet_endpoint.
    destruct data as [| | | | | |d];
      try (split; [split; [done|by intros ?%not_lacks_other]|done]).
    rewrite lacks_one. unfold io_bind at 1 2 3 4. simpl.
    destruct (truthy _) eqn:Ht; simpl; [|done].
    assert (status_of (result ←io create_google_sheet repr w (default JNull (d !! "title"));
                       lift (sheetId ←! subscript result "spreadsheetId";
                             link ←! subscript result "spreadsheetUrl";
                             Ok (JSONResponse
                                   (JDict {[ "ok" := JBool true; "sheetId" := sheetId;
                                             "link" := link ]})))).2 ≠ 400%Z) as Hne.
    { eapply passed_status; [apply create_google_sheet_call| | |].
      - apply create_google_sheet_within; in_codes.
      - intros a. plainly.
      - intros a resp. destruct (subscript a "spreadsheetId"); [|done]. simpl.
        destruct (subscript a "spreadsheetUrl"); [|done]. simpl. by intros [= <-]. }
    split; [split|]; done. }
  assert ((status_of write.2 = 400%Z ↔ lacks ["sheetId"; "range"; "values"] data)
          ∧ (status_of write.2 = 400%Z → write.1 = [])) as [? ?].
  { unfold write, write_data_endpoint.
    destruct data as [| | | | | |d];
      try (split; [split; [done|by intros ?%not_lacks_other]|done]).
    rewrite lacks_three. unfold io_bind at 1 2 3 4 5 6 7 8. simpl.
    destruct (all3 _ _ _) eqn:Ht; simpl; [|done].
    match goal with
    | |- (status_of ?m.2 = _ ↔ _) ∧ _ => assert (status_of m.2 ≠ 400%Z) as Hne
    end.
    { eapply passed_status; [apply write_to_google_sheet_call| | |].
      - apply write_to_google_sheet_within; in_codes.
      - intros a. plainly.
      - intros a resp. destruct (get_default a _ _); [|done]. simpl.
        by intros [= <-]. }
    split; [split|]; done. }
  assert ((status_of mail.2 = 400%Z ↔ lacks ["to"; "subject"; "body"] data)
          ∧ (status_of mail.2 = 400%Z → mail.1 = [])) as [? ?].
  { unfold mail, send_email_endpoint.
    destruct data as [| | | | | |d];
      try (split; [split; [done|by intros ?%not_lacks_other]|done]).
    rewrite lacks_three. unfold io_bind at 1 2 3 4 5 6 7 8. simpl.
    destruct (all3 _ _ _) eqn:Ht; simpl; [|done].
    match goal with
    | |- (status_of ?m.2 = _ ↔ _) ∧ _ => assert (status_of m.2 ≠ 400%Z) as Hne
    end.
    { eapply passed_status; [apply send_email_via_gmail_call| | |].
      - apply send_email_via_gmail_within; in_codes.
      - intros a. plainly.
      - intros a resp. destruct (get_default a _ _); [|done]. simpl.
        by intros [= <-]. }
    split; [split|]; done. }
  done.
Qed.


Lemma hex_digit_inj a b : a < 16 → b < 16 → hex_digit a = hex_digit b → a = b.
Proof.
  intros Ha Hb.
  do 16 (destruct a as [|a];
         [do 16 (destruct b as [|b]; [by vm_compute|]); lia|]).
  lia.
Qed.

Lemma hex_digit_url_char n : url_char (hex_digit n) = true.
Proof. do 16 (destruct n as [|n]; [by vm_compute|]). by vm_compute. Qed.

Lemma percent_inv c1 c2 s1 s2 :
  percent c1 +:+ s1 = percent c2 +:+ s2 → c1 = c2 ∧ s1 = s2.
Proof.
  unfold percent.
  remember (nat_of_ascii c1 / 16) as h1 eqn:Hh1.
  remember (nat_of_ascii c1 mod 16) as l1 eqn:Hl1.
  remember (nat_of_ascii c2 / 16) as h2 eqn:Hh2.
  remember (nat_of_ascii c2 mod 16) as l2 eqn:Hl2.
  simpl. intros [= Hhi Hlo Hrest]. subst h1 l1 h2 l2. split; [|done].
  pose proof (nat_ascii_bounded c1) as B1. pose proof (nat_ascii_bounded c2) as B2.
  apply hex_digit_inj in Hhi; [|apply Nat.Div0.div_lt_upper_bound; lia..].
  apply hex_digit_inj in Hlo; [|apply Nat.mod_upper_bound; lia..].
  rewrite <- (ascii_nat_embedding c1), <- (ascii_nat_embedding c2). f_equal.
  rewrite (Nat.div_mod_eq (nat_of_ascii c1) 16), (Nat.div_mod_eq (nat_of_ascii c2) 16).
  by rewrite Hhi, Hlo.
Qed.

Lemma percent_head c s : ∃ hi lo, percent c +:+ s = String "%" (String hi (String lo s)).
Proof. unfold percent. by eexists _, _. Qed.

Lemma kept_is_no_percent c :
  always_safe c || in_string c range_safe = true → c ≠ "%"%char.
Proof. intros H ->. by vm_compute in H. Qed.

Lemma quote_bytes_cons safe c r :
  quote_bytes safe (String c r)
  = (if always_safe c || in_string c safe then String c "" else percent c)
    +:+ quote_bytes safe r.
Proof. reflexivity. Qed.

Lemma quote_bytes_inj r1 r2 :
  quote_bytes range_safe r1 = quote_bytes range_safe r2 → r1 = r2.
Proof.
  revert r2. induction r1 as [|c1 r1 IH]; intros [|c2 r2];
    rewrite ?quote_bytes_cons; [done| | |].
  - destruct (always_safe c2 || in_string c2 range_safe); [done|].
    by destruct (percent_head c2 (quote_bytes range_safe r2)) as (hi & lo & ->).
  - destruct (always_safe c1 || in_string c1 range_safe); [done|].
    by destruct (percent_head c1 (quote_bytes range_safe r1)) as (hi & lo & ->).
  - destruct (always_safe c1 || in_string c1 range_safe) eqn:H1,
             (always_safe c2 || in_string c2 range_safe) eqn:H2.
    + simpl. intros [= -> Hrest]. f_equal. by apply IH.
    + destruct (percent_head c2 (quote_bytes range_safe r2)) as (hi & lo & ->).
      simpl. intros [= -> _]. by apply kept_is_no_percent in H1.
    + destruct (percent_head c1 (quote_bytes range_safe r1)) as (hi & lo & ->).
      simpl. intros [= <- _]. by apply kept_is_no_percent in H2.
    + intros [-> Hrest]%percent_inv. f_equal. by apply IH.
Qed.

Lemma quote_bytes_url_chars r c :
  c ∈ String.list_ascii_of_string (quote_bytes range_safe r) → url_char c = true.
Proof.
  induction r as [|c' r IH]; [by intros ?%elem_of_nil|].
  rewrite quote_bytes_cons.
  destruct (always_safe c' || in_string c' range_safe) eqn:H.
  - simpl. intros [->|Hin]%elem_of_cons; [|by apply IH].
    unfold url_char. by rewrite H.
  - unfold percent. cbn [String.append String.list_ascii_of_string].
    intros [->|Hin]%elem_of_cons; [done|].
    apply elem_of_cons in Hin as [->|Hin]; [apply hex_digit_url_char|].
    apply elem_of_cons in Hin as [->|Hin]; [apply hex_digit_url_char|].
    by apply IH.
Qed.

Lemma append_inv_head (s t1 t2 : string) : s +:+ t1 = s +:+ t2 → t1 = t2.
Proof. induction s as [|c s IH]; simpl; [done|]. intros [= H]. by apply IH. Qed.

(** X26: the range of a write request is quoted into the URL so that
    only unreserved characters, the characters [!$'()*+,-./@_~] and
    percent escapes appear, never a colon, a question mark, a hash or a
    blank, and so that nothing is lost: two ranges that give the same URL
    for the same sheet are the same range. *)
Theorem encoded_range_is_path_safe_and_lossless
    range_ encoded headers sheet_id values :
  quote range_ range_safe = Ok encoded →
  (∀ c, c ∈ String.list_ascii_of_string encoded →
        url_char c = true ∧ c ≠ ":"%char ∧ c ≠ "?"%char ∧ c ≠ "#"%char ∧ c ≠ " "%char)
  ∧ (∀ range' encoded' headers' values',
       quote range' range_safe = Ok encoded' →
       ar_url (write_request repr headers' sheet_id encoded' values')
       = ar_url (write_request repr headers sheet_id encoded values) →
       range' = range_).
Proof.
  destruct range_ as [| | | |r| |]; try done. simpl. intros [= <-]. split.
  - intros c Hc. apply quote_bytes_url_chars in Hc.
    split; [done|]. repeat split; intros ->; by vm_compute in Hc.
  - intros [| | | |r'| |] encoded' headers' values'; try done. simpl.
    intros [= <-] Hurl. f_equal.
    apply quote_bytes_inj. by do 4 apply append_inv_head in Hurl.
Qed.

End GoogleFacts.

Section GoogleSamples.
Import Py Webhook Google.

Example range_is_quoted :
  quote (JStr "Sheet1!A1:B2") range_safe = Ok "Sheet1!A1%3AB2".
Proof. vm_compute. reflexivity. Qed.

Example range_that_is_no_string_is_refused :
  quote (JInt 5) range_safe = Raise (OtherException "TypeError").
Proof. reflexivity. Qed.

Example upstream_403_is_answered_500 :
  status_of (write_data_endpoint sample_repr (sample_world 403) (Ok sample_write)).2
  = 500%Z.
Proof. vm_compute. reflexivity. Qed.

Example malformed_body_is_answered_500 :
  write_data_endpoint sample_repr (sample_world 200) (Raise JSONDecodeError)
  = ([], Raise JSONDecodeError).
Proof. reflexivity. Qed.

Lemma write_error_status_is_not_forwarded_witness :
  send (sample_world 403)
    (write_request sample_repr sample_headers (JStr "s1") "Sheet1!A1%3AB2" sample_values)
  = Reply {| rp_status_code := 403; rp_text := "denied"; rp_json := None |}
  ∧ (write_to_google_sheet sample_repr (sample_world 403) (JStr "s1")
       (JStr "Sheet1!A1:B2") sample_values).2
    = Raise (HTTPException 500 "Internal error").
Proof.
  split; [reflexivity|].
  refine (write_error_status_is_not_forwarded sample_repr (sample_world 403)
            (JStr "s1") (JStr "Sheet1!A1:B2") sample_values
            (write_request sample_repr sample_headers (JStr "s1") "Sheet1!A1%3AB2"
               sample_values)
            {| rp_status_code := 403; rp_text := "denied"; rp_json := None |} _ _ _).
  - vm_compute. reflexivity.
  - reflexivity.
  - discriminate.
Defined.

Lemma encoded_range_is_path_safe_and_lossless_witness :
  quote (JStr "Sheet1!A1:B2") range_safe = Ok "Sheet1!A1%3AB2"
  ∧ ∀ c, c ∈ String.list_ascii_of_string "Sheet1!A1%3AB2" →
         url_char c = true ∧ c ≠ ":"%char ∧ c ≠ "?"%char ∧ c ≠ "#"%char ∧ c ≠ " "%char.
Proof.
  assert (quote (JStr "Sheet1!A1:B2") range_safe = Ok "Sheet1!A1%3AB2") as Hq
    by (vm_compute; reflexivity).
  split; [exact Hq|].
  exact (proj1 (encoded_range_is_path_safe_and_lossless sample_repr
                  (JStr "Sheet1!A1:B2") "Sheet1!A1%3AB2" sample_headers (JStr "s1")
                  sample_values Hq)).
Defined.

End GoogleSamples.

(** ** A stream that is cancelled twice *)

Section CancellationFacts.
Import Py Broadcast Cancellation.

Lemma abandon_inv s c s' :
  step_or_abandon s (Abandon c) = Some s' →
  ∃ sub, subscribers s !! c = Some sub ∧ gen sub = Finalizing
    ∧ s' = set_subscriber c
             {| queue := queue sub; gen := Closed; stream := stream sub |} s.
Proof.
  simpl. destruct (subscribers s !! c) as [sub|]; [|done]. simpl.
  destruct (gen sub) eqn:Hg; try done. intros [= <-]. by exists sub.
Qed.

(** A queue leaves the set by the discard of its own generator only. *)
Lemma step_keeps_client s l s' c :
  step s l = Some s' → c ∈ clients s → c ∈ clients s' ∨ l = Finalize c.
Proof.
  intros H Hc. apply step_inv in H.
  destruct l as [m| |order|c'| |c'|c'|c' why|c']; simpl in H.
  - subst. by left.
  - destruct H as (m & rest & _ & _ & ->). by left.
  - destruct H as (m & _ & _ & _ & ->). by left.
  - destruct H as (m & todo & sub & _ & _ & _ & ->). by left.
  - destruct H as (m & _ & ->). by left.
  - destruct H as (_ & _ & ->). left. simpl. apply elem_of_union. by right.
  - destruct H as (sub & m & rest & _ & _ & _ & ->). by left.
  - destruct H as (sub & _ & _ & ->). by left.
  - destruct H as (sub & _ & _ & _ & ->). simpl.
    destruct (decide (c' = c)) as [->|Hne]; [by right|]. left.
    apply elem_of_difference. split; [done|]. by intros ->%elem_of_singleton.
Qed.

(** What one move does to the generator of [c] and to its place in the
    set. *)
Lemma move_gen_of s m s' c :
  step_or_abandon s m = Some s' →
  (gen_of c s' = gen_of c s ∧ m ≠ Abandon c ∧ m ≠ Step (Finalize c)
   ∧ (c ∈ clients s → c ∈ clients s')
   ∧ (gen_of c s = Some Closed → c ∉ clients s → c ∉ pass_targets s →
      (c ∉ clients s') ∧ (c ∉ pass_targets s')))
  ∨ (∃ why, m = Step (Exit c why) ∧ gen_of c s = Some Running)
  ∨ (m = Step (Subscribe c) ∧ gen_of c s = None)
  ∨ (m = Step (Finalize c) ∧ gen_of c s = Some Finalizing
     ∧ gen_of c s' = Some Closed ∧ (c ∉ clients s') ∧ (c ∉ pass_targets s'))
  ∨ (m = Abandon c ∧ gen_of c s = Some Finalizing
     ∧ gen_of c s' = Some Closed ∧ clients s' = clients s).
Proof.
  destruct m as [l|c']; intros H.
  - simpl in H.
    destruct (step_gen_of s l s' c H)
      as [Hsame|[(why & -> & Hr & _)|[(-> & Hl & Hf & Hcl & Hcs)|(-> & Hn & _)]]].
    + left. split; [done|]. split; [done|].
      assert (l ≠ Finalize c) as Hne.
      { intros ->. apply step_inv in H as (sub & _ & Hsub & Hfin & ->).
        unfold gen_of in Hsame. simpl in Hsame.
        rewrite lookup_insert_eq, Hsub in Hsame. simpl in Hsame. congruence. }
      split; [congruence|]. split.
      * intros Hc. by destruct (step_keeps_client s l s' c H Hc).
      * intros Hg Hc Ht.
        by destruct (closed_step s c l s' Hg Hc Ht H) as (_ & ? & ? & _).
    + right. left. by exists why.
    + right. right. right. left. do 3 (split; [done|]). split.
      * rewrite Hcs. intros [_ Hc]%elem_of_difference. apply Hc.
        by apply elem_of_singleton.
      * apply step_inv in H as (sub & _ & _ & _ & ->).
        unfold pass_targets, locked in *. simpl.
        destruct (broadcast_task s); try done; by intros ?%elem_of_nil.
    + right. right. by left.
  - apply abandon_inv in H as (sub & Hsub & Hg & ->).
    destruct (decide (c' = c)) as [->|Hne].
    + right. right. right. right. split; [done|].
      split; [by rewrite (gen_of_lookup c s sub), Hg|].
      split; [by rewrite gen_of_set_subscriber, decide_True|done].
    + left. split; [by rewrite gen_of_set_subscriber, decide_False|].
      split; [congruence|]. split; [done|]. split; done.
Qed.


Lemma discarded_moves s c trace s' :
  gen_of c s = Some Closed → c ∉ clients s → c ∉ pass_targets s →
  run_moves s trace = Some s' →
  gen_of c s' = Some Closed ∧ (c ∉ clients s') ∧ (c ∉ pass_targets s').
Proof.
  revert s. induction trace as [|m trace IH]; intros s Hg Hc Ht Hrun; simpl in Hrun.
  - by injection Hrun as <-.
  - destruct (step_or_abandon s m) as [s1|] eqn:Hm; [|done].
    destruct (move_gen_of s m s1 c Hm)
      as [(Hsame & _ & _ & _ & Hout)|[(why & _ & Hr)|[(_ & Hn)
         |[(_ & Hf & _)|(_ & Hf & _)]]]]; try congruence.
    destruct (Hout Hg Hc Ht) as [Hc1 Ht1].
    apply (IH s1); [congruence|done|done|done].
Qed.

Lemma leaked_moves s c trace s' :
  gen_of c s = Some Closed → c ∈ clients s →
  run_moves s trace = Some s' →
  gen_of c s' = Some Closed ∧ c ∈ clients s' ∧ (Step (Finalize c) ∉ trace).
Proof.
  revert s. induction trace as [|m trace IH]; intros s Hg Hc Hrun; simpl in Hrun.
  - injection Hrun as <-. split; [done|]. split; [done|]. by intros ?%elem_of_nil.
  - destruct (step_or_abandon s m) as [s1|] eqn:Hm; [|done].
    destruct (move_gen_of s m s1 c Hm)
      as [(Hsame & _ & Hne & Hin & _)|[(why & _ & Hr)|[(_ & Hn)
         |[(_ & Hf & _)|(_ & Hf & _)]]]]; try congruence.
    destruct (IH s1) as (? & ? & Hno); [congruence|by apply Hin|done|].
    split; [done|]. split; [done|]. apply not_elem_of_cons. split; [congruence|done].
Qed.

Lemma finalizing_moves s c trace s' :
  gen_of c s = Some Finalizing → c ∈ clients s →
  run_moves s trace = Some s' →
  (gen_of c s' = Some Finalizing ∧ c ∈ clients s'
   ∧ (Step (Finalize c) ∉ trace) ∧ (Abandon c ∉ trace))
  ∨ (gen_of c s' = Some Closed ∧ Step (Finalize c) ∈ trace
     ∧ (c ∉ clients s') ∧ (c ∉ pass_targets s'))
  ∨ (gen_of c s' = Some Closed ∧ Abandon c ∈ trace
     ∧ (Step (Finalize c) ∉ trace) ∧ c ∈ clients s').
Proof.
  revert s. induction trace as [|m trace IH]; intros s Hg Hc Hrun; simpl in Hrun.
  - injection Hrun as <-. left. split; [done|]. split; [done|].
    split; by intros ?%elem_of_nil.
  - destruct (step_or_abandon s m) as [s1|] eqn:Hm; [|done].
    destruct (move_gen_of s m s1 c Hm)
      as [(Hsame & Hna & Hnf & Hin & _)|[(why & _ & Hr)|[(_ & Hn)
         |[(-> & _ & Hcl & Hc1 & Ht1)|(-> & _ & Hcl & Hcs)]]]]; try congruence.
    + destruct (IH s1) as [(? & ? & ? & ?)|[(? & ? & ? & ?)|(? & ? & ? & ?)]];
        [congruence|by apply Hin|done| | |].
      * left. split; [done|]. split; [done|].
        split; apply not_elem_of_cons; split; congruence || done.
      * right. left. split; [done|]. split; [by right|done].
      * right. right. split; [done|]. split; [by right|]. split; [|done].
        apply not_elem_of_cons. split; [congruence|done].
    + right. left.
      destruct (discarded_moves s1 c trace s' Hcl Hc1 Ht1 Hrun) as (? & ? & ?).
      split; [done|]. split; [left|done].
    + right. right.
      destruct (leaked_moves s1 c trace s') as (? & ? & ?);
        [done|by rewrite Hcs|done|].
      split; [done|]. split; [left|]. split; [|done].
      apply not_elem_of_cons. split; [discriminate|done].
Qed.

(** X11: however control leaves the [try] block of a subscriber's stream
    (the response closing it, a cancellation, an error), the generator is
    in its [finally] block with its queue still registered. From then on,
    along every schedule, one of three things is the case. It still waits
    there: the discard is enabled as soon as the lock is free, and so is
    the abandonment. Or the discard was done: the queue is out of the
    subscriber set and no fan-out pass has it among its targets. Or the
    wait for the lock was cancelled: the generator has ended without the
    discard, and its queue stays in the subscriber set for good. *)
Theorem exit_ends_in_discard_or_leak s c why s1 trace s2 :
  consistent s →
  step s (Exit c why) = Some s1 →
  run_moves s1 trace = Some s2 →
  gen_of c s1 = Some Finalizing
  ∧ c ∈ clients s1
  ∧ ((gen_of c s2 = Some Finalizing ∧ c ∈ clients s2
      ∧ (Step (Finalize c) ∉ trace) ∧ (Abandon c ∉ trace)
      ∧ (locked s2 = false → is_Some (step s2 (Finalize c)))
      ∧ is_Some (step_or_abandon s2 (Abandon c)))
     ∨ (gen_of c s2 = Some Closed ∧ Step (Finalize c) ∈ trace
        ∧ (c ∉ clients s2) ∧ (c ∉ pass_targets s2))
     ∨ (gen_of c s2 = Some Closed ∧ Abandon c ∈ trace
        ∧ (Step (Finalize c) ∉ trace) ∧ c ∈ clients s2
        ∧ ∀ more s3, run_moves s2 more = Some s3 → c ∈ clients s3)).
Proof.
  intros (_ & _ & Hrunning & _) Hexit Hrun.
  apply step_inv in Hexit as (sub & Hsub & Hr & ->).
  assert (gen_of c (set_subscriber c
                      {| queue := queue sub; gen := Finalizing; stream := stream sub |} s)
          = Some Finalizing) as Hg
    by (by rewrite gen_of_set_subscriber, decide_True).
  assert (c ∈ clients s) as Hc.
  { apply Hrunning. by rewrite (gen_of_lookup c s sub), Hr. }
  split; [done|]. split; [done|].
  destruct (finalizing_moves _ c trace s2 Hg Hc Hrun)
    as [(Hg2 & Hc2 & Hnf & Hna)|[Hdone|(Hg2 & Ha & Hnf & Hc2)]].
  - left. do 4 (split; [done|]).
    unfold gen_of in Hg2. simpl.
    destruct (subscribers s2 !! c) as [sub2|]; [|done]. simpl in *.
    injection Hg2 as ->. split; [|eauto]. intros ->. eauto.
  - by right; left.
  - right. right. do 4 (split; [done|]).
    intros more s3 Hmore.
    by destruct (leaked_moves s2 c more s3 Hg2 Hc2 Hmore) as (_ & ? & _).
Qed.

End CancellationFacts.

Section CancellationSamples.
Import Py Broadcast Cancellation.

(** A subscriber whose stream is cancelled, and cancelled again in
    [finally], is closed and still registered. *)
Example abandoned_queue_stays_registered :
  (λ s, (gen_of 0 s, bool_decide (0 ∈ clients s)))
  <$> run_moves subscribed [Step (Exit 0 Cancelled); Abandon 0]
  = Some (Some Closed, true).
Proof. vm_compute. reflexivity. Qed.

Lemma exit_ends_in_discard_or_leak_witness :
  consistent subscribed
  ∧ step subscribed (Exit 0 Cancelled)
    = Some (default initial (step subscribed (Exit 0 Cancelled)))
  ∧ gen_of 0 (default initial (step subscribed (Exit 0 Cancelled))) = Some Finalizing
  ∧ 0 ∈ clients (default initial (step subscribed (Exit 0 Cancelled))).
Proof.
  assert (consistent subscribed) as Hcons.
  { apply (consistent_run initial two_subscribers); [apply consistent_initial|].
    vm_compute. reflexivity. }
  assert (step subscribed (Exit 0 Cancelled)
          = Some (default initial (step subscribed (Exit 0 Cancelled)))) as Hexit
    by (vm_compute; reflexivity).
  split; [exact Hcons|]. split; [exact Hexit|].
  pose proof (exit_ends_in_discard_or_leak subscribed 0 Cancelled _ [Abandon 0]
                (default initial
                   (run_moves (default initial (step subscribed (Exit 0 Cancelled)))
                      [Abandon 0]))
                Hcons Hexit ltac:(vm_compute; reflexivity)) as (Hg & Hc & _).
  split; [exact Hg|exact Hc].
Defined.

End CancellationSamples.
